(** * CFG++ parser library (cpp-labview): a shallow embedding

    The development follows [cfgpp_parser.h] and [cfgpp_parser.cpp]:
    the value model, the LabVIEW variant and cluster decoders, the schema
    engine, the lexer and the recursive-descent parser.  Every definition
    keeps the name of the C++ entity it embeds. *)

From Stdlib Require Import ZArith List Ascii String Strings.Byte Bool Lia.
From stdpp Require Import gmap strings list.
Import ListNotations.

#[local] Set Warnings "-register-all".
#[local] Open Scope string_scope.
#[local] Open Scope list_scope.
#[local] Open Scope Z_scope.

(** ** Result codes and value types ([cfgpp_parser.h]) *)

Inductive CfgppResult : Set :=
| CFGPP_SUCCESS
| CFGPP_ERROR_INVALID_SYNTAX
| CFGPP_ERROR_FILE_NOT_FOUND
| CFGPP_ERROR_MEMORY_ERROR
| CFGPP_ERROR_INVALID_PARAMETER
| CFGPP_ERROR_CIRCULAR_INCLUDE
| CFGPP_ERROR_BUFFER_TOO_SMALL.

Inductive CfgppValueType : Set :=
| CFGPP_TYPE_NULL
| CFGPP_TYPE_BOOLEAN
| CFGPP_TYPE_INTEGER
| CFGPP_TYPE_DOUBLE
| CFGPP_TYPE_STRING
| CFGPP_TYPE_ARRAY
| CFGPP_TYPE_OBJECT
| CFGPP_TYPE_ENUM.

Definition CfgppValueType_eqb (a b : CfgppValueType) : bool :=
  match a, b with
  | CFGPP_TYPE_NULL, CFGPP_TYPE_NULL
  | CFGPP_TYPE_BOOLEAN, CFGPP_TYPE_BOOLEAN
  | CFGPP_TYPE_INTEGER, CFGPP_TYPE_INTEGER
  | CFGPP_TYPE_DOUBLE, CFGPP_TYPE_DOUBLE
  | CFGPP_TYPE_STRING, CFGPP_TYPE_STRING
  | CFGPP_TYPE_ARRAY, CFGPP_TYPE_ARRAY
  | CFGPP_TYPE_OBJECT, CFGPP_TYPE_OBJECT
  | CFGPP_TYPE_ENUM, CFGPP_TYPE_ENUM => true
  | _, _ => false
  end.

(** A C++ [double] is kept symbolically, by where it comes from: the
    result of [std::stod] on a literal, the eight payload bytes of a
    LabVIEW DBL reinterpreted, or the four payload bytes of a LabVIEW SGL
    reinterpreted as [float] and widened.  No floating-point arithmetic is
    performed by the code that is modelled here. *)
Inductive cdouble : Set :=
| D_stod (literal : string)
| D_bits64 (bits : Z)
| D_widen32 (bits : Z).

(** [struct CfgppValue]: the tag and the [std::variant] payload are one
    constructor here, so a tag always agrees with its payload.  The
    alternative [std::string] serves both CFGPP_TYPE_STRING and
    CFGPP_TYPE_ENUM; the [std::unordered_map] of an object is a finite
    map. *)
Inductive CfgppValue : Type :=
| VNull
| VBoolean (b : bool)
| VInteger (i : Z)
| VDouble (d : cdouble)
| VString (s : string)
| VEnum (s : string)
| VArray (vec : list CfgppValue)
| VObject (map : gmap string CfgppValue).

Definition value_type (v : CfgppValue) : CfgppValueType :=
  match v with
  | VNull => CFGPP_TYPE_NULL
  | VBoolean _ => CFGPP_TYPE_BOOLEAN
  | VInteger _ => CFGPP_TYPE_INTEGER
  | VDouble _ => CFGPP_TYPE_DOUBLE
  | VString _ => CFGPP_TYPE_STRING
  | VEnum _ => CFGPP_TYPE_ENUM
  | VArray _ => CFGPP_TYPE_ARRAY
  | VObject _ => CFGPP_TYPE_OBJECT
  end.

(** What a C API call leaves behind: the returned code and, when the call
    stored one, the handle written through [result]. *)
Record api_return : Type := Api {
  api_code : CfgppResult;
  api_result : option CfgppValue
}.

(** * LabVIEW integration *)

Module LabView.

(** ** Memory

    The decoders receive a pointer and a byte count.  The pointer is
    modelled by the bytes that are readable from it onwards; [data_size] is
    the count the caller passes, which the memory may or may not honour.  A
    load that leaves the readable bytes has no defined result in C++ and is
    [OutOfBounds] here. *)

Definition memory := list byte.

Inductive outcome (A : Type) : Type :=
| Returned (a : A)
| OutOfBounds.
Arguments Returned {A} a.
Arguments OutOfBounds {A}.

Definition load_bytes (mem : memory) (off : Z) (n : nat) : option (list byte) :=
  if off <? 0 then None
  else
    let bs := firstn n (skipn (Z.to_nat off) mem) in
    if Nat.eqb (List.length bs) n then Some bs else None.

(** Little-endian value of a byte string (the library targets x86). *)
Fixpoint le_unsigned (bs : list byte) : Z :=
  match bs with
  | [] => 0
  | b :: rest => Z.of_N (Byte.to_N b) + 256 * le_unsigned rest
  end.

Definition load_unsigned (mem : memory) (off : Z) (n : nat) : option Z :=
  le_unsigned <$> load_bytes mem off n.

(** Two's complement reading of an [n]-byte unsigned value. *)
Definition to_signed (n : nat) (u : Z) : Z :=
  let w := 8 * Z.of_nat n in
  if u <? 2 ^ (w - 1) then u else u - 2 ^ w.

Definition load_signed (mem : memory) (off : Z) (n : nat) : option Z :=
  to_signed n <$> load_unsigned mem off n.

(** [size_t] arithmetic on a 64-bit target. *)
Definition size_t (z : Z) : Z := z mod 2 ^ 64.

(** Sequencing of loads: the first load out of bounds ends the call. *)
Definition loading {A B} (r : option A) (k : A -> outcome B) : outcome B :=
  match r with
  | Some a => k a
  | None => OutOfBounds
  end.

Notation "'load!' x <- r ; k" := (loading r (fun x => k))
  (at level 10, x name, r at level 100, k at level 200).

(** ** [LabViewDataType] and [LabViewDataHeader] *)

Definition LABVIEW_TYPE_VOID : Z := 0.
Definition LABVIEW_TYPE_I8 : Z := 1.
Definition LABVIEW_TYPE_I16 : Z := 2.
Definition LABVIEW_TYPE_I32 : Z := 3.
Definition LABVIEW_TYPE_I64 : Z := 5.
Definition LABVIEW_TYPE_U8 : Z := 6.
Definition LABVIEW_TYPE_U16 : Z := 7.
Definition LABVIEW_TYPE_U32 : Z := 8.
Definition LABVIEW_TYPE_U64 : Z := 10.
Definition LABVIEW_TYPE_SGL : Z := 9.
Definition LABVIEW_TYPE_DBL : Z := 10.
Definition LABVIEW_TYPE_BOOLEAN : Z := 33.
Definition LABVIEW_TYPE_STRING : Z := 48.
Definition LABVIEW_TYPE_ARRAY : Z := 64.
Definition LABVIEW_TYPE_CLUSTER : Z := 80.
Definition LABVIEW_TYPE_VARIANT : Z := 15.

(** Four 32-bit members: [type_code] at 0, [flags] at 4, [data_size] at 8,
    [dimensions] at 12. *)
Definition sizeof_LabViewDataHeader : Z := 16.

Definition header_type_code (mem : memory) (at_ : Z) : option Z :=
  load_unsigned mem at_ 4.

Definition header_data_size (mem : memory) (at_ : Z) : option Z :=
  load_unsigned mem (at_ + 8) 4.

Definition string_of_bytes (bs : list byte) : string :=
  string_of_list_ascii (List.map ascii_of_byte bs).

(** ** [cfgpp_from_labview_variant]

    The pointers are taken to be non-null.  The [switch] is read in the
    order of its labels, so the code 10, which the header gives to both
    LABVIEW_TYPE_U64 and LABVIEW_TYPE_DBL, reaches the unsigned group that
    comes first.  The body of the [try] is taken not to throw: the
    allocations of [make_unique] and of the [std::string] that copies the
    payload succeed.  A call in which one of them fails returns
    CFGPP_ERROR_MEMORY_ERROR from the [catch (...)], with no result, and
    is outside this function. *)
Definition cfgpp_from_labview_variant (variant_data : memory) (data_size : Z)
  : outcome api_return :=
  if data_size <? sizeof_LabViewDataHeader then
    Returned (Api CFGPP_ERROR_INVALID_PARAMETER None)
  else
    let data_ptr := sizeof_LabViewDataHeader in
    let success v := Returned (Api CFGPP_SUCCESS (Some v)) in
    load! type_code <- header_type_code variant_data 0;
    if type_code =? LABVIEW_TYPE_BOOLEAN then
      load! b <- load_unsigned variant_data data_ptr 1;
      success (VBoolean (negb (b =? 0)))
    else if (type_code =? LABVIEW_TYPE_I8) || (type_code =? LABVIEW_TYPE_I16)
            || (type_code =? LABVIEW_TYPE_I32) || (type_code =? LABVIEW_TYPE_I64) then
      if type_code =? LABVIEW_TYPE_I8 then
        load! int_val <- load_signed variant_data data_ptr 1; success (VInteger int_val)
      else if type_code =? LABVIEW_TYPE_I16 then
        load! int_val <- load_signed variant_data data_ptr 2; success (VInteger int_val)
      else if type_code =? LABVIEW_TYPE_I32 then
        load! int_val <- load_signed variant_data data_ptr 4; success (VInteger int_val)
      else
        load! int_val <- load_signed variant_data data_ptr 8; success (VInteger int_val)
    else if (type_code =? LABVIEW_TYPE_U8) || (type_code =? LABVIEW_TYPE_U16)
            || (type_code =? LABVIEW_TYPE_U32) || (type_code =? LABVIEW_TYPE_U64) then
      if type_code =? LABVIEW_TYPE_U8 then
        load! int_val <- load_unsigned variant_data data_ptr 1; success (VInteger int_val)
      else if type_code =? LABVIEW_TYPE_U16 then
        load! int_val <- load_unsigned variant_data data_ptr 2; success (VInteger int_val)
      else if type_code =? LABVIEW_TYPE_U32 then
        load! int_val <- load_unsigned variant_data data_ptr 4; success (VInteger int_val)
      else
        (* static_cast<int64_t> of the uint64_t *)
        load! int_val <- load_signed variant_data data_ptr 8; success (VInteger int_val)
    else if type_code =? LABVIEW_TYPE_SGL then
      load! bits <- load_unsigned variant_data data_ptr 4;
      success (VDouble (D_widen32 bits))
    else if type_code =? LABVIEW_TYPE_DBL then
      load! bits <- load_unsigned variant_data data_ptr 8;
      success (VDouble (D_bits64 bits))
    else if type_code =? LABVIEW_TYPE_STRING then
      load! str_length <- load_unsigned variant_data data_ptr 4;
      load! str_data <- load_bytes variant_data (data_ptr + 4) (Z.to_nat str_length);
      success (VString (string_of_bytes str_data))
    else
      Returned (Api CFGPP_ERROR_INVALID_PARAMETER None).

(** ** [cfgpp_from_labview_cluster]

    [field_names] and [field_count] are one list.  [cluster_fields] is the
    [for] loop: its list argument holds the names from index [i] on, and
    [offset] and [map] are the loop's variables. *)
Fixpoint cluster_fields (cluster_data : memory) (data_size : Z)
    (field_names : list string) (offset : Z) (map : gmap string CfgppValue)
  : outcome (gmap string CfgppValue) :=
  match field_names with
  | [] => Returned map
  | name :: later =>
    if negb (offset <? data_size) then Returned map
    else if size_t (offset + sizeof_LabViewDataHeader) >? data_size then Returned map
    else
      let header := offset in
      let offset := size_t (offset + sizeof_LabViewDataHeader) in
      let field_ptr := size_t (offset - sizeof_LabViewDataHeader) in
      load! header_size <- header_data_size cluster_data header;
      match cfgpp_from_labview_variant
              (skipn (Z.to_nat field_ptr) cluster_data)
              (size_t (header_size + sizeof_LabViewDataHeader)) with
      | OutOfBounds => OutOfBounds
      | Returned field =>
        let map :=
          match api_code field, api_result field with
          | CFGPP_SUCCESS, Some field_value => <[name := field_value]> map
          | _, _ => map
          end in
        cluster_fields cluster_data data_size later (size_t (offset + header_size)) map
      end
  end.

Definition cfgpp_from_labview_cluster (cluster_data : memory) (data_size : Z)
    (field_names : list string) : outcome api_return :=
  match field_names with
  | [] => Returned (Api CFGPP_ERROR_INVALID_PARAMETER None)
  | _ =>
    match cluster_fields cluster_data data_size field_names 0 ∅ with
    | OutOfBounds => OutOfBounds
    | Returned map => Returned (Api CFGPP_SUCCESS (Some (VObject map)))
    end
  end.

(** *** Sample records *)

(** A header with type code LABVIEW_TYPE_BOOLEAN (33) that declares one
    payload byte, and the same header followed by the payload byte 1. *)
Definition boolean_header : memory :=
  [x21; x00; x00; x00;  x00; x00; x00; x00;  x01; x00; x00; x00;  x00; x00; x00; x00]%byte.

Definition boolean_field : memory := boolean_header ++ [x01]%byte.

(** A record whose type code is LABVIEW_TYPE_ARRAY (64), which the variant
    decoder does not handle, with four payload bytes. *)
Definition array_field : memory :=
  [x40; x00; x00; x00;  x00; x00; x00; x00;  x04; x00; x00; x00;  x00; x00; x00; x00;
   xaa; xbb; xcc; xdd]%byte.

(** An I32 record holding 1000. *)
Definition i32_field : memory :=
  [x03; x00; x00; x00;  x00; x00; x00; x00;  x04; x00; x00; x00;  x00; x00; x00; x00;
   xe8; x03; x00; x00]%byte.

End LabView.

(** * The [std::string] operations the library uses *)

Module StdString.

#[local] Open Scope nat_scope.

Definition char_in (chars : string) (c : ascii) : bool :=
  existsb (Ascii.eqb c) (list_ascii_of_string chars).

(** [s.find_first_not_of(chars)]; [None] is [npos]. *)
Fixpoint find_first_not_of (chars : string) (s : string) : option nat :=
  match s with
  | EmptyString => None
  | String c rest =>
    if char_in chars c then S <$> find_first_not_of chars rest else Some 0
  end.

(** [s.find_last_not_of(chars)]. *)
Fixpoint find_last_not_of (chars : string) (s : string) : option nat :=
  match s with
  | EmptyString => None
  | String c rest =>
    match find_last_not_of chars rest with
    | Some i => Some (S i)
    | None => if char_in chars c then None else Some 0
    end
  end.

(** [s.find(c)]. *)
Fixpoint find_char (c : ascii) (s : string) : option nat :=
  match s with
  | EmptyString => None
  | String d rest => if Ascii.eqb c d then Some 0 else S <$> find_char c rest
  end.

(** [s.find(needle)] from position 0. *)
Definition find (needle : string) (s : string) : option nat :=
  String.index 0 needle s.

(** [s.substr(pos, count)] for [pos <= s.length()]; [count = None] is the
    default [npos]. *)
Definition substr (s : string) (pos : nat) (count : option nat) : string :=
  match count with
  | Some n => String.substring pos n s
  | None => String.substring pos (String.length s - pos) s
  end.

(** [s.erase(0, s.find_first_not_of(chars))]: a count of [npos] erases
    the whole string. *)
Definition erase_leading (chars : string) (s : string) : string :=
  match find_first_not_of chars s with
  | Some n => substr s n None
  | None => EmptyString
  end.

(** [s.erase(s.find_last_not_of(chars) + 1)]: [npos + 1] wraps to 0 and
    erases the whole string. *)
Definition erase_trailing (chars : string) (s : string) : string :=
  match find_last_not_of chars s with
  | Some i => substr s 0 (Some (S i))
  | None => EmptyString
  end.

(** The loop [while (std::getline(stream, line))]: the lines of [text],
    split at the newline character; a final line needs no newline, and no
    line follows a final newline. *)
Fixpoint getlines (text : string) : list string :=
  match text with
  | EmptyString => []
  | String c rest =>
    if Ascii.eqb c "010" then EmptyString :: getlines rest
    else
      match getlines rest with
      | [] => [String c EmptyString]
      | line :: lines => String c line :: lines
      end
  end.

End StdString.

(** * Schema engine *)

Module Schema.

Import StdString.

(** A [std::unordered_map] whose iteration order matters to the caller is
    an association list with distinct keys: the list order stands for the
    iteration order, which C++ leaves unspecified.  [umap_set] is
    [m[k] = v]; a new key goes to the end. *)
Definition umap (V : Type) : Type := list (string * V).

Fixpoint umap_find {V} (k : string) (m : umap V) : option V :=
  match m with
  | [] => None
  | (k', v) :: rest => if String.eqb k k' then Some v else umap_find k rest
  end.

Fixpoint umap_set {V} (k : string) (v : V) (m : umap V) : umap V :=
  match m with
  | [] => [(k, v)]
  | (k', v') :: rest =>
    if String.eqb k k' then (k, v) :: rest else (k', v') :: umap_set k v rest
  end.

(** [struct CfgppSchema] *)
Record CfgppSchema : Type := {
  type_definitions : gmap string string;
  enum_definitions : gmap string (list string);
  object_schemas : umap (umap string);
  last_error : string
}.

(** [cfgpp_schema_create]: [new CfgppSchema()]. *)
Definition cfgpp_schema_create : CfgppSchema :=
  {| type_definitions := ∅; enum_definitions := ∅;
     object_schemas := []; last_error := "" |}.

(** [CfgppSchema::validate_type] *)
Definition validate_type (schema : CfgppSchema) (expected_type : string)
    (value : CfgppValue) : bool :=
  if String.eqb expected_type "string" then
    CfgppValueType_eqb (value_type value) CFGPP_TYPE_STRING
  else if String.eqb expected_type "integer" then
    CfgppValueType_eqb (value_type value) CFGPP_TYPE_INTEGER
  else if String.eqb expected_type "double" then
    CfgppValueType_eqb (value_type value) CFGPP_TYPE_DOUBLE
  else if String.eqb expected_type "boolean" then
    CfgppValueType_eqb (value_type value) CFGPP_TYPE_BOOLEAN
  else if String.eqb expected_type "array" then
    CfgppValueType_eqb (value_type value) CFGPP_TYPE_ARRAY
  else if String.eqb expected_type "object" then
    CfgppValueType_eqb (value_type value) CFGPP_TYPE_OBJECT
  else
    match enum_definitions schema !! expected_type with
    | Some valid_values =>
      match value with
      | VEnum enum_value => existsb (String.eqb enum_value) valid_values
      | _ => false
      end
    | None => false
    end.

(** ** [cfgpp_schema_parse_string] *)

(** The character sets of the trimming calls: blank and tab, and those
    with the semicolon. *)
Definition blanks : string := String " " (String "009" EmptyString).
Definition blanks_semicolon : string := blanks +:+ ";".

Definition trim (s : string) : string :=
  erase_trailing blanks (erase_leading blanks s).

Definition set_enum (schema : CfgppSchema) (name : string) (values : list string)
  : CfgppSchema :=
  {| type_definitions := type_definitions schema;
     enum_definitions := <[name := values]> (enum_definitions schema);
     object_schemas := object_schemas schema;
     last_error := last_error schema |}.

Definition set_field (schema : CfgppSchema) (object field_name field_type : string)
  : CfgppSchema :=
  let fields := default [] (umap_find object (object_schemas schema)) in
  {| type_definitions := type_definitions schema;
     enum_definitions := enum_definitions schema;
     object_schemas :=
       umap_set object (umap_set field_name field_type fields) (object_schemas schema);
     last_error := last_error schema |}.

(** The name an enum line declares: the line starts with the word enum and a blank and has a
    brace; the name is what lies between, trimmed. *)
Definition enum_declaration (line : string) : option string :=
  match find "enum " line with
  | Some O =>
    let name_start := 5%nat in
    match find_char "{" line with
    | Some brace_pos => Some (trim (substr line name_start (Some (brace_pos - name_start)%nat)))
    | None => None
    end
  | _ => None
  end.

(** One turn of the line loop, after the line was read; the state is the
    schema and [current_object]. *)
Definition schema_line (st : CfgppSchema * string) (line : string)
  : CfgppSchema * string :=
  let '(schema, current_object) := st in
  let line := trim line in
  match line with
  | EmptyString => st
  | String c0 _ =>
    if Ascii.eqb c0 "/" || Ascii.eqb c0 "#" then st
    else
      (* enum definitions: the member list stays empty *)
      let schema :=
        match enum_declaration line with
        | Some enum_name => set_enum schema enum_name []
        | None => schema
        end in
      (* object schemas *)
      let current_object :=
        match find_char "{" line, find "enum" line with
        | Some brace_pos, None => trim (substr line 0 (Some brace_pos))
        | _, _ => current_object
        end in
      (* field definitions within objects *)
      let schema :=
        match current_object, find_char ":" line with
        | String _ _, Some colon_pos =>
          let field_name := trim (substr line 0 (Some colon_pos)) in
          let field_type := substr line (S colon_pos) None in
          let field_type := erase_trailing blanks_semicolon (erase_leading blanks field_type) in
          set_field schema current_object field_name field_type
        | _, _ => schema
        end in
      let current_object :=
        match find_char "}" line with
        | Some _ => EmptyString
        | None => current_object
        end in
      (schema, current_object)
  end.

Definition cfgpp_schema_parse_string (schema : CfgppSchema) (schema_text : string)
  : CfgppResult * CfgppSchema :=
  (CFGPP_SUCCESS, fst (fold_left schema_line (getlines schema_text) (schema, EmptyString))).

(** ** [cfgpp_validate_value] *)

(** The loop over the fields of one object schema; the state is the
    [errors] string and the [matches] flag. *)
Fixpoint validate_fields (schema : CfgppSchema) (map : gmap string CfgppValue)
    (schema_fields : umap string) (errors : string) (matches : bool)
  : string * bool :=
  match schema_fields with
  | [] => (errors, matches)
  | (field_name, field_type) :: rest =>
    match map !! field_name with
    | None =>
      validate_fields schema map rest
        (errors +:+ "Missing required field: " +:+ field_name +:+ "; ") false
    | Some field_value =>
      if validate_type schema field_type field_value then
        validate_fields schema map rest errors matches
      else
        validate_fields schema map rest
          (errors +:+ "Field '" +:+ field_name +:+ "' has wrong type, expected "
                  +:+ field_type +:+ "; ") false
    end
  end.

(** The loop over the object schemas: it leaves at the first schema whose
    fields all matched. *)
Fixpoint validate_schemas (schema : CfgppSchema) (map : gmap string CfgppValue)
    (schemas : umap (umap string)) (errors : string) : string :=
  match schemas with
  | [] => errors
  | (schema_name, schema_fields) :: rest =>
    let '(errors, matches) := validate_fields schema map schema_fields errors true in
    if matches then errors else validate_schemas schema map rest errors
  end.

(** The [errors] string the call builds. *)
Definition validation_errors (schema : CfgppSchema) (value : CfgppValue) : string :=
  match value with
  | VObject map => validate_schemas schema map (object_schemas schema) ""
  | _ => ""
  end.

(** What the call returns: the code, [*error_length], and the text copied
    to [error_buffer] when it fits. *)
Record validation : Type := {
  validation_code : CfgppResult;
  error_length : nat;
  error_buffer : option string
}.

Definition cfgpp_validate_value (schema : CfgppSchema) (value : CfgppValue)
    (buffer_size : nat) : validation :=
  let errors := validation_errors schema value in
  if (buffer_size <? String.length errors + 1)%nat then
    {| validation_code := CFGPP_ERROR_BUFFER_TOO_SMALL;
       error_length := String.length errors; error_buffer := None |}
  else
    {| validation_code :=
         if String.eqb errors "" then CFGPP_SUCCESS else CFGPP_ERROR_INVALID_SYNTAX;
       error_length := String.length errors; error_buffer := Some errors |}.

End Schema.

(** * Lexer *)

Module Lexer.

#[local] Open Scope nat_scope.

(** [Token::Type] and [struct Token] *)
Inductive TokenType : Set :=
| IDENTIFIER | STRING | NUMBER | BOOLEAN | ENUM_KW | NULL_KW
| INCLUDE | ENV_VAR | OPERATOR | NAMESPACE | PUNCTUATION
| WHITESPACE | COMMENT | END_OF_FILE.

Record Token : Type := mkToken {
  type : TokenType;
  value : string;
  line : nat;
  column : nat
}.

(** ** Character classes *)

Definition code (c : ascii) : nat := nat_of_ascii c.

(** [std::isspace] in the C locale. *)
Definition isspace (c : ascii) : bool :=
  (code c =? 32) || ((9 <=? code c) && (code c <=? 13)).

Definition is_newline (c : ascii) : bool := code c =? 10.

(** ECMAScript line terminators that fit a [char]: the ones [.] rejects. *)
Definition is_line_terminator (c : ascii) : bool :=
  (code c =? 10) || (code c =? 13).

(** [\d] *)
Definition is_digit (c : ascii) : bool := (48 <=? code c) && (code c <=? 57).

(** The classes of IDENTIFIER: a letter or an underscore first, then
    letters, digits and underscores. *)
Definition is_ident_start (c : ascii) : bool :=
  ((97 <=? code c) && (code c <=? 122)) || ((65 <=? code c) && (code c <=? 90))
  || (code c =? 95).

Definition is_ident_char (c : ascii) : bool := is_ident_start c || is_digit c.

Definition dquote : ascii := "034"%char.

(** The character classes of OPERATOR and of PUNCTUATION. *)
Definition is_operator (c : ascii) : bool :=
  existsb (Ascii.eqb c) ["+"; "-"; "*"; "/"]%char.

Definition is_punctuation (c : ascii) : bool :=
  existsb (Ascii.eqb c) ["{"; "}"; "("; ")"; "["; "]"; ","; ";"; "="; "."]%char.

(** ** The twelve patterns

    Each matcher answers what [std::regex_search] answers under
    [match_continuous] for its pattern: the length of the match that
    starts at the head of [s], if there is one.  The patterns are
    ECMAScript ones, so a quantifier is greedy unless marked lazy and [.]
    rejects line terminators. *)

(** Length of the longest prefix whose characters satisfy [p]. *)
Fixpoint span (p : ascii -> bool) (s : list ascii) : nat :=
  match s with
  | c :: rest => if p c then S (span p rest) else 0
  | [] => 0
  end.

(** A fixed word at the head of [s]. *)
Fixpoint literal (word : list ascii) (s : list ascii) : bool :=
  match word, s with
  | [], _ => true
  | w :: word', c :: rest => Ascii.eqb w c && literal word' rest
  | _ :: _, [] => false
  end.

Definition match_literal (word : string) (s : list ascii) : option nat :=
  if literal (list_ascii_of_string word) s then Some (String.length word) else None.

Section Patterns.

(** Whether [$] also matches before a line terminator.  The C++ standard
    gives [$] that meaning only under [std::regex::multiline]; some
    standard libraries give it always.  The lexer is modelled for both. *)
Variable multiline : bool.

(** COMMENT: two slashes, a lazy run of [.], then [$]. *)
Definition match_comment (s : list ascii) : option nat :=
  match s with
  | "/"%char :: "/"%char :: rest =>
    let n := span (fun c => negb (is_line_terminator c)) rest in
    if multiline then Some (2 + n)
    else if n =? List.length rest then Some (2 + n) else None
  | _ => None
  end.

(** INCLUDE: an at sign and one of the words include and import. *)
Definition match_include (s : list ascii) : option nat :=
  match match_literal "@include" s with
  | Some n => Some n
  | None => match_literal "@import" s
  end.

(** ENV_VAR: a dollar sign and an opening brace, an identifier, optionally
    a colon, a dash and any run of characters other than a closing brace,
    then a closing brace. *)
Definition match_env_var (s : list ascii) : option nat :=
  match s with
  | "$"%char :: "{"%char :: c :: rest =>
    if is_ident_start c then
      let n := span is_ident_char rest in
      let after := skipn n rest in
      let d :=
        match after with
        | ":"%char :: "-"%char :: dflt => 2 + span (fun c => negb (Ascii.eqb c "}")) dflt
        | _ => 0
        end in
      match skipn d after with
      | "}"%char :: _ => Some (3 + n + d + 1)
      | _ => None
      end
    else None
  | _ => None
  end.

(** STRING: a double quote, any run of units that are either a backslash
    followed by one character that [.] accepts or one character other than
    a double quote and a backslash, then a double quote.  [string_body] is
    the part after the opening quote, up to and including the closing
    one. *)
Fixpoint string_body (s : list ascii) : option nat :=
  match s with
  | [] => None
  | c :: rest =>
    if Ascii.eqb c dquote then Some 1
    else if Ascii.eqb c "\" then
      match rest with
      | d :: rest' =>
        if is_line_terminator d then None else (fun n => 2 + n) <$> string_body rest'
      | [] => None
      end
    else S <$> string_body rest
  end.

Definition match_string (s : list ascii) : option nat :=
  match s with
  | c :: rest => if Ascii.eqb c dquote then S <$> string_body rest else None
  | [] => None
  end.

(** The optional groups of NUMBER: a dot and digits; one of e and E, an
    optional sign and digits.  Each yields 0 when it does not match. *)
Definition fraction_part (s : list ascii) : nat :=
  match s with
  | "."%char :: rest =>
    let k := span is_digit rest in
    if k =? 0 then 0 else 1 + k
  | _ => 0
  end.

Definition exponent_part (s : list ascii) : nat :=
  match s with
  | c :: rest =>
    if Ascii.eqb c "e" || Ascii.eqb c "E" then
      let sign :=
        match rest with
        | d :: _ => if Ascii.eqb d "+" || Ascii.eqb d "-" then 1 else 0
        | [] => 0
        end in
      let k := span is_digit (skipn sign rest) in
      if k =? 0 then 0 else 1 + sign + k
    else 0
  | [] => 0
  end.

(** NUMBER: digits, then the optional fraction, then the optional
    exponent. *)
Definition match_number (s : list ascii) : option nat :=
  let n1 := span is_digit s in
  if n1 =? 0 then None
  else
    let n2 := fraction_part (skipn n1 s) in
    let n3 := exponent_part (skipn (n1 + n2) s) in
    Some (n1 + n2 + n3).

(** BOOLEAN (true or false), ENUM and NULL: fixed words. *)
Definition match_boolean (s : list ascii) : option nat :=
  match match_literal "true" s with
  | Some n => Some n
  | None => match_literal "false" s
  end.

Definition match_enum (s : list ascii) : option nat := match_literal "enum" s.
Definition match_null (s : list ascii) : option nat := match_literal "null" s.

(** OPERATOR, NAMESPACE (two colons), IDENTIFIER, PUNCTUATION *)
Definition match_operator (s : list ascii) : option nat :=
  match s with
  | c :: _ => if is_operator c then Some 1 else None
  | [] => None
  end.

Definition match_namespace (s : list ascii) : option nat := match_literal "::" s.

Definition match_identifier (s : list ascii) : option nat :=
  match s with
  | c :: rest => if is_ident_start c then Some (S (span is_ident_char rest)) else None
  | [] => None
  end.

Definition match_punctuation (s : list ascii) : option nat :=
  match s with
  | c :: _ => if is_punctuation c then Some 1 else None
  | [] => None
  end.

(** [patterns] and [token_types], in their order. *)
Definition patterns : list ((list ascii -> option nat) * TokenType) :=
  [ (match_comment, COMMENT); (match_include, INCLUDE); (match_env_var, ENV_VAR);
    (match_string, STRING); (match_number, NUMBER); (match_boolean, BOOLEAN);
    (match_enum, ENUM_KW); (match_null, NULL_KW); (match_operator, OPERATOR);
    (match_namespace, NAMESPACE); (match_identifier, IDENTIFIER);
    (match_punctuation, PUNCTUATION) ].

(** The [for] loop over the patterns: the first one that matches. *)
Fixpoint first_match (ps : list ((list ascii -> option nat) * TokenType))
    (s : list ascii) : option (TokenType * nat) :=
  match ps with
  | [] => None
  | (pattern, token_type) :: later =>
    match pattern s with
    | Some n => Some (token_type, n)
    | None => first_match later s
    end
  end.

(** ** [CfgppParser::tokenize] *)

(** What [tokenize] leaves: the returned vector, or, with an empty vector
    returned, the parser's [last_error], [last_error_line] and
    [last_error_column].  [OutOfFuel] is the model's own; [tokenize] never
    yields it ([tokenize_total]). *)
Inductive lexed : Type :=
| Lexed (result : list Token)
| LexError (last_error : string) (last_error_line last_error_column : nat)
| OutOfFuel.

(** The vector [tokenize] returns. *)
Definition returned_tokens (r : lexed) : list Token :=
  match r with
  | Lexed result => result
  | _ => []
  end.

(** The inner whitespace loop: the text left, [line] and [column]. *)
Fixpoint skip_whitespace (s : list ascii) (line column : nat)
  : list ascii * nat * nat :=
  match s with
  | c :: rest =>
    if isspace c then
      if is_newline c then skip_whitespace rest (S line) 1
      else skip_whitespace rest line (S column)
    else (s, line, column)
  | [] => ([], line, column)
  end.

(** The outer loop; [s] is the text from [pos] on. *)
Fixpoint scan (fuel : nat) (s : list ascii) (line column : nat)
    (result : list Token) : lexed :=
  let '(s, line, column) := skip_whitespace s line column in
  match s with
  | [] => Lexed (result ++ [mkToken END_OF_FILE "" line column])
  | c :: _ =>
    match first_match patterns s with
    | Some (token_type, n) =>
      let result :=
        match token_type with
        | COMMENT => result
        | _ => result ++ [mkToken token_type (string_of_list_ascii (firstn n s)) line column]
        end in
      match fuel with
      | S fuel => scan fuel (skipn n s) line (column + n) result
      | O => OutOfFuel
      end
    | None =>
      LexError ("Unexpected character: " +:+ String c EmptyString) line column
    end
  end.

Definition tokenize (text : string) : lexed :=
  scan (String.length text) (list_ascii_of_string text) 1 1 [].

End Patterns.

End Lexer.

(** * Parser *)

Module Parser.

Import StdString Lexer.

#[local] Open Scope nat_scope.

(** ** Numeric conversions *)

Fixpoint decimal_value (acc : Z) (digits : list ascii) : Z :=
  match digits with
  | [] => acc
  | d :: rest => decimal_value (10 * acc + Z.of_nat (code d - 48)) rest
  end.

(** [std::stoll(s)]: leading white space, an optional sign, then decimal
    digits; what follows the digits is ignored.  [None] stands for the
    exception it throws: [std::invalid_argument] without a digit,
    [std::out_of_range] outside [long long]. *)
Definition stoll (s : string) : option Z :=
  let s := list_ascii_of_string s in
  let s := skipn (span isspace s) s in
  let '(negative, s) :=
    match s with
    | c :: rest =>
      if Ascii.eqb c "-" then (true, rest)
      else if Ascii.eqb c "+" then (false, rest) else (false, s)
    | [] => (false, s)
    end in
  let digits := firstn (span is_digit s) s in
  match digits with
  | [] => None
  | _ =>
    let magnitude := decimal_value 0 digits in
    let v := if negative then (- magnitude)%Z else magnitude in
    if ((- 2 ^ 63 <=? v) && (v <=? 2 ^ 63 - 1))%Z then Some v else None
  end.

(** [token.value.substr(1, token.value.length() - 2)]: [substr] throws
    [std::out_of_range] on an empty string, and on a one-character string
    the count wraps around and reaches the end of the string. *)
Definition strip_quotes (v : string) : option string :=
  if String.length v =? 0 then None
  else if String.length v <? 2 then Some (substr v 1 None)
  else Some (substr v 1 (Some (String.length v - 2))).

Definition has_char (c : ascii) (s : string) : bool :=
  match find_char c s with
  | Some _ => true
  | None => false
  end.

(** The test of the NUMBER case: a dot, an e or an E in the text. *)
Definition is_double_literal (v : string) : bool :=
  has_char "." v || has_char "e" v || has_char "E" v.

(** ** The recursive descent

    What a parsing function leaves: the value with [current_token_pos]
    after it, or [nullptr] with the [last_error] it set (if it set one), or
    an exception on its way to the caller.  [NoFuel] is the model's own;
    [cfgpp_parse_string] never meets it ([cfgpp_parse_string_total]). *)
Inductive parsed : Type :=
| Value (v : CfgppValue) (current_token_pos : nat)
| Nullptr (last_error : option string)
| Thrown
| NoFuel.

Section Descent.

(** Whether [std::stod] throws on a text: [std::invalid_argument] when no
    number starts it, [std::out_of_range] on overflow and, where the C
    library reports it, on underflow. *)
Variable stod_throws : string -> bool.

Variable tokens : list Token.

(** [pos < tokens.size() && tokens[pos].value == text] *)
Definition value_at (pos : nat) (text : string) : bool :=
  match nth_error tokens pos with
  | Some token => String.eqb (value token) text
  | None => false
  end.

(** [parse_object], given the loop over its fields. *)
Definition parse_object_with (fields : nat -> gmap string CfgppValue -> parsed)
    (current_token_pos : nat) : parsed :=
  (* skip optional object name *)
  let current_token_pos :=
    match nth_error tokens current_token_pos with
    | Some {| type := IDENTIFIER |} => S current_token_pos
    | _ => current_token_pos
    end in
  if value_at current_token_pos "{" then fields (S current_token_pos) ∅
  else Nullptr (Some "Expected '{'").

(** [parse_array], given the loop over its elements. *)
Definition parse_array_with (elements : nat -> list CfgppValue -> parsed)
    (current_token_pos : nat) : parsed :=
  if value_at current_token_pos "[" then elements (S current_token_pos) []
  else Nullptr (Some "Expected '['").

Fixpoint parse_value (fuel : nat) (current_token_pos : nat) : parsed :=
  match fuel with
  | O => NoFuel
  | S fuel =>
    match nth_error tokens current_token_pos with
    | None => Nullptr None
    | Some token =>
      match type token with
      | STRING =>
        match strip_quotes (value token) with
        | Some str => Value (VString str) (S current_token_pos)
        | None => Thrown
        end
      | NUMBER =>
        if is_double_literal (value token) then
          if stod_throws (value token) then Thrown
          else Value (VDouble (D_stod (value token))) (S current_token_pos)
        else
          match stoll (value token) with
          | Some i => Value (VInteger i) (S current_token_pos)
          | None => Thrown
          end
      | BOOLEAN =>
        Value (VBoolean (String.eqb (value token) "true")) (S current_token_pos)
      | NULL_KW => Value VNull (S current_token_pos)
      | PUNCTUATION =>
        if String.eqb (value token) "{" then
          parse_object_with (object_fields fuel) current_token_pos
        else if String.eqb (value token) "[" then
          parse_array_with (array_elements fuel) current_token_pos
        else Nullptr None
      | IDENTIFIER =>
        (* could be object name or enum reference *)
        if value_at (S current_token_pos) "{" then
          parse_object_with (object_fields fuel) current_token_pos
        else Value (VEnum (value token)) (S current_token_pos)
      | _ => Nullptr None
      end
    end
  end

(** The [while] loop of [parse_object] and what follows it. *)
with object_fields (fuel : nat) (current_token_pos : nat)
    (map : gmap string CfgppValue) : parsed :=
  match fuel with
  | O => NoFuel
  | S fuel =>
    match nth_error tokens current_token_pos with
    | None => Nullptr (Some "Expected '}'")
    | Some token =>
      if String.eqb (value token) "}" then Value (VObject map) (S current_token_pos)
      else
        match type token with
        | IDENTIFIER =>
          let key := value token in
          if value_at (S current_token_pos) "=" then
            match parse_value fuel (S (S current_token_pos)) with
            | Value v current_token_pos =>
              let map := <[key := v]> map in
              (* optional semicolon *)
              let current_token_pos :=
                if value_at current_token_pos ";" then S current_token_pos
                else current_token_pos in
              object_fields fuel current_token_pos map
            | failure => failure
            end
          else Nullptr (Some "Expected '=' after object key")
        | _ => Nullptr (Some "Expected identifier for object key")
        end
    end
  end

(** The [while] loop of [parse_array] and what follows it. *)
with array_elements (fuel : nat) (current_token_pos : nat)
    (vec : list CfgppValue) : parsed :=
  match fuel with
  | O => NoFuel
  | S fuel =>
    match nth_error tokens current_token_pos with
    | None => Nullptr (Some "Expected ']'")
    | Some token =>
      if String.eqb (value token) "]" then Value (VArray vec) (S current_token_pos)
      else
        match parse_value fuel current_token_pos with
        | Value v current_token_pos =>
          let vec := vec ++ [v] in
          (* handle comma separator *)
          let current_token_pos :=
            if value_at current_token_pos "," then S current_token_pos
            else current_token_pos in
          array_elements fuel current_token_pos vec
        | failure => failure
        end
    end
  end.

Definition parse_object (fuel : nat) (current_token_pos : nat) : parsed :=
  parse_object_with (object_fields fuel) current_token_pos.

Definition parse_array (fuel : nat) (current_token_pos : nat) : parsed :=
  parse_array_with (array_elements fuel) current_token_pos.

End Descent.

(** Fuel that [parse_value] cannot use up from the first token. *)
Definition enough_fuel (tokens : list Token) : nat := 2 * List.length tokens + 1.

(** ** [cfgpp_parse_string]

    The parser handle and the pointers are taken to be non-null.  [None]
    stands for a model run that used up its fuel; there is none
    ([cfgpp_parse_string_total]).  A [catch (...)] turns any exception into
    CFGPP_ERROR_MEMORY_ERROR.  The exceptions that are followed here are
    those of [std::stoll], [std::stod] and [substr]; allocations are taken
    to succeed, and each [std::regex_search] of the lexer is taken to
    return, which a long lexeme may keep it from doing. *)
Definition cfgpp_parse_string (multiline : bool) (stod_throws : string -> bool)
    (config_text : string) : option api_return :=
  match tokenize multiline config_text with
  | OutOfFuel => None
  | lexed =>
    let tokens := returned_tokens lexed in
    match tokens with
    | [] => Some (Api CFGPP_ERROR_INVALID_SYNTAX None)
    | _ =>
      match parse_value stod_throws tokens (enough_fuel tokens) 0 with
      | Value v _ => Some (Api CFGPP_SUCCESS (Some v))
      | Nullptr _ => Some (Api CFGPP_ERROR_INVALID_SYNTAX None)
      | Thrown => Some (Api CFGPP_ERROR_MEMORY_ERROR None)
      | NoFuel => None
      end
    end
  end.

End Parser.

(** * Value access *)

Module Access.

(** [cfgpp_value_get_type]; the handles are taken to be non-null. *)
Definition cfgpp_value_get_type (value : CfgppValue) : CfgppResult * option CfgppValueType :=
  (CFGPP_SUCCESS, Some (value_type value)).

(** What [strcpy_s] copies from [c_str()]: the characters before the first
    NUL character. *)
Fixpoint c_str (s : string) : string :=
  match s with
  | EmptyString => EmptyString
  | String c rest => if Ascii.eqb c "000" then EmptyString else String c (c_str rest)
  end.

(** What [cfgpp_value_get_string] leaves: the code, [*actual_length] when
    it was stored, and the text copied to [buffer] when one was. *)
Record string_access : Type := {
  access_code : CfgppResult;
  actual_length : option nat;
  buffer : option string
}.

Definition cfgpp_value_get_string (value : CfgppValue) (buffer_size : nat)
  : string_access :=
  match value with
  | VString str | VEnum str =>
    if (buffer_size <? String.length str + 1)%nat then
      {| access_code := CFGPP_ERROR_BUFFER_TOO_SMALL;
         actual_length := Some (String.length str); buffer := None |}
    else
      {| access_code := CFGPP_SUCCESS;
         actual_length := Some (String.length str); buffer := Some (c_str str) |}
  | _ =>
    {| access_code := CFGPP_ERROR_INVALID_PARAMETER;
       actual_length := None; buffer := None |}
  end.

Definition cfgpp_value_get_integer (value : CfgppValue) : CfgppResult * option Z :=
  match value with
  | VInteger i => (CFGPP_SUCCESS, Some i)
  | _ => (CFGPP_ERROR_INVALID_PARAMETER, None)
  end.

Definition cfgpp_value_get_double (value : CfgppValue) : CfgppResult * option cdouble :=
  match value with
  | VDouble d => (CFGPP_SUCCESS, Some d)
  | _ => (CFGPP_ERROR_INVALID_PARAMETER, None)
  end.

(** The result is an [int]: 1 for true, 0 for false. *)
Definition cfgpp_value_get_boolean (value : CfgppValue) : CfgppResult * option Z :=
  match value with
  | VBoolean b => (CFGPP_SUCCESS, Some (if b then 1 else 0))
  | _ => (CFGPP_ERROR_INVALID_PARAMETER, None)
  end.

End Access.

(** * Schema generation and validated conversion *)

Module SchemaGen.

Import LabView Schema.

(** The [switch] of [cfgpp_generate_schema_from_cluster], read in the
    order of its labels. *)
Definition cfgpp_type (type_code : Z) : string :=
  if type_code =? LABVIEW_TYPE_BOOLEAN then "boolean"
  else if (type_code =? LABVIEW_TYPE_I8) || (type_code =? LABVIEW_TYPE_I16)
          || (type_code =? LABVIEW_TYPE_I32) || (type_code =? LABVIEW_TYPE_I64)
          || (type_code =? LABVIEW_TYPE_U8) || (type_code =? LABVIEW_TYPE_U16)
          || (type_code =? LABVIEW_TYPE_U32) || (type_code =? LABVIEW_TYPE_U64)
  then "integer"
  else if (type_code =? LABVIEW_TYPE_SGL) || (type_code =? LABVIEW_TYPE_DBL) then "double"
  else if type_code =? LABVIEW_TYPE_STRING then "string"
  else "unknown".

(** The [for] loop: the field names with the type names, in the order of
    the lines written to the stream. *)
Fixpoint schema_fields (cluster_data : memory) (data_size : Z)
    (field_names : list string) (offset : Z) : outcome (list (string * string)) :=
  match field_names with
  | [] => Returned []
  | name :: later =>
    if negb (offset <? data_size) then Returned []
    else if size_t (offset + sizeof_LabViewDataHeader) >? data_size then Returned []
    else
      let header := offset in
      let offset := size_t (offset + sizeof_LabViewDataHeader) in
      load! type_code <- header_type_code cluster_data header;
      load! header_size <- header_data_size cluster_data header;
      match schema_fields cluster_data data_size later (size_t (offset + header_size)) with
      | OutOfBounds => OutOfBounds
      | Returned lines => Returned ((name, cfgpp_type type_code) :: lines)
      end
  end.

Definition newline : string := String "010" EmptyString.

Definition field_line (field : string * string) : string :=
  "    " +:+ fst field +:+ ": " +:+ snd field +:+ ";" +:+ newline.

Definition schema_text_of (fields : list (string * string)) : string :=
  "// Auto-generated CFG++ schema from LabVIEW cluster" +:+ newline
  +:+ "ClusterSchema {" +:+ newline
  +:+ List.fold_right (fun field text => field_line field +:+ text)
        ("}" +:+ newline) fields.

(** What the call leaves: the code, [*actual_size] and the text copied to
    [schema_buffer] when it fits. *)
Record generated : Type := {
  generated_code : CfgppResult;
  actual_size : nat;
  schema_buffer : option string
}.

Definition cfgpp_generate_schema_from_cluster (cluster_data : memory) (data_size : Z)
    (field_names : list string) (buffer_size : nat) : outcome generated :=
  match schema_fields cluster_data data_size field_names 0 with
  | OutOfBounds => OutOfBounds
  | Returned fields =>
    let schema_text := schema_text_of fields in
    if (buffer_size <? String.length schema_text + 1)%nat then
      Returned {| generated_code := CFGPP_ERROR_BUFFER_TOO_SMALL;
                  actual_size := String.length schema_text; schema_buffer := None |}
    else
      Returned {| generated_code := CFGPP_SUCCESS;
                  actual_size := String.length schema_text;
                  schema_buffer := Some (Access.c_str schema_text) |}
  end.

Section Validated.

(** [cfgpp_value_serialize_to_file] is declared in the header and defined
    in no source file: it is a parameter here. *)
Variable cfgpp_value_serialize_to_file : CfgppValue -> string -> CfgppResult.

(** [cfgpp_variant_to_file_validated]; the error buffer holds 512
    characters. *)
Definition cfgpp_variant_to_file_validated (variant_data : memory) (data_size : Z)
    (file_path : string) (schema : CfgppSchema) : outcome CfgppResult :=
  match cfgpp_from_labview_variant variant_data data_size with
  | OutOfBounds => OutOfBounds
  | Returned {| api_code := CFGPP_SUCCESS; api_result := Some value |} =>
    match validation_code (cfgpp_validate_value schema value 512) with
    | CFGPP_SUCCESS => Returned (cfgpp_value_serialize_to_file value file_path)
    | result => Returned result
    end
  | Returned {| api_code := result |} => Returned result
  end.

(** [cfgpp_variant_to_file], which does not validate. *)
Definition cfgpp_variant_to_file (variant_data : memory) (data_size : Z)
    (file_path : string) : outcome CfgppResult :=
  match cfgpp_from_labview_variant variant_data data_size with
  | OutOfBounds => OutOfBounds
  | Returned {| api_code := CFGPP_SUCCESS; api_result := Some value |} =>
    Returned (cfgpp_value_serialize_to_file value file_path)
  | Returned {| api_code := result |} => Returned result
  end.

(** [cfgpp_cluster_to_file_validated] *)
Definition cfgpp_cluster_to_file_validated (cluster_data : memory) (data_size : Z)
    (field_names : list string) (file_path : string) (schema : CfgppSchema)
  : outcome CfgppResult :=
  match cfgpp_from_labview_cluster cluster_data data_size field_names with
  | OutOfBounds => OutOfBounds
  | Returned {| api_code := CFGPP_SUCCESS; api_result := Some value |} =>
    match validation_code (cfgpp_validate_value schema value 512) with
    | CFGPP_SUCCESS => Returned (cfgpp_value_serialize_to_file value file_path)
    | result => Returned result
    end
  | Returned {| api_code := result |} => Returned result
  end.

End Validated.

End SchemaGen.

(** * The mock records of the integration example *)

Module MockLabView.

Import LabView.

(** The byte with the value [z] modulo 256. *)
Definition byte_of_Z (z : Z) : byte :=
  match Byte.of_N (Z.to_N (z mod 256)) with
  | Some b => b
  | None => x00
  end.

(** A store of an [n]-byte integer, little-endian. *)
Fixpoint store_le (n : nat) (z : Z) : list byte :=
  match n with
  | O => []
  | S n => byte_of_Z z :: store_le n (z / 256)
  end.

Definition header_bytes (type_code flags data_size dimensions : Z) : list byte :=
  store_le 4 type_code ++ store_le 4 flags ++ store_le 4 data_size
  ++ store_le 4 dimensions.

(** [struct MockLabViewVariant]: the header and [data[256]], zeroed by the
    empty initialiser, with [data] written from its start.  Writing more
    than the array holds is not defined: [None]. *)
Definition mock_variant (type_code data_size : Z) (data : list byte) : option memory :=
  if (List.length data <=? 256)%nat then
    Some (header_bytes type_code 0 data_size 0 ++ data
          ++ repeat x00 (256 - List.length data))
  else None.

Definition bytes_of_string (s : string) : list byte :=
  List.map byte_of_ascii (list_ascii_of_string s).

(** [create_string_variant] *)
Definition create_string_variant (str : string) : option memory :=
  let n := Z.of_nat (String.length str) in
  mock_variant LABVIEW_TYPE_STRING (4 + n) (store_le 4 n ++ bytes_of_string str).

(** [create_integer_variant], of an [int32_t] *)
Definition create_integer_variant (value : Z) : option memory :=
  mock_variant LABVIEW_TYPE_I32 4 (store_le 4 value).

(** [create_boolean_variant] *)
Definition create_boolean_variant (value : bool) : option memory :=
  mock_variant LABVIEW_TYPE_BOOLEAN 1 [if value then x01 else x00].

(** The size that [main] passes with a variant:
    [sizeof(LabViewDataHeader) + header.data_size]. *)
Definition variant_size (data_size : Z) : Z := sizeof_LabViewDataHeader + data_size.

(** [struct MockLabViewCluster] as [main] passes it: the cluster's own
    header, which holds the size of the field records, then the records in
    [data[1024]]. *)
Definition mock_cluster (records : list byte) : option memory :=
  if (List.length records <=? 1024)%nat then
    Some (header_bytes LABVIEW_TYPE_CLUSTER 0 (Z.of_nat (List.length records)) 0
          ++ records ++ repeat x00 (1024 - List.length records))
  else None.

End MockLabView.

(** * Verification *)

(** ** The LabVIEW decoders *)

Module LabViewFacts.

Import LabView.

Lemma le_unsigned_range (bs : list byte) :
  0 <= le_unsigned bs < 256 ^ Z.of_nat (List.length bs).
Proof.
  induction bs as [|b bs IH]; [simpl; lia|].
  change (le_unsigned (b :: bs)) with (Z.of_N (Byte.to_N b) + 256 * le_unsigned bs).
  rewrite length_cons, Nat2Z.inj_succ, Z.pow_succ_r by lia.
  pose proof (Byte.to_N_bounded b) as Hb.
  lia.
Qed.

Lemma load_bytes_length mem off n bs :
  load_bytes mem off n = Some bs -> List.length bs = n.
Proof.
  unfold load_bytes. destruct (off <? 0); [discriminate|].
  destruct (Nat.eqb_spec (List.length (firstn n (skipn (Z.to_nat off) mem))) n);
    [|discriminate].
  intros [= <-]. assumption.
Qed.

(** The [data_size] member is a [uint32_t]. *)
Lemma header_data_size_range mem at_ v :
  header_data_size mem at_ = Some v -> 0 <= v < 2 ^ 32.
Proof.
  unfold header_data_size, load_unsigned.
  destruct (load_bytes mem (at_ + 8) 4) as [bs|] eqn:Hbs; [|discriminate].
  intros [= <-]. apply load_bytes_length in Hbs.
  pose proof (le_unsigned_range bs) as H. rewrite Hbs in H. exact H.
Qed.

(** A buffer shorter than one header is refused before any byte is
    read: the answer does not depend on the memory. *)
Lemma variant_rejects_short_buffer (variant_data : memory) (data_size : Z) :
  data_size < sizeof_LabViewDataHeader ->
  cfgpp_from_labview_variant variant_data data_size
  = Returned (Api CFGPP_ERROR_INVALID_PARAMETER None).
Proof.
  intros H. unfold cfgpp_from_labview_variant.
  destruct (Z.ltb_spec data_size sizeof_LabViewDataHeader); [reflexivity|lia].
Qed.

(** The loop never leaves with an error code of a field. *)
Lemma cluster_never_fails (cluster_data : memory) (data_size : Z)
    (field_names : list string) :
  field_names <> [] ->
  cfgpp_from_labview_cluster cluster_data data_size field_names = OutOfBounds \/
  exists map,
    cfgpp_from_labview_cluster cluster_data data_size field_names
    = Returned (Api CFGPP_SUCCESS (Some (VObject map))).
Proof.
  intros Hne. unfold cfgpp_from_labview_cluster.
  destruct field_names as [|name later]; [congruence|].
  destruct (cluster_fields cluster_data data_size (name :: later) 0 ∅) as [map|].
  - right. exists map. reflexivity.
  - left. reflexivity.
Qed.

(** One turn of the loop on a record whose scalar decode fails. *)
Lemma cluster_fields_skip (cluster_data : memory) (data_size : Z)
    (name : string) (later : list string) (offset : Z)
    (map : gmap string CfgppValue) (header_size : Z) (field : api_return) :
  0 <= offset ->
  offset + sizeof_LabViewDataHeader <= data_size ->
  data_size < 2 ^ 64 ->
  header_data_size cluster_data offset = Some header_size ->
  cfgpp_from_labview_variant (skipn (Z.to_nat offset) cluster_data)
    (header_size + sizeof_LabViewDataHeader) = Returned field ->
  api_code field <> CFGPP_SUCCESS ->
  cluster_fields cluster_data data_size (name :: later) offset map
  = cluster_fields cluster_data data_size later
      (size_t (offset + sizeof_LabViewDataHeader + header_size)) map.
Proof.
  intros H0 Hfit Hsize Hhdr Hvar Hcode.
  pose proof (header_data_size_range _ _ _ Hhdr) as Hrange.
  unfold sizeof_LabViewDataHeader in *.
  assert (Hw : size_t (offset + 16) = offset + 16)
    by (unfold size_t; apply Z.mod_small; lia).
  cbn [cluster_fields]. unfold sizeof_LabViewDataHeader. rewrite Hw.
  destruct (Z.ltb_spec offset data_size) as [_|?]; [|lia]. cbn [negb].
  destruct (Z.gtb_spec (offset + 16) data_size) as [?|_]; [lia|].
  rewrite Hhdr. cbn [loading].
  replace (size_t (offset + 16 - 16)) with offset
    by (unfold size_t; rewrite Z.mod_small; lia).
  replace (size_t (header_size + 16)) with (header_size + 16)
    by (unfold size_t; rewrite Z.mod_small; lia).
  rewrite Hvar.
  destruct field as [code out]; cbn [api_code api_result] in *.
  destruct code; try congruence; reflexivity.
Qed.

(** The first record's type code is unsupported, so its scalar decode
    fails; the cluster decode still reports success, and its Object holds
    the second field only. *)
Lemma cluster_omits_failed_field :
  cfgpp_from_labview_variant array_field 20
  = Returned (Api CFGPP_ERROR_INVALID_PARAMETER None)
  /\ cfgpp_from_labview_cluster (array_field ++ boolean_field) 37 ["rate"; "enabled"]
     = Returned (Api CFGPP_SUCCESS (Some (VObject {[ "enabled" := VBoolean true ]}))).
Proof. split; vm_compute; reflexivity. Qed.

(** The same buffer with a supported first record decodes both fields. *)
Example cluster_decodes_both_fields :
  cfgpp_from_labview_cluster (i32_field ++ boolean_field) 37 ["rate"; "enabled"]
  = Returned (Api CFGPP_SUCCESS
      (Some (VObject (<[ "rate" := VInteger 1000 ]> {[ "enabled" := VBoolean true ]})))).
Proof. vm_compute. reflexivity. Qed.

(** C2 (the code departs from it): a buffer shorter than one header is
    refused before any byte is read, as the claim says.  But a buffer of
    exactly one header, whose header declares one payload byte, is not
    refused: the call reads the byte that follows the buffer and reports
    success with a value made from it; where no byte is readable there,
    the read is out of bounds. *)
Theorem variant_reads_past_declared_buffer :
  (forall (variant_data : memory) (data_size : Z),
     data_size < sizeof_LabViewDataHeader ->
     cfgpp_from_labview_variant variant_data data_size
     = Returned (Api CFGPP_ERROR_INVALID_PARAMETER None))
  /\ header_data_size boolean_header 0 = Some 1
  /\ cfgpp_from_labview_variant (boolean_header ++ [x01]%byte) 16
     = Returned (Api CFGPP_SUCCESS (Some (VBoolean true)))
  /\ cfgpp_from_labview_variant (boolean_header ++ [x00]%byte) 16
     = Returned (Api CFGPP_SUCCESS (Some (VBoolean false)))
  /\ cfgpp_from_labview_variant boolean_header 16 = OutOfBounds.
Proof.
  split; [exact variant_rejects_short_buffer|].
  repeat split; vm_compute; reflexivity.
Qed.

End LabViewFacts.

(** ** The schema engine *)

Module SchemaFacts.

Import StdString Schema.

(** *** Sample schemas *)

(** The schema text declaring [Cfg] with one integer field [x]. *)
Definition cfg_text : string :=
  "Cfg {
    x: integer;
}
".

Definition cfg_schema : CfgppSchema :=
  {| type_definitions := ∅; enum_definitions := ∅;
     object_schemas := [("Cfg", [("x", "integer")])]; last_error := "" |}.

(** Two object schemas, in either iteration order. *)
Definition two_schemas (schemas : umap (umap string)) : CfgppSchema :=
  {| type_definitions := ∅; enum_definitions := ∅;
     object_schemas := schemas; last_error := "" |}.

Definition schema_A : string * umap string := ("A", [("x", "integer")]).
Definition schema_B : string * umap string := ("B", [("y", "integer")]).

(** A value fully satisfies an object schema: every declared field is
    present with the declared type. *)
Definition satisfies (schema : CfgppSchema) (map : gmap string CfgppValue)
    (schema_fields : umap string) : bool :=
  forallb
    (fun '(field_name, field_type) =>
       match map !! field_name with
       | Some field_value => validate_type schema field_type field_value
       | None => false
       end)
    schema_fields.

Definition builtin_type_names : list string :=
  ["string"; "integer"; "double"; "boolean"; "array"; "object"].

(** Every enum of the schema has no member. *)
Definition enums_empty (schema : CfgppSchema) : Prop :=
  forall name members, enum_definitions schema !! name = Some members -> members = [].

(** *** Validation *)

(** C5: with the schema that holds only [Cfg] with one field [x] of type
    integer (which is what parsing its text yields), an object whose [x]
    is an Integer validates with no violation, and an object whose [x] is
    a String yields exactly one violation, which names field [x]. *)
Theorem cfg_schema_validation :
  snd (cfgpp_schema_parse_string cfgpp_schema_create cfg_text) = cfg_schema
  /\ (forall i : Z,
        validation_errors cfg_schema (VObject {[ "x" := VInteger i ]}) = ""
        /\ validation_code
             (cfgpp_validate_value cfg_schema (VObject {[ "x" := VInteger i ]}) 512)
           = CFGPP_SUCCESS)
  /\ (forall s : string,
        validation_errors cfg_schema (VObject {[ "x" := VString s ]})
        = "Field 'x' has wrong type, expected integer; "
        /\ validation_code
             (cfgpp_validate_value cfg_schema (VObject {[ "x" := VString s ]}) 512)
           = CFGPP_ERROR_INVALID_SYNTAX).
Proof.
  split; [vm_compute; reflexivity|].
  split; intros; split; reflexivity.
Qed.

(** C3 (the code departs from it): with the object schemas [A] (field [x]:
    integer) and [B] (field [y]: integer), the object with [y] = 5 fully
    satisfies [B] and the object with [x] = 5 fully satisfies [A]; yet
    whichever schema the iteration visits first, one of the two objects is
    reported with a violation of the schema it does not satisfy. *)
Theorem satisfied_schema_still_reports_violations :
  (satisfies (two_schemas [schema_A; schema_B]) {[ "y" := VInteger 5 ]} (snd schema_B) = true
   /\ validation_errors (two_schemas [schema_A; schema_B]) (VObject {[ "y" := VInteger 5 ]})
      = "Missing required field: x; "
   /\ validation_code
        (cfgpp_validate_value (two_schemas [schema_A; schema_B])
           (VObject {[ "y" := VInteger 5 ]}) 512)
      = CFGPP_ERROR_INVALID_SYNTAX)
  /\
  (satisfies (two_schemas [schema_B; schema_A]) {[ "x" := VInteger 5 ]} (snd schema_A) = true
   /\ validation_errors (two_schemas [schema_B; schema_A]) (VObject {[ "x" := VInteger 5 ]})
      = "Missing required field: y; "
   /\ validation_code
        (cfgpp_validate_value (two_schemas [schema_B; schema_A])
           (VObject {[ "x" := VInteger 5 ]}) 512)
      = CFGPP_ERROR_INVALID_SYNTAX).
Proof. repeat split; vm_compute; reflexivity. Qed.

(** When the satisfied schema is the first one visited, no violation is
    reported. *)
Lemma first_schema_satisfied (schema : CfgppSchema) (map : gmap string CfgppValue)
    (schema_name : string) (schema_fields : umap string) (later : umap (umap string)) :
  object_schemas schema = (schema_name, schema_fields) :: later ->
  satisfies schema map schema_fields = true ->
  validation_errors schema (VObject map) = "".
Proof.
  intros Hfirst Hsat. unfold validation_errors. rewrite Hfirst.
  cbn [validate_schemas]. clear Hfirst.
  assert (H : forall errors matches,
             validate_fields schema map schema_fields errors matches = (errors, matches)).
  { revert Hsat. induction schema_fields as [|[field_name field_type] rest IH];
      intros Hsat errors matches; [reflexivity|].
    cbn [satisfies forallb] in Hsat. apply andb_prop in Hsat as [Hfield Hrest].
    cbn [validate_fields].
    destruct (map !! field_name) as [field_value|]; [|discriminate].
    rewrite Hfield. apply IH, Hrest. }
  rewrite H. reflexivity.
Qed.

(** *** Enum declarations *)

Lemma set_field_enums schema object field_name field_type :
  enum_definitions (set_field schema object field_name field_type)
  = enum_definitions schema.
Proof. reflexivity. Qed.

(** What one line does to the enum table. *)
Lemma schema_line_enums (st : CfgppSchema * string) (line : string) :
  enum_definitions (fst (schema_line st line)) = enum_definitions (fst st)
  \/ exists name,
       enum_declaration (trim line) = Some name
       /\ enum_definitions (fst (schema_line st line))
          = <[name := []]> (enum_definitions (fst st)).
Proof.
  destruct st as [schema current_object]. unfold schema_line.
  destruct (trim line) as [|c0 tail] eqn:Hline; [left; reflexivity|].
  destruct (Ascii.eqb c0 "/" || Ascii.eqb c0 "#"); [left; reflexivity|].
  cbn [fst].
  destruct (enum_declaration (String c0 tail)) as [enum_name|] eqn:Henum.
  - right. exists enum_name. split; [reflexivity|].
    repeat match goal with
           | |- context [match ?x with _ => _ end] => destruct x
           end; reflexivity.
  - left.
    repeat match goal with
           | |- context [match ?x with _ => _ end] => destruct x
           end; reflexivity.
Qed.

Lemma schema_line_enums_empty (st : CfgppSchema * string) (line : string) :
  enums_empty (fst st) -> enums_empty (fst (schema_line st line)).
Proof.
  intros Hinv name members.
  destruct (schema_line_enums st line) as [-> | (declared & _ & ->)].
  - apply Hinv.
  - destruct (decide (declared = name)) as [->|Hne].
    + rewrite lookup_insert_eq. congruence.
    + rewrite lookup_insert_ne by assumption. apply Hinv.
Qed.

(** A declared name stays in the table, with no member. *)
Lemma schema_lines_keep (lines : list string) (st : CfgppSchema * string) (name : string) :
  enums_empty (fst st) ->
  enum_definitions (fst st) !! name = Some [] ->
  enum_definitions (fst (fold_left schema_line lines st)) !! name = Some [].
Proof.
  revert st. induction lines as [|line lines IH]; intros st Hinv Hname; [exact Hname|].
  cbn [fold_left]. apply IH; [apply schema_line_enums_empty, Hinv|].
  destruct (schema_line_enums st line) as [-> | (declared & _ & ->)]; [exact Hname|].
  destruct (decide (declared = name)) as [->|Hne].
  - apply lookup_insert_eq.
  - rewrite lookup_insert_ne by assumption. exact Hname.
Qed.

Lemma schema_lines_enums_empty (lines : list string) (st : CfgppSchema * string) :
  enums_empty (fst st) -> enums_empty (fst (fold_left schema_line lines st)).
Proof.
  revert st. induction lines as [|line lines IH]; intros st Hinv; [exact Hinv|].
  cbn [fold_left]. apply IH, schema_line_enums_empty, Hinv.
Qed.

(** An enum line is not a blank line nor a comment line. *)
Lemma enum_declaration_head (line name : string) :
  enum_declaration line = Some name -> exists tail, line = String "e" tail.
Proof.
  unfold enum_declaration, find.
  destruct (String.index 0 "enum " line) as [[|n]|] eqn:Hidx; try discriminate.
  intros _. apply String.index_correct1 in Hidx.
  destruct line as [|c tail]; [discriminate|].
  cbn in Hidx. injection Hidx as -> _. eexists; reflexivity.
Qed.

Lemma schema_line_records (st : CfgppSchema * string) (line name : string) :
  enum_declaration (trim line) = Some name ->
  enum_definitions (fst (schema_line st line)) !! name = Some [].
Proof.
  intros Hdecl. destruct st as [schema current_object]. unfold schema_line.
  destruct (enum_declaration_head _ _ Hdecl) as [tail Hline].
  rewrite Hline in *. cbn [Ascii.eqb Bool.eqb orb]. rewrite Hdecl. cbn [fst].
  repeat match goal with
         | |- context [match ?x with _ => _ end] => destruct x
         end; cbn; apply lookup_insert_eq.
Qed.

Lemma schema_lines_record (lines : list string) (st : CfgppSchema * string)
    (line name : string) :
  enums_empty (fst st) ->
  In line lines ->
  enum_declaration (trim line) = Some name ->
  enum_definitions (fst (fold_left schema_line lines st)) !! name = Some [].
Proof.
  revert st. induction lines as [|l lines IH]; intros st Hinv Hin Hdecl; [destruct Hin|].
  cbn [fold_left]. destruct Hin as [->|Hin].
  - apply schema_lines_keep; [apply schema_line_enums_empty, Hinv|].
    apply schema_line_records, Hdecl.
  - apply IH; [apply schema_line_enums_empty, Hinv|assumption..].
Qed.

Lemma validate_type_empty_enum (schema : CfgppSchema) (name : string) (v : CfgppValue) :
  ~ In name builtin_type_names ->
  enum_definitions schema !! name = Some [] ->
  validate_type schema name v = false.
Proof.
  intros Hname Henum. unfold validate_type.
  repeat match goal with
         | |- context [String.eqb name ?b] =>
           destruct (String.eqb_spec name b) as [->|_];
             [exfalso; apply Hname; cbn; tauto|]
         end.
  rewrite Henum. destruct v; reflexivity.
Qed.

(** C4 (as amended): whatever schema text cfgpp_schema_parse_string reads
    into a schema whose enums have no member, every enum of the result has
    no member; an enum that a line of the text declares is recorded with
    no member; and if its name is none of the six built-in type names,
    validate_type against it is false for every value, Enum values
    included. *)
Theorem declared_enum_never_validates (schema0 : CfgppSchema) (schema_text : string)
    (line name : string) (v : CfgppValue) :
  enums_empty schema0 ->
  In line (getlines schema_text) ->
  enum_declaration (trim line) = Some name ->
  ~ In name builtin_type_names ->
  fst (cfgpp_schema_parse_string schema0 schema_text) = CFGPP_SUCCESS
  /\ enums_empty (snd (cfgpp_schema_parse_string schema0 schema_text))
  /\ enum_definitions (snd (cfgpp_schema_parse_string schema0 schema_text)) !! name = Some []
  /\ validate_type (snd (cfgpp_schema_parse_string schema0 schema_text)) name v = false.
Proof.
  intros Hinv Hin Hdecl Hname. cbn [cfgpp_schema_parse_string fst snd].
  assert (Hrec : enum_definitions
                   (fst (fold_left schema_line (getlines schema_text) (schema0, EmptyString)))
                 !! name = Some [])
    by (eapply schema_lines_record; eassumption).
  split; [reflexivity|]. split; [apply schema_lines_enums_empty, Hinv|].
  split; [exact Hrec|]. apply validate_type_empty_enum; assumption.
Qed.

(** Two schema texts that declare an enum. *)
Definition color_text : string := "enum Color { RED, GREEN }".
Definition integer_enum_text : string := "enum integer { A, B }".

Lemma declared_enum_never_validates_witness :
  validate_type (snd (cfgpp_schema_parse_string cfgpp_schema_create color_text))
    "Color" (VEnum "RED") = false.
Proof.
  refine (proj2 (proj2 (proj2
    (declared_enum_never_validates cfgpp_schema_create color_text color_text "Color"
       (VEnum "RED") _ _ _ _)))).
  - intros name members H. unfold cfgpp_schema_create, enum_definitions in H.
    rewrite lookup_empty in H. discriminate.
  - left. reflexivity.
  - reflexivity.
  - cbn. intros H. repeat destruct H as [H|H]; try discriminate. exact H.
Defined.

(** An enum may be declared under a built-in type name: it is recorded
    with no member, and validate_type against its name accepts a value of
    the built-in type. *)
Lemma enum_with_builtin_name_validates :
  enum_declaration (trim integer_enum_text) = Some "integer"
  /\ enum_definitions (snd (cfgpp_schema_parse_string cfgpp_schema_create integer_enum_text))
     !! "integer" = Some []
  /\ validate_type (snd (cfgpp_schema_parse_string cfgpp_schema_create integer_enum_text))
       "integer" (VInteger 5) = true.
Proof. repeat split; vm_compute; reflexivity. Qed.

End SchemaFacts.

(** ** The lexer *)

Module LexerFacts.

Import Lexer.

#[local] Open Scope nat_scope.

(** *** Lengths of matches *)

Lemma span_le (p : ascii -> bool) (s : list ascii) : span p s <= List.length s.
Proof. induction s as [|c s IH]; cbn; [lia|]. destruct (p c); cbn; lia. Qed.

Lemma literal_length (word s : list ascii) :
  literal word s = true -> List.length word <= List.length s.
Proof.
  revert s. induction word as [|w word IH]; intros [|c s] H; cbn in *;
    try lia; try discriminate.
  apply andb_prop in H as [_ H]. apply IH in H. lia.
Qed.

Lemma string_length_list (s : string) :
  List.length (list_ascii_of_string s) = String.length s.
Proof. induction s as [|c s IH]; cbn; [reflexivity|]. now rewrite IH. Qed.

Lemma list_length_string (l : list ascii) :
  String.length (string_of_list_ascii l) = List.length l.
Proof. induction l as [|c l IH]; cbn; [reflexivity|]. now rewrite IH. Qed.

(** A match is a non-empty prefix of the text it is searched in. *)
Definition bounded (pattern : list ascii -> option nat) : Prop :=
  forall s n, pattern s = Some n -> 1 <= n <= List.length s.

Lemma match_literal_bounded (word : string) :
  1 <= String.length word -> bounded (match_literal word).
Proof.
  intros Hword s n. unfold match_literal.
  destruct (literal (list_ascii_of_string word) s) eqn:Hlit; [|discriminate].
  intros [= <-]. apply literal_length in Hlit. rewrite string_length_list in Hlit. lia.
Qed.

Lemma match_comment_bounded m : bounded (match_comment m).
Proof.
  intros s n. unfold match_comment.
  destruct s as [|c1 [|c2 rest]]; try discriminate;
    try (destruct c1 as [[] [] [] [] [] [] [] []]; discriminate).
  pose proof (span_le (fun c => negb (is_line_terminator c)) rest) as Hle.
  destruct c1 as [[] [] [] [] [] [] [] []]; try discriminate;
    destruct c2 as [[] [] [] [] [] [] [] []]; try discriminate.
  destruct m; [|destruct (_ =? _)]; intros [= <-]; cbn [List.length]; lia.
Qed.

Lemma match_include_bounded : bounded match_include.
Proof.
  intros s n. unfold match_include.
  destruct (match_literal "@include" s) as [k|] eqn:H1.
  - intros [= <-]. eapply match_literal_bounded; [|exact H1]. cbn; lia.
  - apply match_literal_bounded. cbn; lia.
Qed.

Lemma skipn_cons_length {A} (d : nat) (l : list A) (x : A) (tail : list A) :
  skipn d l = x :: tail -> d + 1 <= List.length l.
Proof.
  intros H. assert (Hlen : List.length (skipn d l) = S (List.length tail))
    by (rewrite H; reflexivity).
  rewrite length_skipn in Hlen. lia.
Qed.

Lemma match_env_var_bounded : bounded match_env_var.
Proof.
  intros s n. unfold match_env_var.
  destruct s as [|c1 [|c2 [|c rest]]]; try discriminate;
    try (destruct c1 as [[] [] [] [] [] [] [] []]; try discriminate;
         destruct c2 as [[] [] [] [] [] [] [] []]; discriminate).
  destruct c1 as [[] [] [] [] [] [] [] []]; try discriminate;
    destruct c2 as [[] [] [] [] [] [] [] []]; try discriminate.
  destruct (is_ident_start c); [|discriminate].
  set (k := span is_ident_char rest).
  set (after := skipn k rest).
  match goal with |- context [skipn ?d after] => set (dd := d) end.
  destruct (skipn dd after) as [|x tail] eqn:Hskip; [discriminate|].
  destruct x as [[] [] [] [] [] [] [] []]; try discriminate.
  intros [= <-]. apply skipn_cons_length in Hskip.
  subst after. rewrite length_skipn in Hskip. cbn [List.length]. lia.
Qed.

Lemma string_body_bounded (s : list ascii) (n : nat) :
  string_body s = Some n -> 1 <= n <= List.length s.
Proof.
  remember (List.length s) as len eqn:Hlen. revert s n Hlen.
  induction len as [len IH] using lt_wf_ind. intros s n ->.
  destruct s as [|c rest]; [discriminate|]. cbn [string_body].
  destruct (Ascii.eqb c dquote); [intros [= <-]; cbn; lia|].
  destruct (Ascii.eqb c "\").
  - destruct rest as [|d rest']; [discriminate|].
    destruct (is_line_terminator d); [discriminate|].
    destruct (string_body rest') as [k|] eqn:Hk; [|discriminate].
    intros [= <-]. cbn [List.length] in *.
    specialize (IH (List.length rest') ltac:(lia) rest' k eq_refl Hk). lia.
  - destruct (string_body rest) as [k|] eqn:Hk; [|discriminate].
    intros [= <-]. cbn [List.length] in *.
    specialize (IH (List.length rest) ltac:(lia) rest k eq_refl Hk). lia.
Qed.

Lemma match_string_bounded : bounded match_string.
Proof.
  intros s n. unfold match_string. destruct s as [|c rest]; [discriminate|].
  destruct (Ascii.eqb c dquote); [|discriminate].
  destruct (string_body rest) as [k|] eqn:Hk; [|discriminate].
  intros [= <-]. apply string_body_bounded in Hk. cbn [List.length]. lia.
Qed.

Lemma fraction_part_le (s : list ascii) : fraction_part s <= List.length s.
Proof.
  unfold fraction_part. destruct s as [|c rest]; [cbn; lia|].
  pose proof (span_le is_digit rest).
  destruct c as [[] [] [] [] [] [] [] []]; cbn [List.length]; try lia;
    destruct (_ =? 0); lia.
Qed.

Lemma exponent_part_le (s : list ascii) : exponent_part s <= List.length s.
Proof.
  unfold exponent_part. destruct s as [|c rest]; [cbn; lia|].
  destruct (Ascii.eqb c "e" || Ascii.eqb c "E"); cbn [List.length]; [|lia].
  destruct rest as [|d rest']; [cbn; lia|].
  match goal with |- context [skipn ?sg (d :: rest')] => set (sign := sg) end.
  pose proof (span_le is_digit (skipn sign (d :: rest'))) as Hle.
  rewrite length_skipn in Hle. cbn [List.length] in *.
  assert (sign <= 1) by (subst sign; destruct (_ || _); lia).
  destruct (_ =? 0); lia.
Qed.

Lemma match_number_bounded : bounded match_number.
Proof.
  intros s n. unfold match_number.
  destruct (Nat.eqb_spec (span is_digit s) 0) as [|Hpos]; [discriminate|].
  intros [= <-].
  pose proof (span_le is_digit s).
  pose proof (fraction_part_le (skipn (span is_digit s) s)) as H2.
  pose proof (exponent_part_le
                (skipn (span is_digit s + fraction_part (skipn (span is_digit s) s)) s)) as H3.
  rewrite length_skipn in H2, H3. lia.
Qed.

Lemma match_boolean_bounded : bounded match_boolean.
Proof.
  intros s n. unfold match_boolean.
  destruct (match_literal "true" s) as [k|] eqn:H1.
  - intros [= <-]. eapply match_literal_bounded; [|exact H1]. cbn; lia.
  - apply match_literal_bounded. cbn; lia.
Qed.

Lemma match_operator_bounded : bounded match_operator.
Proof.
  intros [|c rest] n; unfold match_operator; [discriminate|].
  destruct (is_operator c); [|discriminate]. intros [= <-]. cbn [List.length]. lia.
Qed.

Lemma match_punctuation_bounded : bounded match_punctuation.
Proof.
  intros [|c rest] n; unfold match_punctuation; [discriminate|].
  destruct (is_punctuation c); [|discriminate]. intros [= <-]. cbn [List.length]. lia.
Qed.

Lemma match_identifier_bounded : bounded match_identifier.
Proof.
  intros [|c rest] n; unfold match_identifier; [discriminate|].
  destruct (is_ident_start c); [|discriminate]. intros [= <-].
  pose proof (span_le is_ident_char rest). cbn [List.length]. lia.
Qed.

Lemma first_match_bounded m (s : list ascii) (token_type : TokenType) (n : nat) :
  first_match (patterns m) s = Some (token_type, n) -> 1 <= n <= List.length s.
Proof.
  assert (Hall : Forall (fun p => bounded (fst p)) (patterns m)).
  { unfold patterns. repeat apply List.Forall_cons; try apply List.Forall_nil; cbn [fst].
    - apply match_comment_bounded.
    - apply match_include_bounded.
    - apply match_env_var_bounded.
    - apply match_string_bounded.
    - apply match_number_bounded.
    - apply match_boolean_bounded.
    - apply match_literal_bounded; cbn; lia.
    - apply match_literal_bounded; cbn; lia.
    - apply match_operator_bounded.
    - apply match_literal_bounded; cbn; lia.
    - apply match_identifier_bounded.
    - apply match_punctuation_bounded. }
  induction Hall as [|[pattern ty] later Hp _ IH]; cbn [first_match]; [discriminate|].
  destruct (pattern s) as [k|] eqn:Hk; [|exact IH].
  intros [= _ <-]. apply Hp, Hk.
Qed.

(** *** The scanning loop *)

(** The line and the column reached after the characters of [s], from
    [line] and [column]: a newline starts the next line at column 1, any
    other character moves one column on. *)
Fixpoint position_after (line column : nat) (s : list ascii) : nat * nat :=
  match s with
  | [] => (line, column)
  | c :: rest =>
    if is_newline c then position_after (S line) 1 rest
    else position_after line (S column) rest
  end.

Lemma position_after_app line column (s1 s2 : list ascii) :
  position_after line column (s1 ++ s2)
  = position_after (fst (position_after line column s1))
      (snd (position_after line column s1)) s2.
Proof.
  revert line column. induction s1 as [|c s1 IH]; intros line column; [reflexivity|].
  cbn [app position_after]. destruct (is_newline c); apply IH.
Qed.

Lemma position_after_one_line line column (s : list ascii) :
  Forall (fun c => is_newline c = false) s ->
  position_after line column s = (line, column + List.length s).
Proof.
  intros H. revert column. induction H as [|c s Hc _ IH]; intros column.
  - cbn. f_equal. lia.
  - cbn [position_after List.length]. rewrite Hc, IH. f_equal. lia.
Qed.

(** The whitespace loop drops the leading white space and counts it. *)
Lemma skip_whitespace_spec (s : list ascii) (line column : nat) :
  skip_whitespace s line column
  = (skipn (span isspace s) s,
     fst (position_after line column (firstn (span isspace s) s)),
     snd (position_after line column (firstn (span isspace s) s))).
Proof.
  revert line column. induction s as [|c s IH]; intros line column; [reflexivity|].
  cbn [skip_whitespace span]. destruct (isspace c); [|reflexivity].
  cbn [skipn firstn position_after]. destruct (is_newline c); apply IH.
Qed.

Lemma first_match_nil m : first_match (patterns m) [] = None.
Proof. destruct m; reflexivity. Qed.

(** One turn of the outer loop, for any fuel. *)
Lemma scan_unfold m fuel (s : list ascii) line column result :
  scan m fuel s line column result
  = let '(s, line, column) := skip_whitespace s line column in
    match s with
    | [] => Lexed (result ++ [mkToken END_OF_FILE "" line column])
    | c :: _ =>
      match first_match (patterns m) s with
      | Some (token_type, n) =>
        let result :=
          match token_type with
          | COMMENT => result
          | _ => result ++ [mkToken token_type (string_of_list_ascii (firstn n s)) line column]
          end in
        match fuel with
        | S fuel => scan m fuel (skipn n s) line (column + n) result
        | O => OutOfFuel
        end
      | None =>
        LexError ("Unexpected character: " +:+ String c EmptyString) line column
      end
    end.
Proof. destruct fuel; reflexivity. Qed.

(** The fuel [tokenize] gives is enough. *)
Lemma scan_total m fuel (s : list ascii) line column result :
  List.length s <= fuel -> scan m fuel s line column result <> OutOfFuel.
Proof.
  revert s line column result.
  induction fuel as [|fuel IH]; intros s line column result Hfuel;
    rewrite scan_unfold, skip_whitespace_spec;
    pose proof (span_le isspace s) as Hsp;
    pose proof (length_skipn (span isspace s) s) as Hlen;
    destruct (skipn (span isspace s) s) as [|c tail] eqn:Hs; try discriminate;
    cbn [List.length] in Hlen; try lia.
  destruct (first_match (patterns m) (c :: tail)) as [[token_type n]|] eqn:Hm;
    [|discriminate].
  apply first_match_bounded in Hm. apply IH.
  rewrite length_skipn. cbn [List.length] in *. lia.
Qed.

Lemma tokenize_total m (text : string) : tokenize m text <> OutOfFuel.
Proof. apply scan_total. rewrite string_length_list. lia. Qed.

(** [scanned m s lexemes rest]: from the text [s] at the head of the outer
    loop, the loop matches the [lexemes] one after the other (comments
    included) and stands at its head again with [rest] left. *)
Inductive scanned (m : bool) : list ascii -> list (list ascii) -> list ascii -> Prop :=
| scanned_here (s : list ascii) : scanned m s [] s
| scanned_lexeme (s : list ascii) (token_type : TokenType) (n : nat)
    (lexemes : list (list ascii)) (rest : list ascii) :
    first_match (patterns m) (skipn (span isspace s) s) = Some (token_type, n) ->
    scanned m (skipn n (skipn (span isspace s) s)) lexemes rest ->
    scanned m s (firstn n (skipn (span isspace s) s) :: lexemes) rest.

Definition one_line (lexeme : list ascii) : Prop :=
  Forall (fun c => is_newline c = false) lexeme.

Definition unexpected (c : ascii) : string :=
  "Unexpected character: " +:+ String c EmptyString.

Lemma scan_unexpected m (s : list ascii) (lexemes : list (list ascii))
    (rest : list ascii) (c : ascii) (post : list ascii) :
  scanned m s lexemes rest ->
  skipn (span isspace rest) rest = c :: post ->
  first_match (patterns m) (c :: post) = None ->
  forall fuel line column result,
    List.length s <= fuel ->
    exists line' column',
      scan m fuel s line column result = LexError (unexpected c) line' column'
      /\ (Forall one_line lexemes ->
          exists pre, s = pre ++ c :: post
                      /\ position_after line column pre = (line', column')).
Proof.
  intros Hscanned Hrest Hnone.
  induction Hscanned as [s|s token_type n lexemes rest Hm Hscanned IH];
    intros fuel line column result Hfuel; rewrite scan_unfold, skip_whitespace_spec.
  - rewrite Hrest, Hnone. eexists _, _. split; [reflexivity|].
    intros _. exists (firstn (span isspace s) s). split.
    + rewrite <- Hrest. symmetry. apply firstn_skipn.
    + apply surjective_pairing.
  - pose proof (first_match_bounded _ _ _ _ Hm) as Hn.
    pose proof (length_skipn (span isspace s) s) as Hlen.
    set (s' := skipn (span isspace s) s) in *.
    set (ws := firstn (span isspace s) s).
    destruct s' as [|c' tail] eqn:Hs'; [cbn in Hn; lia|]. rewrite Hm.
    destruct fuel as [|fuel]; [cbn [List.length] in *; lia|].
    cbv beta iota zeta.
    match goal with
    | |- context [scan m fuel ?s1 ?l1 ?c1 ?r1] =>
      destruct (IH Hrest fuel l1 c1 r1) as (line' & column' & Hscan & Hpos)
    end.
    { rewrite length_skipn. cbn [List.length] in *. lia. }
    exists line', column'. split; [exact Hscan|].
    intros Hlines. apply Forall_cons in Hlines as [Hone Hlines].
    destruct (Hpos Hlines) as (pre & Hpre & Hafter).
    exists (ws ++ firstn n (c' :: tail) ++ pre). split.
    + rewrite <- !app_assoc, <- Hpre, firstn_skipn.
      subst ws. rewrite <- Hs'. subst s'. symmetry. apply firstn_skipn.
    + rewrite !position_after_app.
      rewrite (position_after_one_line _ _ (firstn n (c' :: tail))) by exact Hone.
      cbn [fst snd]. rewrite length_firstn, Nat.min_l by lia. exact Hafter.
Qed.

(** *** Unexpected characters *)

(** C9 (as amended): whenever the outer loop, having matched some lexemes,
    stands after the white space at a character at which no pattern
    matches, tokenize returns the empty sequence and records the message
    that names this character, with a line and a column; these are the
    line and the column of the character in the text whenever no lexeme
    matched before it holds a newline. *)
Theorem tokenize_unexpected_character (m : bool) (text : string)
    (lexemes : list (list ascii)) (rest : list ascii) (c : ascii) (post : list ascii) :
  scanned m (list_ascii_of_string text) lexemes rest ->
  skipn (span isspace rest) rest = c :: post ->
  first_match (patterns m) (c :: post) = None ->
  returned_tokens (tokenize m text) = []
  /\ exists line column,
       tokenize m text = LexError (unexpected c) line column
       /\ (Forall one_line lexemes ->
           exists pre,
             list_ascii_of_string text = pre ++ c :: post
             /\ position_after 1 1 pre = (line, column)).
Proof.
  intros Hscanned Hrest Hnone.
  destruct (scan_unexpected m _ _ _ _ _ Hscanned Hrest Hnone
              (String.length text) 1 1 [])
    as (line & column & Hscan & Hpos).
  { rewrite string_length_list. lia. }
  unfold tokenize. rewrite Hscan. split; [reflexivity|].
  exists line, column. split; [reflexivity|exact Hpos].
Qed.

(** Conversely, tokenize fails in no other way. *)
Lemma scan_error_scanned m fuel (s : list ascii) line column result
    (error : string) (line' column' : nat) :
  scan m fuel s line column result = LexError error line' column' ->
  exists lexemes rest c post,
    scanned m s lexemes rest
    /\ skipn (span isspace rest) rest = c :: post
    /\ first_match (patterns m) (c :: post) = None
    /\ error = unexpected c.
Proof.
  revert s line column result.
  induction fuel as [|fuel IH]; intros s line column result;
    rewrite scan_unfold, skip_whitespace_spec;
    destruct (skipn (span isspace s) s) as [|c tail] eqn:Hs; try discriminate;
    destruct (first_match (patterns m) (c :: tail)) as [[token_type n]|] eqn:Hm;
    try discriminate;
    try (intros [= <- _ _]; exists [], s, c, tail;
         repeat split; [apply scanned_here|exact Hs|exact Hm]).
  cbv beta iota zeta. intros H.
  apply IH in H as (lexemes & rest & c' & post & Hscanned & Hrest & Hnone & ->).
  exists (firstn n (skipn (span isspace s) s) :: lexemes), rest, c', post.
  repeat split; try assumption.
  apply (scanned_lexeme m s token_type n); rewrite Hs; assumption.
Qed.

Lemma tokenize_error_is_unexpected_character m (text error : string) (line column : nat) :
  tokenize m text = LexError error line column ->
  exists lexemes rest c post,
    scanned m (list_ascii_of_string text) lexemes rest
    /\ skipn (span isspace rest) rest = c :: post
    /\ first_match (patterns m) (c :: post) = None
    /\ error = unexpected c.
Proof. apply scan_error_scanned. Qed.

(** A stray percent sign on the second line, after four lexemes. *)
Definition stray_percent_text : string :=
  "a = 1;
  % b".

Lemma tokenize_unexpected_character_witness :
  returned_tokens (tokenize false stray_percent_text) = []
  /\ exists line column,
       tokenize false stray_percent_text = LexError (unexpected "%") line column
       /\ (Forall one_line
             [["a"]; ["="]; ["1"]; [";"]]%char ->
           exists pre,
             list_ascii_of_string stray_percent_text = pre ++ ["%"; " "; "b"]%char
             /\ position_after 1 1 pre = (line, column)).
Proof.
  apply (tokenize_unexpected_character false stray_percent_text
           [["a"]; ["="]; ["1"]; [";"]]%char
           (list_ascii_of_string "
  % b") "%"%char [" "; "b"]%char).
  - apply (scanned_lexeme false (list_ascii_of_string stray_percent_text)
             IDENTIFIER 1); [reflexivity|].
    apply (scanned_lexeme false (list_ascii_of_string " = 1;
  % b") PUNCTUATION 1); [reflexivity|].
    apply (scanned_lexeme false (list_ascii_of_string " 1;
  % b") NUMBER 1); [reflexivity|].
    apply (scanned_lexeme false (list_ascii_of_string ";
  % b") PUNCTUATION 1); [reflexivity|].
    apply scanned_here.
  - reflexivity.
  - reflexivity.
Defined.

(** The text of a string literal that holds a percent sign, and the text
    of a two-line string literal followed by a stray percent sign. *)
Definition quoted_percent_text : string :=
  String dquote ("%" +:+ String dquote EmptyString).

Definition two_line_string_text : string :=
  String dquote ("a
b" +:+ String dquote " %").

(** A percent sign starts no token pattern, yet a text that holds one
    inside a string literal is lexed into tokens.  And after a string
    literal that holds a newline, the recorded place of a stray percent
    sign is line 1, column 7, while the sign stands on line 2, column 4. *)
Lemma percent_in_string_is_no_error :
  first_match (patterns false) ["%"; dquote]%char = None
  /\ tokenize false quoted_percent_text
     = Lexed [mkToken STRING quoted_percent_text 1 1; mkToken END_OF_FILE "" 1 4]
  /\ tokenize true quoted_percent_text
     = Lexed [mkToken STRING quoted_percent_text 1 1; mkToken END_OF_FILE "" 1 4]
  /\ tokenize false two_line_string_text = LexError (unexpected "%") 1 7
  /\ tokenize true two_line_string_text = LexError (unexpected "%") 1 7
  /\ position_after 1 1 (list_ascii_of_string (String dquote ("a
b" +:+ String dquote " "))) = (2, 4).
Proof. repeat split; vm_compute; reflexivity. Qed.

(** *** Numeric literals *)

(** The text of a numeric literal: the digits of the integer part, an
    optional fraction (a dot and digits), an optional exponent (the
    marker, an optional sign, digits). *)
Definition fraction_text (fraction : option (list ascii)) : list ascii :=
  match fraction with
  | Some digits => "."%char :: digits
  | None => []
  end.

Definition exponent_text (exponent : option (ascii * option ascii * list ascii))
  : list ascii :=
  match exponent with
  | Some (marker, Some sign, digits) => marker :: sign :: digits
  | Some (marker, None, digits) => marker :: digits
  | None => []
  end.

Definition number_text (integer : list ascii) (fraction : option (list ascii))
    (exponent : option (ascii * option ascii * list ascii)) : list ascii :=
  integer ++ fraction_text fraction ++ exponent_text exponent.

(** A non-empty run of digits. *)
Definition digits (ds : list ascii) : bool :=
  forallb is_digit ds && negb (List.length ds =? 0).

Definition well_formed_number (integer : list ascii) (fraction : option (list ascii))
    (exponent : option (ascii * option ascii * list ascii)) : bool :=
  digits integer
  && match fraction with
     | Some ds => digits ds
     | None => true
     end
  && match exponent with
     | Some (marker, sign, ds) =>
       (Ascii.eqb marker "e" || Ascii.eqb marker "E")
       && match sign with
          | Some sg => Ascii.eqb sg "+" || Ascii.eqb sg "-"
          | None => true
          end
       && digits ds
     | None => true
     end.

Lemma digit_cases (d : ascii) :
  is_digit d = true -> In d ["0"; "1"; "2"; "3"; "4"; "5"; "6"; "7"; "8"; "9"]%char.
Proof.
  destruct d as [[] [] [] [] [] [] [] []]; intros H; try discriminate H;
    cbn; tauto.
Qed.

(** Run [tac] for each of the ten digits that [d] can be. *)
Ltac each_digit d H tac :=
  let Hin := fresh in
  pose proof (digit_cases d H) as Hin; cbn [In] in Hin;
  repeat (destruct Hin as [<-|Hin]; [tac|]); destruct Hin.

Lemma span_app (p : ascii -> bool) (ds tail : list ascii) :
  forallb p ds = true -> span p (ds ++ tail) = List.length ds + span p tail.
Proof.
  induction ds as [|d ds IH]; cbn [forallb app span List.length]; [reflexivity|].
  intros H. apply andb_prop in H as [-> H]. rewrite IH by exact H. reflexivity.
Qed.

Lemma digits_spec (ds : list ascii) :
  digits ds = true ->
  forallb is_digit ds = true /\ exists d tail, ds = d :: tail /\ is_digit d = true.
Proof.
  unfold digits. intros H. apply andb_prop in H as [Hall Hlen]. split; [exact Hall|].
  destruct ds as [|d tail]; [discriminate|]. cbn in Hall.
  apply andb_prop in Hall as [Hd _]. eauto.
Qed.

Lemma skipn_length_app {A} (a b : list A) : skipn (List.length a) (a ++ b) = b.
Proof. induction a as [|x a IH]; [reflexivity|exact IH]. Qed.

Lemma firstn_length_app {A} (a b : list A) : firstn (List.length a) (a ++ b) = a.
Proof. induction a as [|x a IH]; [reflexivity|]. cbn. now rewrite IH. Qed.

Definition fraction_ok (fraction : option (list ascii)) : Prop :=
  match fraction with
  | Some ds => digits ds = true
  | None => True
  end.

Definition exponent_ok (exponent : option (ascii * option ascii * list ascii)) : Prop :=
  match exponent with
  | Some (marker, sign, ds) =>
    (marker = "e" \/ marker = "E")%char
    /\ match sign with
       | Some sg => (sg = "+" \/ sg = "-")%char
       | None => True
       end
    /\ digits ds = true
  | None => True
  end.

Lemma well_formed_number_parts integer fraction exponent :
  well_formed_number integer fraction exponent = true ->
  digits integer = true /\ fraction_ok fraction /\ exponent_ok exponent.
Proof.
  unfold well_formed_number. rewrite !andb_true_iff. intros [[Hi Hf] He].
  split; [exact Hi|]. split.
  - destruct fraction; [exact Hf|exact I].
  - destruct exponent as [[[marker sign] ds]|]; [|exact I].
    rewrite !andb_true_iff, orb_true_iff in He. destruct He as [[Hm Hs] Hd].
    cbn. rewrite !Ascii.eqb_eq in Hm. split; [exact Hm|]. split; [|exact Hd].
    destruct sign as [sg|]; [|exact I].
    rewrite orb_true_iff, !Ascii.eqb_eq in Hs. exact Hs.
Qed.

Lemma exponent_text_no_digit exponent :
  exponent_ok exponent -> span is_digit (exponent_text exponent) = 0.
Proof.
  destruct exponent as [[[marker sign] ds]|]; [|reflexivity].
  intros [[-> | ->] _]; destruct sign; reflexivity.
Qed.

Lemma exponent_part_text exponent :
  exponent_ok exponent ->
  exponent_part (exponent_text exponent) = List.length (exponent_text exponent).
Proof.
  destruct exponent as [[[marker sign] ds]|]; [|reflexivity].
  intros (Hmarker & Hsign & Hds).
  apply digits_spec in Hds as (Hall & d & tail & -> & Hd).
  pose proof (span_app is_digit (d :: tail) [] Hall) as Hspan.
  rewrite app_nil_r in Hspan. change (span is_digit []) with 0 in Hspan.
  rewrite Nat.add_0_r in Hspan.
  assert (Hm : Ascii.eqb marker "e" || Ascii.eqb marker "E" = true)
    by (destruct Hmarker as [-> | ->]; reflexivity).
  unfold exponent_part. destruct sign as [sg|]; cbn [exponent_text]; rewrite Hm.
  - assert (Hs : Ascii.eqb sg "+" || Ascii.eqb sg "-" = true)
      by (destruct Hsign as [-> | ->]; reflexivity).
    rewrite Hs. cbn [skipn]. rewrite Hspan. reflexivity.
  - assert (Hnosign : Ascii.eqb d "+" || Ascii.eqb d "-" = false)
      by (each_digit d Hd ltac:(reflexivity)).
    rewrite Hnosign. cbn [skipn]. rewrite Hspan. reflexivity.
Qed.

Lemma fraction_part_text fraction exponent :
  fraction_ok fraction -> exponent_ok exponent ->
  fraction_part (fraction_text fraction ++ exponent_text exponent)
  = List.length (fraction_text fraction).
Proof.
  intros Hf He. destruct fraction as [ds|]; cbn [fraction_text app List.length].
  - apply digits_spec in Hf as (Hall & d & tail & -> & Hd).
    unfold fraction_part. rewrite span_app by exact Hall.
    rewrite exponent_text_no_digit by exact He. cbn [List.length]. cbn. f_equal. lia.
  - destruct exponent as [[[marker sign] ds]|]; [|reflexivity].
    destruct He as [[-> | ->] _]; destruct sign; reflexivity.
Qed.

Lemma fraction_text_no_digit fraction exponent :
  exponent_ok exponent ->
  span is_digit (fraction_text fraction ++ exponent_text exponent) = 0.
Proof.
  intros H. destruct fraction; [reflexivity|]. apply exponent_text_no_digit, H.
Qed.

(** The NUMBER pattern matches the whole of a well-formed literal. *)
Lemma match_number_text integer fraction exponent :
  well_formed_number integer fraction exponent = true ->
  match_number (number_text integer fraction exponent)
  = Some (List.length (number_text integer fraction exponent)).
Proof.
  intros H. apply well_formed_number_parts in H as (Hint & Hf & He).
  apply digits_spec in Hint as (Hall & d & tail & Hinteger & Hd).
  unfold match_number, number_text.
  rewrite span_app by exact Hall.
  rewrite fraction_text_no_digit by exact He. rewrite Nat.add_0_r.
  destruct (Nat.eqb_spec (List.length integer) 0) as [Hz|_];
    [rewrite Hinteger in Hz; discriminate|].
  rewrite skipn_length_app, fraction_part_text by assumption.
  replace (integer ++ fraction_text fraction ++ exponent_text exponent)
    with ((integer ++ fraction_text fraction) ++ exponent_text exponent)
    by (symmetry; apply app_assoc).
  rewrite <- length_app, skipn_length_app, exponent_part_text by exact He.
  rewrite <- length_app. reflexivity.
Qed.

(** At a digit, the patterns before NUMBER do not match and white space
    is not skipped. *)
Lemma first_match_digit m (d : ascii) (tail : list ascii) :
  is_digit d = true ->
  isspace d = false
  /\ first_match (patterns m) (d :: tail)
     = match match_number (d :: tail) with
       | Some n => Some (NUMBER, n)
       | None => None
       end.
Proof.
  intros Hd. split.
  - each_digit d Hd ltac:(reflexivity).
  - each_digit d Hd ltac:(destruct m; reflexivity).
Qed.

(** A well-formed literal on its own is lexed as one NUMBER token. *)
Lemma tokenize_number_text m integer fraction exponent :
  well_formed_number integer fraction exponent = true ->
  tokenize m (string_of_list_ascii (number_text integer fraction exponent))
  = Lexed
      [ mkToken NUMBER (string_of_list_ascii (number_text integer fraction exponent)) 1 1;
        mkToken END_OF_FILE ""
          1 (1 + List.length (number_text integer fraction exponent)) ].
Proof.
  intros H. pose proof (match_number_text _ _ _ H) as Hm.
  apply well_formed_number_parts in H as (Hint & _ & _).
  apply digits_spec in Hint as (_ & d & tail & Hinteger & Hd).
  unfold tokenize. rewrite list_ascii_of_string_of_list_ascii, list_length_string.
  set (text := number_text integer fraction exponent) in *.
  assert (Htext : exists tail', text = d :: tail')
    by (subst text; unfold number_text; rewrite Hinteger; cbn; eauto).
  destruct Htext as [tail' Htext].
  destruct (first_match_digit m d tail' Hd) as [Hspace Hfirst].
  rewrite <- Htext in Hfirst. rewrite Hm in Hfirst.
  rewrite scan_unfold, skip_whitespace_spec.
  assert (Hsp : span isspace text = 0) by (rewrite Htext; cbn; now rewrite Hspace).
  rewrite Hsp. change (skipn 0 text) with text. change (firstn 0 text) with (@nil ascii).
  cbn [position_after fst snd]. cbv beta iota zeta.
  rewrite Hfirst, firstn_all, skipn_all.
  rewrite Htext. cbn [List.length]. rewrite scan_unfold. reflexivity.
Qed.

(** *** Opening braces *)

(** A token whose text is an opening brace is a PUNCTUATION token. *)
Definition brace_is_punctuation (token : Token) : Prop :=
  value token = "{" -> type token = PUNCTUATION.

Lemma first_match_brace m (tail : list ascii) :
  first_match (patterns m) ("{"%char :: tail) = Some (PUNCTUATION, 1).
Proof. destruct m; reflexivity. Qed.

Lemma lexeme_brace m (s : list ascii) (token_type : TokenType) (n : nat) :
  first_match (patterns m) s = Some (token_type, n) ->
  string_of_list_ascii (firstn n s) = "{" ->
  token_type = PUNCTUATION.
Proof.
  intros Hm Hvalue. apply (f_equal list_ascii_of_string) in Hvalue.
  rewrite list_ascii_of_string_of_list_ascii in Hvalue.
  destruct n as [|n]; [discriminate|]. destruct s as [|c tail]; [discriminate|].
  cbn [firstn list_ascii_of_string] in Hvalue. injection Hvalue as -> _.
  rewrite first_match_brace in Hm. congruence.
Qed.

Lemma scan_braces m fuel (s : list ascii) line column result (tokens : list Token) :
  Forall brace_is_punctuation result ->
  scan m fuel s line column result = Lexed tokens ->
  Forall brace_is_punctuation tokens.
Proof.
  revert s line column result.
  induction fuel as [|fuel IH]; intros s line column result Hresult;
    rewrite scan_unfold, skip_whitespace_spec;
    destruct (skipn (span isspace s) s) as [|c tail];
    try (intros [= <-]; apply Forall_app; split;
         [exact Hresult|repeat constructor; discriminate]);
    destruct (first_match (patterns m) (c :: tail)) as [[token_type n]|] eqn:Hm;
    try discriminate.
  apply IH. destruct token_type; try exact Hresult;
    (apply Forall_app; split; [exact Hresult|]; repeat constructor;
     intros Hvalue; cbn [value type] in *;
     apply (lexeme_brace m _ _ _ Hm Hvalue)).
Qed.

Lemma tokenize_braces m (text : string) (tokens : list Token) :
  tokenize m text = Lexed tokens -> Forall brace_is_punctuation tokens.
Proof. apply scan_braces. constructor. Qed.

(** A lexed text has tokens: the last one is END_OF_FILE. *)
Lemma scan_not_empty m fuel (s : list ascii) line column result :
  scan m fuel s line column result <> Lexed [].
Proof.
  revert s line column result.
  induction fuel as [|fuel IH]; intros s line column result;
    rewrite scan_unfold, skip_whitespace_spec;
    destruct (skipn (span isspace s) s) as [|c tail];
    try (destruct result; discriminate);
    destruct (first_match (patterns m) (c :: tail)) as [[token_type n]|];
    try discriminate.
  apply IH.
Qed.

End LexerFacts.

(** ** The parser *)

Module ParserFacts.

Import StdString Lexer Parser LexerFacts.

#[local] Open Scope nat_scope.

Section Descent.

Variable stod_throws : string -> bool.
Variable tokens : list Token.

#[local] Abbreviation parse_value := (parse_value stod_throws tokens).
#[local] Abbreviation object_fields := (object_fields stod_throws tokens).
#[local] Abbreviation array_elements := (array_elements stod_throws tokens).

Lemma value_at_lt (pos : nat) (text : string) :
  value_at tokens pos text = true -> pos < List.length tokens.
Proof.
  unfold value_at. destruct (nth_error tokens pos) eqn:H; [|discriminate].
  intros _. apply nth_error_Some. congruence.
Qed.

Lemma token_at_lt (pos : nat) (token : Token) :
  nth_error tokens pos = Some token -> pos < List.length tokens.
Proof. intros H. apply nth_error_Some. congruence. Qed.

(** The position after the optional object name. *)
Definition after_name (pos : nat) : nat :=
  match nth_error tokens pos with
  | Some {| type := IDENTIFIER |} => S pos
  | _ => pos
  end.

Lemma after_name_range (pos : nat) : pos <= after_name pos <= S pos.
Proof.
  unfold after_name. destruct (nth_error tokens pos) as [[[] ? ? ?]|]; lia.
Qed.

Lemma parse_object_with_unfold fields pos :
  parse_object_with tokens fields pos
  = if value_at tokens (after_name pos) "{" then fields (S (after_name pos)) ∅
    else Nullptr (Some "Expected '{'").
Proof. reflexivity. Qed.

(** One level of each function. *)
Lemma parse_value_S (fuel pos : nat) :
  parse_value (S fuel) pos
  = match nth_error tokens pos with
    | None => Nullptr None
    | Some token =>
      match type token with
      | STRING =>
        match strip_quotes (value token) with
        | Some str => Value (VString str) (S pos)
        | None => Thrown
        end
      | NUMBER =>
        if is_double_literal (value token) then
          if stod_throws (value token) then Thrown
          else Value (VDouble (D_stod (value token))) (S pos)
        else
          match stoll (value token) with
          | Some i => Value (VInteger i) (S pos)
          | None => Thrown
          end
      | BOOLEAN => Value (VBoolean (String.eqb (value token) "true")) (S pos)
      | NULL_KW => Value VNull (S pos)
      | PUNCTUATION =>
        if String.eqb (value token) "{" then parse_object_with tokens (object_fields fuel) pos
        else if String.eqb (value token) "[" then
          parse_array_with tokens (array_elements fuel) pos
        else Nullptr None
      | IDENTIFIER =>
        if value_at tokens (S pos) "{" then parse_object_with tokens (object_fields fuel) pos
        else Value (VEnum (value token)) (S pos)
      | _ => Nullptr None
      end
    end.
Proof. reflexivity. Qed.

Lemma object_fields_S (fuel pos : nat) (map : gmap string CfgppValue) :
  object_fields (S fuel) pos map
  = match nth_error tokens pos with
    | None => Nullptr (Some "Expected '}'")
    | Some token =>
      if String.eqb (value token) "}" then Value (VObject map) (S pos)
      else
        match type token with
        | IDENTIFIER =>
          if value_at tokens (S pos) "=" then
            match parse_value fuel (S (S pos)) with
            | Value v pos1 =>
              object_fields fuel (if value_at tokens pos1 ";" then S pos1 else pos1)
                (<[value token := v]> map)
            | failure => failure
            end
          else Nullptr (Some "Expected '=' after object key")
        | _ => Nullptr (Some "Expected identifier for object key")
        end
    end.
Proof. reflexivity. Qed.

Lemma array_elements_S (fuel pos : nat) (vec : list CfgppValue) :
  array_elements (S fuel) pos vec
  = match nth_error tokens pos with
    | None => Nullptr (Some "Expected ']'")
    | Some token =>
      if String.eqb (value token) "]" then Value (VArray vec) (S pos)
      else
        match parse_value fuel pos with
        | Value v pos1 =>
          array_elements fuel (if value_at tokens pos1 "," then S pos1 else pos1)
            (vec ++ [v])
        | failure => failure
        end
    end.
Proof. reflexivity. Qed.

(** *** Progress: a parsed value ends after where it starts, within the
    tokens *)

Definition advances (r : parsed) (pos : nat) : Prop :=
  match r with
  | Value _ pos' => pos < pos' <= List.length tokens
  | _ => True
  end.

Lemma parse_progress (fuel : nat) :
  (forall pos, advances (parse_value fuel pos) pos)
  /\ (forall pos map, advances (object_fields fuel pos map) pos)
  /\ (forall pos vec, advances (array_elements fuel pos vec) pos).
Proof.
  induction fuel as [|fuel (IHv & IHo & IHa)]; [repeat split; intros; exact I|].
  repeat split.
  - intros pos. rewrite parse_value_S.
    destruct (nth_error tokens pos) as [token|] eqn:Htoken; [|exact I].
    pose proof (token_at_lt _ _ Htoken) as Hlt.
    destruct (type token); try exact I; try (cbn; lia).
    + (* IDENTIFIER *)
      destruct (value_at tokens (S pos) "{") eqn:Hbrace; [|cbn; lia].
      rewrite parse_object_with_unfold.
      pose proof (after_name_range pos).
      destruct (value_at tokens (after_name pos) "{"); [|exact I].
      specialize (IHo (S (after_name pos)) ∅).
      destruct (Parser.object_fields _ _ fuel _ _); try exact I. unfold advances in *. lia.
    + destruct (strip_quotes (value token)); [cbn; lia|exact I].
    + destruct (is_double_literal (value token)).
      * destruct (stod_throws (value token)); [exact I|cbn; lia].
      * destruct (stoll (value token)); [cbn; lia|exact I].
    + (* PUNCTUATION *)
      destruct (String.eqb (value token) "{").
      * rewrite parse_object_with_unfold.
        pose proof (after_name_range pos).
        destruct (value_at tokens (after_name pos) "{"); [|exact I].
        specialize (IHo (S (after_name pos)) ∅).
        destruct (Parser.object_fields _ _ fuel _ _); try exact I. unfold advances in *. lia.
      * destruct (String.eqb (value token) "["); [|exact I].
        unfold parse_array_with.
        destruct (value_at tokens pos "["); [|exact I].
        specialize (IHa (S pos) []).
        destruct (Parser.array_elements _ _ fuel _ _); try exact I. unfold advances in *. lia.
  - intros pos map. rewrite object_fields_S.
    destruct (nth_error tokens pos) as [token|] eqn:Htoken; [|exact I].
    pose proof (token_at_lt _ _ Htoken) as Hlt.
    destruct (String.eqb (value token) "}"); [cbn; lia|].
    destruct (type token); try exact I.
    destruct (value_at tokens (S pos) "="); [|exact I].
    specialize (IHv (S (S pos))).
    destruct (Parser.parse_value _ _ fuel _) as [v pos1| | |]; try exact I.
    match goal with
    | |- advances (Parser.object_fields _ _ fuel ?p ?m) _ => specialize (IHo p m);
        destruct (Parser.object_fields _ _ fuel p m); try exact I
    end.
    unfold advances in *. destruct (value_at tokens pos1 ";"); lia.
  - intros pos vec. rewrite array_elements_S.
    destruct (nth_error tokens pos) as [token|] eqn:Htoken; [|exact I].
    pose proof (token_at_lt _ _ Htoken) as Hlt.
    destruct (String.eqb (value token) "]"); [cbn; lia|].
    specialize (IHv pos).
    destruct (Parser.parse_value _ _ fuel _) as [v pos1| | |]; try exact I.
    match goal with
    | |- advances (Parser.array_elements _ _ fuel ?p ?m) _ => specialize (IHa p m);
        destruct (Parser.array_elements _ _ fuel p m); try exact I
    end.
    unfold advances in *. destruct (value_at tokens pos1 ","); lia.
Qed.

Lemma parse_value_advances fuel pos v pos' :
  parse_value fuel pos = Value v pos' -> pos < pos' <= List.length tokens.
Proof.
  intros H. pose proof (proj1 (parse_progress fuel) pos) as Hp.
  rewrite H in Hp. exact Hp.
Qed.

(** *** Fuel *)

Lemma parse_total (fuel : nat) :
  (forall pos, 2 * (List.length tokens - pos) + 1 <= fuel -> parse_value fuel pos <> NoFuel)
  /\ (forall pos map,
        2 * (List.length tokens - pos) + 2 <= fuel -> object_fields fuel pos map <> NoFuel)
  /\ (forall pos vec,
        2 * (List.length tokens - pos) + 2 <= fuel -> array_elements fuel pos vec <> NoFuel).
Proof.
  induction fuel as [|fuel (IHv & IHo & IHa)]; [repeat split; intros; lia|].
  repeat split.
  - intros pos Hfuel. rewrite parse_value_S.
    destruct (nth_error tokens pos) as [token|] eqn:Htoken; [|discriminate].
    pose proof (token_at_lt _ _ Htoken) as Hlt.
    pose proof (after_name_range pos) as Hname.
    assert (Hobject : parse_object_with tokens (object_fields fuel) pos <> NoFuel).
    { rewrite parse_object_with_unfold.
      destruct (value_at tokens (after_name pos) "{"); [|discriminate].
      apply IHo. lia. }
    assert (Harray : parse_array_with tokens (array_elements fuel) pos <> NoFuel).
    { unfold parse_array_with. destruct (value_at tokens pos "["); [|discriminate].
      apply IHa. lia. }
    destruct (type token); try discriminate.
    + destruct (value_at tokens (S pos) "{"); [exact Hobject|discriminate].
    + destruct (strip_quotes (value token)); discriminate.
    + destruct (is_double_literal (value token));
        [destruct (stod_throws (value token))|destruct (stoll (value token))];
        discriminate.
    + destruct (String.eqb (value token) "{"); [exact Hobject|].
      destruct (String.eqb (value token) "["); [exact Harray|discriminate].
  - intros pos map Hfuel. rewrite object_fields_S.
    destruct (nth_error tokens pos) as [token|] eqn:Htoken; [|discriminate].
    pose proof (token_at_lt _ _ Htoken) as Hlt.
    destruct (String.eqb (value token) "}"); [discriminate|].
    destruct (type token); try discriminate.
    destruct (value_at tokens (S pos) "="); [|discriminate].
    destruct (Parser.parse_value _ _ fuel (S (S pos))) as [v pos1| | |] eqn:Hv;
      try discriminate.
    + apply parse_value_advances in Hv. apply IHo.
      destruct (value_at tokens pos1 ";"); lia.
    + exfalso. revert Hv. apply IHv. lia.
  - intros pos vec Hfuel. rewrite array_elements_S.
    destruct (nth_error tokens pos) as [token|] eqn:Htoken; [|discriminate].
    pose proof (token_at_lt _ _ Htoken) as Hlt.
    destruct (String.eqb (value token) "]"); [discriminate|].
    destruct (Parser.parse_value _ _ fuel pos) as [v pos1| | |] eqn:Hv;
      try discriminate.
    + apply parse_value_advances in Hv. apply IHa.
      destruct (value_at tokens pos1 ","); lia.
    + exfalso. revert Hv. apply IHv. lia.
Qed.

(** More fuel does not change a result. *)
Lemma parse_more_fuel (fuel : nat) :
  (forall pos fuel', fuel <= fuel' -> parse_value fuel pos <> NoFuel ->
     parse_value fuel' pos = parse_value fuel pos)
  /\ (forall pos map fuel', fuel <= fuel' -> object_fields fuel pos map <> NoFuel ->
        object_fields fuel' pos map = object_fields fuel pos map)
  /\ (forall pos vec fuel', fuel <= fuel' -> array_elements fuel pos vec <> NoFuel ->
        array_elements fuel' pos vec = array_elements fuel pos vec).
Proof.
  induction fuel as [|fuel (IHv & IHo & IHa)].
  { repeat split; intros; exfalso;
      match goal with H : _ <> NoFuel |- _ => apply H; reflexivity end. }
  repeat split.
  - intros pos [|fuel'] Hle; [lia|]. rewrite !parse_value_S.
    assert (Hobject :
              parse_object_with tokens (object_fields fuel) pos <> NoFuel ->
              parse_object_with tokens (object_fields fuel') pos
              = parse_object_with tokens (object_fields fuel) pos).
    { rewrite !parse_object_with_unfold.
      destruct (value_at tokens (after_name pos) "{"); [|reflexivity].
      apply IHo. lia. }
    assert (Harray :
              parse_array_with tokens (array_elements fuel) pos <> NoFuel ->
              parse_array_with tokens (array_elements fuel') pos
              = parse_array_with tokens (array_elements fuel) pos).
    { unfold parse_array_with. destruct (value_at tokens pos "["); [|reflexivity].
      apply IHa. lia. }
    destruct (nth_error tokens pos) as [token|]; [|reflexivity].
    destruct (type token); try reflexivity.
    + destruct (value_at tokens (S pos) "{"); [exact Hobject|reflexivity].
    + destruct (String.eqb (value token) "{"); [exact Hobject|].
      destruct (String.eqb (value token) "["); [exact Harray|reflexivity].
  - intros pos map [|fuel'] Hle; [lia|]. rewrite !object_fields_S.
    destruct (nth_error tokens pos) as [token|]; [|reflexivity].
    destruct (String.eqb (value token) "}"); [reflexivity|].
    destruct (type token); try reflexivity.
    destruct (value_at tokens (S pos) "="); [|reflexivity].
    destruct (Parser.parse_value _ _ fuel (S (S pos))) as [v pos1| | |] eqn:Hv;
      intros Hok; try congruence;
      rewrite (IHv (S (S pos)) fuel') by (rewrite ?Hv; first [lia|discriminate]);
      rewrite Hv; try reflexivity.
    apply IHo; [lia|exact Hok].
  - intros pos vec [|fuel'] Hle; [lia|]. rewrite !array_elements_S.
    destruct (nth_error tokens pos) as [token|]; [|reflexivity].
    destruct (String.eqb (value token) "]"); [reflexivity|].
    destruct (Parser.parse_value _ _ fuel pos) as [v pos1| | |] eqn:Hv;
      intros Hok; try congruence;
      rewrite (IHv pos fuel') by (rewrite ?Hv; first [lia|discriminate]);
      rewrite Hv; try reflexivity.
    apply IHa; [lia|exact Hok].
Qed.

(** *** The shape of what the loops return *)

Definition is_enum (v : CfgppValue) : bool :=
  match v with
  | VEnum _ => true
  | _ => false
  end.

Definition not_enum (r : parsed) : Prop :=
  match r with
  | Value v _ => is_enum v = false
  | _ => True
  end.

Lemma loops_not_enum (fuel : nat) :
  (forall pos map, not_enum (object_fields fuel pos map))
  /\ (forall pos vec, not_enum (array_elements fuel pos vec)).
Proof.
  induction fuel as [|fuel (IHo & IHa)]; [split; intros; exact I|].
  split.
  - intros pos map. rewrite object_fields_S.
    destruct (nth_error tokens pos) as [token|]; [|exact I].
    destruct (String.eqb (value token) "}"); [reflexivity|].
    destruct (type token); try exact I.
    destruct (value_at tokens (S pos) "="); [|exact I].
    destruct (Parser.parse_value _ _ fuel (S (S pos))); try exact I. apply IHo.
  - intros pos vec. rewrite array_elements_S.
    destruct (nth_error tokens pos) as [token|]; [|exact I].
    destruct (String.eqb (value token) "]"); [reflexivity|].
    destruct (Parser.parse_value _ _ fuel pos); try exact I. apply IHa.
Qed.

(** An Enum value comes from an identifier that no brace follows. *)
Lemma enum_lookahead (fuel pos : nat) (v : CfgppValue) (pos' : nat) :
  parse_value fuel pos = Value v pos' ->
  is_enum v = true ->
  value_at tokens pos' "{" = false.
Proof.
  destruct fuel as [|fuel]; [discriminate|]. rewrite parse_value_S.
  destruct (loops_not_enum fuel) as [Ho Ha].
  assert (Hobject : parse_object_with tokens (object_fields fuel) pos = Value v pos' ->
                    is_enum v = true -> value_at tokens pos' "{" = false).
  { rewrite parse_object_with_unfold.
    destruct (value_at tokens (after_name pos) "{"); [|discriminate].
    intros H. specialize (Ho (S (after_name pos)) ∅). rewrite H in Ho.
    cbn in Ho. congruence. }
  assert (Harray : parse_array_with tokens (array_elements fuel) pos = Value v pos' ->
                   is_enum v = true -> value_at tokens pos' "{" = false).
  { unfold parse_array_with. destruct (value_at tokens pos "["); [|discriminate].
    intros H. specialize (Ha (S pos) []). rewrite H in Ha. cbn in Ha. congruence. }
  destruct (nth_error tokens pos) as [token|]; [|discriminate].
  destruct (type token); try discriminate.
  - destruct (value_at tokens (S pos) "{") eqn:Hbrace; [exact Hobject|].
    intros [= <- <-] _. exact Hbrace.
  - destruct (strip_quotes (value token)); [|discriminate]. intros [= <- <-]. discriminate.
  - destruct (is_double_literal (value token));
      [destruct (stod_throws (value token))|destruct (stoll (value token))];
      try discriminate; intros [= <- <-]; discriminate.
  - intros [= <- <-]. discriminate.
  - intros [= <- <-]. discriminate.
  - destruct (String.eqb (value token) "{"); [exact Hobject|].
    destruct (String.eqb (value token) "["); [exact Harray|discriminate].
Qed.

End Descent.

(** *** Tokens after a value *)

Section Frame.

Variable stod_throws : string -> bool.
Variables tokens tokens' : list Token.

(** The two token sequences hold the same tokens before [bound]. *)
Definition same_before (bound : nat) : Prop :=
  forall i, i < bound -> nth_error tokens' i = nth_error tokens i.

Lemma same_before_le (bound bound' : nat) :
  bound' <= bound -> same_before bound -> same_before bound'.
Proof. intros Hle H i Hi. apply H. lia. Qed.

Lemma value_at_same (bound i : nat) (text : string) :
  same_before bound -> i < bound -> value_at tokens' i text = value_at tokens i text.
Proof. intros H Hi. unfold value_at. rewrite (H i Hi). reflexivity. Qed.

Lemma after_name_same (bound pos : nat) :
  same_before bound -> pos < bound -> after_name tokens' pos = after_name tokens pos.
Proof. intros H Hi. unfold after_name. rewrite (H pos Hi). reflexivity. Qed.

Lemma parse_frame (fuel : nat) :
  (forall pos v pos',
     parse_value stod_throws tokens fuel pos = Value v pos' ->
     same_before pos' ->
     (is_enum v = true -> value_at tokens' pos' "{" = false) ->
     parse_value stod_throws tokens' fuel pos = Value v pos')
  /\ (forall pos map v pos',
        object_fields stod_throws tokens fuel pos map = Value v pos' ->
        same_before pos' ->
        object_fields stod_throws tokens' fuel pos map = Value v pos')
  /\ (forall pos vec v pos',
        array_elements stod_throws tokens fuel pos vec = Value v pos' ->
        same_before pos' ->
        array_elements stod_throws tokens' fuel pos vec = Value v pos').
Proof.
  induction fuel as [|fuel (IHv & IHo & IHa)]; [repeat split; intros; discriminate|].
  destruct (parse_progress stod_throws tokens fuel) as (_ & Pobj & Parr).
  assert (Hobject : forall pos v pos',
            parse_object_with tokens (object_fields stod_throws tokens fuel) pos
            = Value v pos' ->
            same_before pos' ->
            S pos < pos'
            /\ parse_object_with tokens' (object_fields stod_throws tokens' fuel) pos
               = Value v pos').
  { intros pos v pos'. rewrite !parse_object_with_unfold.
    pose proof (after_name_range tokens pos) as Hname.
    destruct (value_at tokens (after_name tokens pos) "{") eqn:Hbrace; [|discriminate].
    intros H Hsame. specialize (Pobj (S (after_name tokens pos)) ∅).
    rewrite H in Pobj. cbn in Pobj. split; [lia|].
    rewrite (after_name_same pos' pos), (value_at_same pos'), Hbrace by (assumption || lia).
    apply IHo; assumption. }
  assert (Harray : forall pos v pos',
            parse_array_with tokens (array_elements stod_throws tokens fuel) pos
            = Value v pos' ->
            same_before pos' ->
            parse_array_with tokens' (array_elements stod_throws tokens' fuel) pos
            = Value v pos').
  { intros pos v pos'. unfold parse_array_with.
    destruct (value_at tokens pos "[") eqn:Hbracket; [|discriminate].
    intros H Hsame. specialize (Parr (S pos) []). rewrite H in Parr. cbn in Parr.
    rewrite (value_at_same pos'), Hbracket by (assumption || lia).
    apply IHa; assumption. }
  repeat split.
  - intros pos v pos' H Hsame Hbrace.
    pose proof (parse_value_advances _ _ _ _ _ _ H) as Hadv.
    rewrite parse_value_S in H |- *. rewrite (Hsame pos) by lia.
    destruct (nth_error tokens pos) as [token|]; [|discriminate].
    destruct (type token); try discriminate; try exact H.
    + destruct (value_at tokens (S pos) "{") eqn:Hnext.
      * destruct (Hobject _ _ _ H Hsame) as [Hlt ->].
        rewrite (value_at_same pos'), Hnext by (assumption || lia). reflexivity.
      * injection H as <- <-. rewrite Hbrace by reflexivity. reflexivity.
    + destruct (String.eqb (value token) "{"); [apply Hobject; assumption|].
      destruct (String.eqb (value token) "["); [apply Harray; assumption|discriminate].
  - intros pos map v pos' H Hsame.
    pose proof (Pobj pos map) as Hadv.
    destruct (parse_progress stod_throws tokens (S fuel)) as (_ & Pobj' & _).
    specialize (Pobj' pos map). rewrite H in Pobj'. cbn in Pobj'.
    rewrite object_fields_S in H |- *. rewrite (Hsame pos) by lia.
    destruct (nth_error tokens pos) as [token|]; [|discriminate].
    destruct (String.eqb (value token) "}"); [exact H|].
    destruct (type token); try discriminate.
    destruct (value_at tokens (S pos) "=") eqn:Hassign; [|discriminate].
    destruct (Parser.parse_value _ tokens fuel (S (S pos))) as [v1 pos1| | |] eqn:Hv;
      try discriminate.
    pose proof (parse_value_advances _ _ _ _ _ _ Hv) as Hadv1.
    match type of H with
    | Parser.object_fields _ _ _ ?p ?m = _ =>
      pose proof (Pobj p m) as Hadv2; rewrite H in Hadv2; cbn in Hadv2
    end.
    assert (Hlt1 : pos1 < pos') by (destruct (value_at tokens pos1 ";"); lia).
    rewrite (value_at_same pos'), Hassign by (assumption || lia).
    rewrite (IHv _ _ _ Hv).
    + rewrite (value_at_same pos' pos1) by assumption. apply IHo; assumption.
    + eapply same_before_le; [|exact Hsame]. lia.
    + intros Henum. rewrite (value_at_same pos' pos1) by assumption.
      eapply enum_lookahead; eassumption.
  - intros pos vec v pos' H Hsame.
    destruct (parse_progress stod_throws tokens (S fuel)) as (_ & _ & Parr').
    specialize (Parr' pos vec). rewrite H in Parr'. cbn in Parr'.
    rewrite array_elements_S in H |- *. rewrite (Hsame pos) by lia.
    destruct (nth_error tokens pos) as [token|]; [|discriminate].
    destruct (String.eqb (value token) "]"); [exact H|].
    destruct (Parser.parse_value _ tokens fuel pos) as [v1 pos1| | |] eqn:Hv;
      try discriminate.
    match type of H with
    | Parser.array_elements _ _ _ ?p ?m = _ =>
      pose proof (Parr p m) as Hadv2; rewrite H in Hadv2; cbn in Hadv2
    end.
    assert (Hlt1 : pos1 < pos') by (destruct (value_at tokens pos1 ","); lia).
    rewrite (IHv _ _ _ Hv).
    + rewrite (value_at_same pos' pos1) by assumption. apply IHa; assumption.
    + eapply same_before_le; [|exact Hsame]. lia.
    + intros Henum. rewrite (value_at_same pos' pos1) by assumption.
      eapply enum_lookahead; eassumption.
Qed.

End Frame.

(** *** [cfgpp_parse_string] *)

(** The model never runs out of fuel: the call always returns a code. *)
Lemma cfgpp_parse_string_total (m : bool) (stod_throws : string -> bool)
    (config_text : string) :
  cfgpp_parse_string m stod_throws config_text <> None.
Proof.
  unfold cfgpp_parse_string.
  pose proof (tokenize_total m config_text) as Hlex.
  destruct (tokenize m config_text) as [tokens|error line column|];
    [|discriminate|congruence].
  cbn [returned_tokens]. destruct tokens as [|token tokens]; [discriminate|].
  pose proof (proj1 (parse_total stod_throws (token :: tokens)
                       (enough_fuel (token :: tokens))) 0) as Hfuel.
  destruct (parse_value _ _ _ 0); try discriminate.
  exfalso. apply Hfuel; [|reflexivity]. unfold enough_fuel. lia.
Qed.

(** What the call returns once the tokens are known. *)
Lemma cfgpp_parse_string_value (m : bool) (stod_throws : string -> bool)
    (config_text : string) (tokens : list Token) (fuel : nat) (v : CfgppValue) (pos : nat) :
  tokenize m config_text = Lexed tokens ->
  parse_value stod_throws tokens fuel 0 = Value v pos ->
  cfgpp_parse_string m stod_throws config_text = Some (Api CFGPP_SUCCESS (Some v)).
Proof.
  intros Hlex Hvalue. unfold cfgpp_parse_string. rewrite Hlex. cbn [returned_tokens].
  destruct tokens as [|token tokens];
    [destruct fuel; discriminate|].
  assert (Hok : parse_value stod_throws (token :: tokens) fuel 0 <> NoFuel)
    by congruence.
  destruct (Nat.le_ge_cases fuel (enough_fuel (token :: tokens))) as [Hle|Hge].
  - rewrite (proj1 (parse_more_fuel _ _ fuel) 0 _ Hle Hok), Hvalue. reflexivity.
  - assert (Hok' : parse_value stod_throws (token :: tokens)
                     (enough_fuel (token :: tokens)) 0 <> NoFuel).
    { apply (proj1 (parse_total _ _ _)). unfold enough_fuel. lia. }
    rewrite <- (proj1 (parse_more_fuel _ _ _) 0 _ Hge Hok'), Hvalue. reflexivity.
Qed.

(** C10 (as amended): when the tokens of the text start with a value that
    parse_value parses, cfgpp_parse_string returns CFGPP_SUCCESS with that
    value and never looks for the end of the text after it.  Any text
    whose tokens are the same up to the end of the value yields the same
    value with CFGPP_SUCCESS, whatever tokens follow, unless the value is a
    bare identifier and an opening brace comes right after it; in
    particular the text 1 2 yields Integer 1. *)
Theorem parse_string_ignores_trailing_tokens (m : bool) (stod_throws : string -> bool)
    (config_text : string) (tokens : list Token) (v : CfgppValue) (pos : nat) :
  tokenize m config_text = Lexed tokens ->
  parse_value stod_throws tokens (enough_fuel tokens) 0 = Value v pos ->
  cfgpp_parse_string m stod_throws config_text = Some (Api CFGPP_SUCCESS (Some v))
  /\ (forall (other_text : string) (tokens' : list Token),
        tokenize m other_text = Lexed tokens' ->
        firstn pos tokens' = firstn pos tokens ->
        (is_enum v = true -> value_at tokens' pos "{" = false) ->
        cfgpp_parse_string m stod_throws other_text
        = Some (Api CFGPP_SUCCESS (Some v)))
  /\ cfgpp_parse_string m stod_throws "1 2"
     = Some (Api CFGPP_SUCCESS (Some (VInteger 1))).
Proof.
  intros Hlex Hvalue. split; [|split].
  - eapply cfgpp_parse_string_value; eassumption.
  - intros other_text tokens' Hlex' Hsame Hbrace.
    eapply cfgpp_parse_string_value; [exact Hlex'|].
    apply (proj1 (parse_frame stod_throws tokens tokens' (enough_fuel tokens)));
      [exact Hvalue| |exact Hbrace].
    intros i Hi.
    pose proof (f_equal (fun l => nth_error l i) Hsame) as Hi'. cbv beta in Hi'.
    rewrite !nth_error_firstn in Hi'.
    destruct (Nat.ltb_spec i pos); [exact Hi'|lia].
  - destruct m; reflexivity.
Qed.

(** An instance: the text 1 alone, with a [std::stod] that never throws. *)
Lemma parse_string_ignores_trailing_tokens_witness :
  cfgpp_parse_string false (fun _ => false) "1" = Some (Api CFGPP_SUCCESS (Some (VInteger 1)))
  /\ (forall (other_text : string) (tokens' : list Token),
        tokenize false other_text = Lexed tokens' ->
        firstn 1 tokens' = firstn 1 [mkToken NUMBER "1" 1 1; mkToken END_OF_FILE "" 1 2] ->
        (is_enum (VInteger 1) = true -> value_at tokens' 1 "{" = false) ->
        cfgpp_parse_string false (fun _ => false) other_text
        = Some (Api CFGPP_SUCCESS (Some (VInteger 1))))
  /\ cfgpp_parse_string false (fun _ => false) "1 2"
     = Some (Api CFGPP_SUCCESS (Some (VInteger 1))).
Proof.
  apply (parse_string_ignores_trailing_tokens false (fun _ => false) "1"
           [mkToken NUMBER "1" 1 1; mkToken END_OF_FILE "" 1 2] (VInteger 1) 1);
    reflexivity.
Defined.

(** Tokens after the value are not looked at, even when no value could
    start with them. *)
Example trailing_tokens_examples :
  cfgpp_parse_string false (fun _ => false) "1 }" = Some (Api CFGPP_SUCCESS (Some (VInteger 1)))
  /\ cfgpp_parse_string false (fun _ => false) "[1, 2] = ; x"
     = Some (Api CFGPP_SUCCESS (Some (VArray [VInteger 1; VInteger 2])))
  /\ cfgpp_parse_string false (fun _ => false) "a b"
     = Some (Api CFGPP_SUCCESS (Some (VEnum "a"))).
Proof. repeat split; vm_compute; reflexivity. Qed.

(** The text a is a complete value, the Enum a.  Followed by an opening
    brace it is no longer parsed as that value: the call fails with a
    syntax error, or, when the brace is closed, yields an empty Object. *)
Lemma brace_after_identifier_is_not_ignored :
  cfgpp_parse_string false (fun _ => false) "a"
  = Some (Api CFGPP_SUCCESS (Some (VEnum "a")))
  /\ cfgpp_parse_string false (fun _ => false) "a {"
     = Some (Api CFGPP_ERROR_INVALID_SYNTAX None)
  /\ cfgpp_parse_string true (fun _ => false) "a {"
     = Some (Api CFGPP_ERROR_INVALID_SYNTAX None)
  /\ cfgpp_parse_string false (fun _ => false) "a { }"
     = Some (Api CFGPP_SUCCESS (Some (VObject ∅))).
Proof. repeat split; vm_compute; reflexivity. Qed.

(** *** Identifiers *)

(** The token after [pos] is the punctuation that opens an object. *)
Definition brace_follows (tokens : list Token) (pos : nat) : Prop :=
  exists next,
    nth_error tokens (S pos) = Some next /\ type next = PUNCTUATION /\ value next = "{".

(** C7: in parse_value, at an identifier token of a lexed text: if the
    next token is the punctuation that opens an object, the identifier is
    consumed as an object name that is not kept and the fields are parsed
    from the token after the brace; otherwise the identifier alone is
    consumed and the value is the Enum that holds its text.  The text
    MULTIMETER parses to the Enum MULTIMETER. *)
Theorem identifier_is_object_name_or_enum (m : bool) (stod_throws : string -> bool)
    (config_text : string) (tokens : list Token) (fuel pos : nat) (token : Token) :
  tokenize m config_text = Lexed tokens ->
  nth_error tokens pos = Some token ->
  type token = IDENTIFIER ->
  (brace_follows tokens pos ->
   parse_value stod_throws tokens (S fuel) pos
   = object_fields stod_throws tokens fuel (S (S pos)) ∅)
  /\ (~ brace_follows tokens pos ->
      parse_value stod_throws tokens (S fuel) pos
      = Value (VEnum (value token)) (S pos))
  /\ cfgpp_parse_string m stod_throws "MULTIMETER"
     = Some (Api CFGPP_SUCCESS (Some (VEnum "MULTIMETER"))).
Proof.
  intros Hlex Htoken Htype.
  pose proof (tokenize_braces m config_text tokens Hlex) as Hbraces.
  split; [|split].
  - intros (next & Hnext & _ & Hvalue).
    rewrite parse_value_S, Htoken, Htype.
    unfold value_at at 1. rewrite Hnext, Hvalue. cbn [String.eqb Ascii.eqb Bool.eqb].
    rewrite parse_object_with_unfold. unfold after_name.
    rewrite Htoken. destruct token as [ty v l c]. cbn [type] in Htype. subst ty.
    unfold value_at. rewrite Hnext, Hvalue. reflexivity.
  - intros Hnone. rewrite parse_value_S, Htoken, Htype.
    unfold value_at. destruct (nth_error tokens (S pos)) as [next|] eqn:Hnext; [|reflexivity].
    destruct (String.eqb_spec (value next) "{") as [Hvalue|_]; [|reflexivity].
    exfalso. apply Hnone. exists next. split; [exact Hnext|]. split; [|exact Hvalue].
    apply nth_error_In in Hnext. rewrite Forall_forall in Hbraces.
    apply Hbraces; [|exact Hvalue]. apply list_elem_of_In. exact Hnext.
  - destruct m; reflexivity.
Qed.

(** An instance: a named object whose only field holds an identifier. *)
Definition named_object_text : string := "cfg { kind = MULTIMETER }".

Definition named_object_tokens : list Token :=
  [ mkToken IDENTIFIER "cfg" 1 1; mkToken PUNCTUATION "{" 1 5;
    mkToken IDENTIFIER "kind" 1 7; mkToken PUNCTUATION "=" 1 12;
    mkToken IDENTIFIER "MULTIMETER" 1 14; mkToken PUNCTUATION "}" 1 25;
    mkToken END_OF_FILE "" 1 26 ].

Lemma identifier_is_object_name_or_enum_witness :
  (brace_follows named_object_tokens 0 ->
   parse_value (fun _ => false) named_object_tokens 15 0
   = object_fields (fun _ => false) named_object_tokens 14 2 ∅)
  /\ (~ brace_follows named_object_tokens 0 ->
      parse_value (fun _ => false) named_object_tokens 15 0 = Value (VEnum "cfg") 1)
  /\ cfgpp_parse_string false (fun _ => false) "MULTIMETER"
     = Some (Api CFGPP_SUCCESS (Some (VEnum "MULTIMETER"))).
Proof.
  apply (identifier_is_object_name_or_enum false (fun _ => false) named_object_text
           named_object_tokens 14 0 (mkToken IDENTIFIER "cfg" 1 1));
    reflexivity.
Defined.

Example named_object_parses :
  cfgpp_parse_string false (fun _ => false) named_object_text
  = Some (Api CFGPP_SUCCESS (Some (VObject {[ "kind" := VEnum "MULTIMETER" ]}))).
Proof. vm_compute. reflexivity. Qed.

(** *** Classification of numbers *)

Lemma has_char_list (c : ascii) (l : list ascii) :
  has_char c (string_of_list_ascii l) = existsb (Ascii.eqb c) l.
Proof.
  unfold has_char. induction l as [|d l IH]; [reflexivity|].
  cbn [string_of_list_ascii find_char existsb].
  destruct (Ascii.eqb c d); [reflexivity|]. cbn [orb]. rewrite <- IH.
  destruct (find_char c (string_of_list_ascii l)); reflexivity.
Qed.

Lemma digits_lack (c : ascii) (ds : list ascii) :
  is_digit c = false -> forallb is_digit ds = true -> existsb (Ascii.eqb c) ds = false.
Proof.
  intros Hc. induction ds as [|d ds IH]; [reflexivity|].
  cbn [forallb existsb]. intros H. apply andb_prop in H as [Hd Hds].
  rewrite (IH Hds). destruct (Ascii.eqb_spec c d) as [->|_]; [congruence|reflexivity].
Qed.

(** A well-formed literal counts as a double exactly when it has a
    fraction or an exponent. *)
Lemma is_double_literal_text integer fraction exponent :
  well_formed_number integer fraction exponent = true ->
  is_double_literal (string_of_list_ascii (number_text integer fraction exponent))
  = match fraction, exponent with
    | None, None => false
    | _, _ => true
    end.
Proof.
  intros H. apply well_formed_number_parts in H as (Hint & Hf & He).
  apply digits_spec in Hint as [Hint _].
  unfold is_double_literal, number_text. rewrite !has_char_list, !existsb_app.
  rewrite !(digits_lack _ integer) by (exact Hint || reflexivity). cbn [orb].
  destruct fraction as [ds|]; [cbn; reflexivity|].
  destruct exponent as [[[marker sign] ds]|]; [|reflexivity].
  destruct He as [[-> | ->] _]; destruct sign; cbn;
    rewrite ?orb_true_r; reflexivity.
Qed.


End ParserFacts.

(** * Further properties *)

(** ** The token stream *)

Module TokenStream.

Import Lexer LexerFacts.

#[local] Open Scope nat_scope.

(** The place of a token, and the order of places in a text. *)
Definition place (token : Token) : nat * nat := (line token, column token).

Definition place_lt (a b : nat * nat) : Prop :=
  fst a < fst b \/ (fst a = fst b /\ snd a < snd b).

Definition place_le (a b : nat * nat) : Prop := a = b \/ place_lt a b.

Lemma place_lt_le_trans a b c : place_lt a b -> place_le b c -> place_lt a c.
Proof.
  unfold place_le, place_lt. intros Hab [<- | Hbc]; [exact Hab|].
  destruct a, b, c; cbn in *. lia.
Qed.

Lemma place_le_trans a b c : place_le a b -> place_le b c -> place_le a c.
Proof.
  unfold place_le. intros [<- | Hab] Hbc; [exact Hbc|].
  right. eapply place_lt_le_trans; [exact Hab|exact Hbc].
Qed.

Lemma position_after_le line column (s : list ascii) :
  place_le (line, column) (position_after line column s).
Proof.
  revert line column. induction s as [|c s IH]; intros line column; [left; reflexivity|].
  cbn [position_after]. destruct (is_newline c).
  - eapply place_le_trans; [|apply IH]. right. left. cbn. lia.
  - eapply place_le_trans; [|apply IH]. right. right. cbn. lia.
Qed.

(** Tokens in the order of the text: each stands before all later ones. *)
Inductive in_text_order : list Token -> Prop :=
| order_nil : in_text_order []
| order_cons (token : Token) (later : list Token) :
    Forall (fun t => place_lt (place token) (place t)) later ->
    in_text_order later ->
    in_text_order (token :: later).

Lemma in_text_order_snoc (tokens : list Token) (token : Token) :
  in_text_order tokens ->
  Forall (fun t => place_lt (place t) (place token)) tokens ->
  in_text_order (tokens ++ [token]).
Proof.
  induction 1 as [|t later Hlater Hsorted IH]; intros Hall.
  - cbn. constructor; constructor.
  - apply Forall_cons in Hall as [Ht Hall]. cbn [app]. constructor.
    + apply Forall_app. split; [exact Hlater|]. constructor; [exact Ht|constructor].
    + apply IH, Hall.
Qed.

Lemma scan_in_text_order m fuel (s : list ascii) line column result tokens :
  in_text_order result ->
  Forall (fun t => place_lt (place t) (line, column)) result ->
  scan m fuel s line column result = Lexed tokens ->
  in_text_order tokens.
Proof.
  revert s line column result.
  induction fuel as [|fuel IH]; intros s line column result Hsorted Hbefore;
    rewrite scan_unfold, skip_whitespace_spec;
    pose proof (position_after_le line column (firstn (span isspace s) s)) as Hle;
    destruct (position_after line column (firstn (span isspace s) s)) as [line' column'];
    cbn [fst snd];
    assert (Hbefore' : Forall (fun t => place_lt (place t) (line', column')) result)
      by (eapply Forall_impl; [exact Hbefore|];
          intros t Ht; eapply place_lt_le_trans; [exact Ht|exact Hle]);
    destruct (skipn (span isspace s) s) as [|c tail];
    try (intros [= <-]; apply in_text_order_snoc; assumption);
    destruct (first_match (patterns m) (c :: tail)) as [[token_type n]|] eqn:Hm;
    try discriminate.
  cbv beta iota zeta. apply first_match_bounded in Hm as [Hn _].
  assert (Hstep : place_lt (line', column') (line', column' + n))
    by (right; cbn; lia).
  assert (Hbefore'' : Forall (fun t => place_lt (place t) (line', column' + n)) result).
  { eapply Forall_impl; [exact Hbefore'|].
    intros t Ht. eapply place_lt_le_trans; [exact Ht|right; exact Hstep]. }
  apply IH.
  - destruct token_type; try exact Hsorted; apply in_text_order_snoc; assumption.
  - destruct token_type; try exact Hbefore'';
      (apply Forall_app; split; [exact Hbefore''|]; constructor; [exact Hstep|constructor]).
Qed.

(** X1: the tokens that tokenize returns stand in strictly increasing
    (line, column) order: every token is placed before every later one, the
    END_OF_FILE token included. *)
Theorem tokens_in_text_order (m : bool) (text : string) (tokens : list Token) :
  tokenize m text = Lexed tokens -> in_text_order tokens.
Proof. apply scan_in_text_order; constructor. Qed.

Lemma tokens_in_text_order_witness :
  in_text_order
    [ mkToken IDENTIFIER "a" 1 1; mkToken PUNCTUATION "=" 1 3; mkToken NUMBER "1" 2 1;
      mkToken END_OF_FILE "" 2 2 ].
Proof.
  apply (tokens_in_text_order false "a =
1"). reflexivity.
Defined.

(** *** The shape of the stream *)

(** A token that stands for a lexeme: its type is one a pattern has, other
    than COMMENT, and its text is not empty. *)
Definition lexeme_token (token : Token) : Prop :=
  In (type token)
    [INCLUDE; ENV_VAR; STRING; NUMBER; BOOLEAN; ENUM_KW; NULL_KW; OPERATOR;
     NAMESPACE; IDENTIFIER; PUNCTUATION]
  /\ value token <> "".

Lemma first_match_type m (s : list ascii) (token_type : TokenType) (n : nat) :
  first_match (patterns m) s = Some (token_type, n) ->
  In token_type (List.map snd (patterns m)).
Proof.
  generalize (patterns m). intros ps.
  induction ps as [|[pattern ty] later IH]; cbn [first_match]; [discriminate|].
  destruct (pattern s); [intros [= <- _]; left; reflexivity|].
  intros H. right. apply IH, H.
Qed.

Lemma lexeme_not_empty (s : list ascii) (n : nat) :
  1 <= n <= List.length s -> string_of_list_ascii (firstn n s) <> "".
Proof.
  intros [Hn Hs]. destruct n; [lia|]. destruct s; [cbn in Hs; lia|]. discriminate.
Qed.

Lemma scan_shape m fuel (s : list ascii) line column result tokens :
  Forall lexeme_token result ->
  scan m fuel s line column result = Lexed tokens ->
  exists body last_line last_column,
    tokens = body ++ [mkToken END_OF_FILE "" last_line last_column]
    /\ Forall lexeme_token body.
Proof.
  revert s line column result.
  induction fuel as [|fuel IH]; intros s line column result Hresult;
    rewrite scan_unfold, skip_whitespace_spec;
    destruct (skipn (span isspace s) s) as [|c tail] eqn:Hs;
    try (intros [= <-]; eexists result, _, _; split; [reflexivity|exact Hresult]);
    destruct (first_match (patterns m) (c :: tail)) as [[token_type n]|] eqn:Hm;
    try discriminate.
  cbv beta iota zeta. intros H.
  pose proof (first_match_bounded _ _ _ _ Hm) as Hn.
  pose proof (first_match_type _ _ _ _ Hm) as Hty.
  apply IH in H; [exact H|].
  destruct token_type; try exact Hresult;
    try (exfalso; cbn in Hty;
         repeat (destruct Hty as [Hty|Hty]; try discriminate Hty); exact Hty);
    (apply Forall_app; split; [exact Hresult|]; constructor; [|constructor];
     split; [cbn; auto 15|apply lexeme_not_empty, Hn]).
Qed.

(** X2: a lexed text yields lexeme tokens followed by exactly one
    END_OF_FILE token: no token has the type COMMENT, WHITESPACE or
    END_OF_FILE before the last one, and only the last one has an empty
    text. *)
Theorem tokens_end_with_eof (m : bool) (text : string) (tokens : list Token) :
  tokenize m text = Lexed tokens ->
  exists body last_line last_column,
    tokens = body ++ [mkToken END_OF_FILE "" last_line last_column]
    /\ Forall lexeme_token body.
Proof. apply scan_shape. constructor. Qed.

Lemma tokens_end_with_eof_witness :
  exists body last_line last_column,
    [ mkToken IDENTIFIER "a" 1 1; mkToken END_OF_FILE "" 1 7 ]
    = body ++ [mkToken END_OF_FILE "" last_line last_column]
    /\ Forall lexeme_token body.
Proof.
  apply (tokens_end_with_eof false "a // c"). reflexivity.
Defined.

(** *** White space only *)

Lemma span_all (p : ascii -> bool) (s : list ascii) :
  forallb p s = true -> span p s = List.length s.
Proof.
  induction s as [|c s IH]; [reflexivity|]. cbn [forallb span List.length].
  intros H. apply andb_prop in H as [-> H]. now rewrite IH.
Qed.

(** A text of white space only, the empty text included, is lexed to the
    END_OF_FILE token alone, placed after the text. *)
Lemma tokenize_whitespace m (text : string) :
  forallb isspace (list_ascii_of_string text) = true ->
  tokenize m text
  = Lexed [mkToken END_OF_FILE ""
             (fst (position_after 1 1 (list_ascii_of_string text)))
             (snd (position_after 1 1 (list_ascii_of_string text)))].
Proof.
  intros H. unfold tokenize. rewrite scan_unfold, skip_whitespace_spec.
  rewrite span_all by exact H. rewrite skipn_all, firstn_all. reflexivity.
Qed.

End TokenStream.

(** ** What [cfgpp_parse_string] yields *)

Module ParseResults.

Import StdString Lexer Parser LexerFacts ParserFacts TokenStream.

#[local] Open Scope nat_scope.

(** *** Texts that hold no value *)

(** X3: a text of white space only, the empty text included, is lexed to
    the END_OF_FILE token alone, placed where the text ends, and
    cfgpp_parse_string returns CFGPP_ERROR_INVALID_SYNTAX on it. *)
Theorem whitespace_text_is_invalid (m : bool) (stod_throws : string -> bool)
    (text : string) :
  forallb isspace (list_ascii_of_string text) = true ->
  tokenize m text
  = Lexed [mkToken END_OF_FILE ""
             (fst (position_after 1 1 (list_ascii_of_string text)))
             (snd (position_after 1 1 (list_ascii_of_string text)))]
  /\ cfgpp_parse_string m stod_throws text = Some (Api CFGPP_ERROR_INVALID_SYNTAX None).
Proof.
  intros H. pose proof (tokenize_whitespace m text H) as Hlex.
  split; [exact Hlex|]. unfold cfgpp_parse_string. rewrite Hlex. reflexivity.
Qed.

Lemma whitespace_text_is_invalid_witness :
  tokenize false " 
  " = Lexed [mkToken END_OF_FILE "" 2 3]
  /\ cfgpp_parse_string false (fun _ => false) " 
  " = Some (Api CFGPP_ERROR_INVALID_SYNTAX None).
Proof.
  apply (whitespace_text_is_invalid false (fun _ => false) " 
  "). reflexivity.
Defined.

(** The tokens already emitted stay at the front of the result. *)
Lemma scan_prefix m fuel (s : list ascii) line column result tokens :
  scan m fuel s line column result = Lexed tokens ->
  exists more, tokens = result ++ more.
Proof.
  revert s line column result.
  induction fuel as [|fuel IH]; intros s line column result;
    rewrite scan_unfold, skip_whitespace_spec;
    destruct (skipn (span isspace s) s) as [|c tail];
    try (intros [= <-]; eexists; reflexivity);
    destruct (first_match (patterns m) (c :: tail)) as [[token_type n]|];
    try discriminate.
  cbv beta iota zeta. intros H. apply IH in H as [more ->].
  destruct token_type; try (exists more; reflexivity);
    rewrite <- app_assoc; eexists; reflexivity.
Qed.

(** The first token of a text that starts, at a character that is no
    white space, with a lexeme of [n] characters. *)
Lemma tokenize_first_token m (text : string) (c : ascii) (tail : list ascii)
    (token_type : TokenType) (n : nat) :
  list_ascii_of_string text = c :: tail ->
  isspace c = false ->
  first_match (patterns m) (c :: tail) = Some (token_type, n) ->
  token_type <> COMMENT ->
  (exists error line column, tokenize m text = LexError error line column)
  \/ exists more,
       tokenize m text
       = Lexed (mkToken token_type (string_of_list_ascii (firstn n (c :: tail))) 1 1 :: more).
Proof.
  intros Htext Hspace Hm Hcomment.
  pose proof (tokenize_total m text) as Htotal.
  unfold tokenize in *. rewrite Htext in *.
  assert (Hlen : String.length text = S (List.length tail))
    by (rewrite <- string_length_list, Htext; reflexivity).
  rewrite Hlen in *. rewrite scan_unfold, skip_whitespace_spec in *.
  cbn [span] in *. rewrite Hspace in *. cbn [skipn firstn position_after fst snd] in *.
  rewrite Hm in *. cbv beta iota zeta in *.
  match goal with
  | |- context [scan m ?f ?s1 ?l1 ?c1 ?r1] => destruct (scan m f s1 l1 c1 r1) eqn:Hscan
  end.
  - right. apply scan_prefix in Hscan as [more ->].
    destruct token_type; try congruence; eexists; reflexivity.
  - left. eauto.
  - congruence.
Qed.



(** The words that the lexer takes from the front of a text before it
    tries IDENTIFIER, with the value the parser makes of each. *)
Definition keyword_values : list (string * CfgppValue) :=
  [("true", VBoolean true); ("false", VBoolean false); ("null", VNull)].

Lemma list_ascii_of_append (a b : string) :
  list_ascii_of_string (a +:+ b) = list_ascii_of_string a ++ list_ascii_of_string b.
Proof.
  induction a as [|c a IH]; [reflexivity|].
  change (c :: list_ascii_of_string (a +:+ b)
          = c :: (list_ascii_of_string a ++ list_ascii_of_string b)).
  f_equal. exact IH.
Qed.

(** A word that the patterns take whole from the front of any text. *)
Lemma word_prefix_parses m stod_throws (word rest : string) (c : ascii) (tail : list ascii)
    (token_type : TokenType) (v : CfgppValue) (tokens : list Token) :
  list_ascii_of_string word = c :: tail ->
  isspace c = false ->
  token_type <> COMMENT ->
  (forall after,
     first_match (patterns m) (list_ascii_of_string word ++ after)
     = Some (token_type, String.length word)) ->
  (forall more fuel,
     parse_value stod_throws (mkToken token_type word 1 1 :: more) (S fuel) 0 = Value v 1) ->
  tokenize m (word +:+ rest) = Lexed tokens ->
  cfgpp_parse_string m stod_throws (word +:+ rest) = Some (Api CFGPP_SUCCESS (Some v)).
Proof.
  intros Hword Hspace Hcomment Hm Hvalue Hlex.
  destruct (tokenize_first_token m (word +:+ rest) c (tail ++ list_ascii_of_string rest)
              token_type (String.length word))
    as [(error & line & column & Herr)|[more Hmore]]; try assumption.
  - rewrite list_ascii_of_append, Hword. reflexivity.
  - rewrite app_comm_cons, <- Hword. apply Hm.
  - congruence.
  - rewrite app_comm_cons, <- Hword in Hmore.
    rewrite <- string_length_list, firstn_length_app,
      string_of_list_ascii_of_string in Hmore.
    eapply cfgpp_parse_string_value; [exact Hmore|]. apply (Hvalue more 0).
Qed.

(** X4: a text that starts with true, false or null and that the lexer
    accepts parses to Boolean true, Boolean false or Null, whatever follows
    the word, be it letters that would make a longer identifier (trueish,
    nullable). *)
Theorem keyword_prefix_is_a_value (m : bool) (stod_throws : string -> bool)
    (word rest : string) (v : CfgppValue) (tokens : list Token) :
  In (word, v) keyword_values ->
  tokenize m (word +:+ rest) = Lexed tokens ->
  cfgpp_parse_string m stod_throws (word +:+ rest) = Some (Api CFGPP_SUCCESS (Some v)).
Proof.
  intros Hword Hlex. cbn [keyword_values In] in Hword.
  destruct Hword as [H|[H|[H|[]]]]; injection H as <- <-.
  - eapply (word_prefix_parses m stod_throws "true" rest _ _ BOOLEAN);
      [reflexivity|reflexivity|discriminate|intros; destruct m; reflexivity
      |reflexivity|exact Hlex].
  - eapply (word_prefix_parses m stod_throws "false" rest _ _ BOOLEAN);
      [reflexivity|reflexivity|discriminate|intros; destruct m; reflexivity
      |reflexivity|exact Hlex].
  - eapply (word_prefix_parses m stod_throws "null" rest _ _ NULL_KW);
      [reflexivity|reflexivity|discriminate|intros; destruct m; reflexivity
      |reflexivity|exact Hlex].
Qed.

Lemma keyword_prefix_is_a_value_witness :
  cfgpp_parse_string false (fun _ => false) "nullable = 1"
  = Some (Api CFGPP_SUCCESS (Some VNull)).
Proof.
  apply (keyword_prefix_is_a_value false (fun _ => false) "null" "able = 1" VNull
           [ mkToken NULL_KW "null" 1 1; mkToken IDENTIFIER "able" 1 5;
             mkToken PUNCTUATION "=" 1 10; mkToken NUMBER "1" 1 12;
             mkToken END_OF_FILE "" 1 13 ]).
  - right. right. left. reflexivity.
  - reflexivity.
Defined.





(** *** Integers *)

Lemma first_match_pattern (ps : list ((list ascii -> option nat) * TokenType))
    (s : list ascii) (token_type : TokenType) (n : nat) :
  first_match ps s = Some (token_type, n) ->
  exists pattern, In (pattern, token_type) ps /\ pattern s = Some n.
Proof.
  induction ps as [|[pattern ty] later IH]; cbn [first_match]; [discriminate|].
  destruct (pattern s) as [k|] eqn:Hk.
  - intros [= <- <-]. exists pattern. split; [left; reflexivity|exact Hk].
  - intros H. destruct (IH H) as (p & Hin & Hp). exists p. split; [right; exact Hin|exact Hp].
Qed.

(** A NUMBER lexeme starts with a digit. *)
Definition number_token (token : Token) : Prop :=
  type token = NUMBER ->
  exists d rest, value token = String d rest /\ is_digit d = true.

Lemma number_lexeme m (s : list ascii) (n : nat) :
  first_match (patterns m) s = Some (NUMBER, n) ->
  exists d rest, string_of_list_ascii (firstn n s) = String d rest /\ is_digit d = true.
Proof.
  intros Hm. pose proof (first_match_bounded _ _ _ _ Hm) as [Hn _].
  apply first_match_pattern in Hm as (pattern & Hin & Hp).
  assert (pattern = match_number) as ->.
  { cbn in Hin. repeat (destruct Hin as [Hin|Hin]; [congruence|]). destruct Hin. }
  unfold match_number in Hp. destruct s as [|d tail]; [discriminate|].
  cbn [span] in Hp. destruct (is_digit d) eqn:Hd; [|discriminate].
  destruct n; [lia|]. cbn. eauto.
Qed.

Lemma scan_number_tokens m fuel (s : list ascii) line column result tokens :
  Forall number_token result ->
  scan m fuel s line column result = Lexed tokens ->
  Forall number_token tokens.
Proof.
  revert s line column result.
  induction fuel as [|fuel IH]; intros s line column result Hresult;
    rewrite scan_unfold, skip_whitespace_spec;
    destruct (skipn (span isspace s) s) as [|c tail];
    try (intros [= <-]; apply Forall_app; split;
         [exact Hresult|repeat constructor; discriminate]);
    destruct (first_match (patterns m) (c :: tail)) as [[token_type n]|] eqn:Hm;
    try discriminate.
  apply IH. destruct token_type; try exact Hresult;
    (apply Forall_app; split; [exact Hresult|]; constructor; [|constructor];
     intros Htype; try discriminate Htype).
  cbn [value]. apply (number_lexeme m), Hm.
Qed.

Lemma decimal_value_nonneg (acc : Z) (ds : list ascii) :
  (0 <= acc)%Z -> (0 <= decimal_value acc ds)%Z.
Proof.
  revert acc. induction ds as [|d ds IH]; intros acc Hacc; [exact Hacc|].
  cbn [decimal_value]. apply IH. lia.
Qed.

(** [std::stoll] on a text that starts with a digit. *)
Lemma stoll_digit_start (d : ascii) (rest : string) (i : Z) :
  is_digit d = true -> stoll (String d rest) = Some i -> (0 <= i <= 2 ^ 63 - 1)%Z.
Proof.
  intros Hd. unfold stoll. cbn [list_ascii_of_string span].
  assert (isspace d = false) as -> by (each_digit d Hd ltac:(reflexivity)).
  cbn [skipn].
  assert (Ascii.eqb d "-" = false) as -> by (each_digit d Hd ltac:(reflexivity)).
  assert (Ascii.eqb d "+" = false) as -> by (each_digit d Hd ltac:(reflexivity)).
  destruct (firstn _ _) as [|d0 ds]; [discriminate|].
  pose proof (decimal_value_nonneg 0 (d0 :: ds) ltac:(lia)) as Hpos.
  destruct (_ && _) eqn:Hrange; [|discriminate].
  intros [= <-]. apply andb_prop in Hrange as [_ Hmax]. apply Z.leb_le in Hmax.
  change (decimal_value (10 * 0 + Z.of_nat (code d0 - 48)) ds)
    with (decimal_value 0 (d0 :: ds)).
  lia.
Qed.

(** What each loop returns, when it returns a value. *)
Lemma loops_shape stod_throws (tokens : list Token) (fuel : nat) :
  (forall pos map v pos',
     object_fields stod_throws tokens fuel pos map = Value v pos' ->
     exists map', v = VObject map')
  /\ (forall pos vec v pos',
        array_elements stod_throws tokens fuel pos vec = Value v pos' ->
        exists vec', v = VArray vec').
Proof.
  induction fuel as [|fuel (IHo & IHa)]; [split; intros; discriminate|].
  split.
  - intros pos map v pos'. rewrite object_fields_S.
    destruct (nth_error tokens pos) as [token|]; [|discriminate].
    destruct (String.eqb (value token) "}"); [intros [= <- _]; eauto|].
    destruct (type token); try discriminate.
    destruct (value_at tokens (S pos) "="); [|discriminate].
    destruct (parse_value _ _ fuel (S (S pos))); try discriminate. apply IHo.
  - intros pos vec v pos'. rewrite array_elements_S.
    destruct (nth_error tokens pos) as [token|]; [|discriminate].
    destruct (String.eqb (value token) "]"); [intros [= <- _]; eauto|].
    destruct (parse_value _ _ fuel pos); try discriminate. apply IHa.
Qed.

(** X6: the parser makes no negative Integer: on the tokens of a lexed
    text, every Integer that parse_value yields, at whatever position and
    depth, lies between 0 and 9223372036854775807; so does the Integer of
    a successful cfgpp_parse_string. *)
Theorem parsed_integer_is_not_negative (m : bool) (stod_throws : string -> bool)
    (text : string) (tokens : list Token) :
  tokenize m text = Lexed tokens ->
  (forall fuel pos i pos',
     parse_value stod_throws tokens fuel pos = Value (VInteger i) pos' ->
     (0 <= i <= 2 ^ 63 - 1)%Z)
  /\ (forall i,
        cfgpp_parse_string m stod_throws text = Some (Api CFGPP_SUCCESS (Some (VInteger i))) ->
        (0 <= i <= 2 ^ 63 - 1)%Z).
Proof.
  intros Hlex.
  assert (Hnumbers : Forall number_token tokens)
    by (eapply scan_number_tokens; [constructor|exact Hlex]).
  assert (Hvalue : forall fuel pos i pos',
             parse_value stod_throws tokens fuel pos = Value (VInteger i) pos' ->
             (0 <= i <= 2 ^ 63 - 1)%Z).
  { intros [|fuel] pos i pos'; [discriminate|]. rewrite parse_value_S.
    destruct (loops_shape stod_throws tokens fuel) as [Ho Ha].
    assert (Hobject : parse_object_with tokens (object_fields stod_throws tokens fuel) pos
                      <> Value (VInteger i) pos').
    { rewrite parse_object_with_unfold.
      destruct (value_at tokens (after_name tokens pos) "{"); [|discriminate].
      intros H. apply Ho in H as [? H]. discriminate. }
    assert (Harray : parse_array_with tokens (array_elements stod_throws tokens fuel) pos
                     <> Value (VInteger i) pos').
    { unfold parse_array_with. destruct (value_at tokens pos "["); [|discriminate].
      intros H. apply Ha in H as [? H]. discriminate. }
    destruct (nth_error tokens pos) as [token|] eqn:Htoken; [|discriminate].
    destruct (type token) eqn:Htype; try discriminate.
    - destruct (value_at tokens (S pos) "{"); [intros H; destruct (Hobject H)|discriminate].
    - destruct (strip_quotes (value token)); discriminate.
    - destruct (is_double_literal (value token)).
      + destruct (stod_throws (value token)); discriminate.
      + destruct (stoll (value token)) as [j|] eqn:Hstoll; [|discriminate].
        intros [= <- _]. apply nth_error_In in Htoken.
        rewrite Forall_forall in Hnumbers.
        destruct (Hnumbers token) as (d & rest & Hv & Hd);
          [apply list_elem_of_In, Htoken|exact Htype|].
        rewrite Hv in Hstoll. eapply stoll_digit_start; eassumption.
    - destruct (String.eqb (value token) "{"); [intros H; destruct (Hobject H)|].
      destruct (String.eqb (value token) "["); [intros H; destruct (Harray H)|discriminate]. }
  split; [exact Hvalue|].
  intros i. unfold cfgpp_parse_string. rewrite Hlex. cbn [returned_tokens].
  destruct tokens as [|first more]; [discriminate|].
  destruct (parse_value _ _ _ 0) as [v pos| | |] eqn:Hv; try discriminate.
  intros [= ->]. eapply Hvalue, Hv.
Qed.

Lemma parsed_integer_is_not_negative_witness :
  (forall fuel pos i pos',
     parse_value (fun _ => false)
       [mkToken NUMBER "42" 1 1; mkToken END_OF_FILE "" 1 3] fuel pos
     = Value (VInteger i) pos' ->
     (0 <= i <= 2 ^ 63 - 1)%Z)
  /\ (forall i,
        cfgpp_parse_string false (fun _ => false) "42"
        = Some (Api CFGPP_SUCCESS (Some (VInteger i))) ->
        (0 <= i <= 2 ^ 63 - 1)%Z).
Proof.
  apply (parsed_integer_is_not_negative false (fun _ => false) "42"). reflexivity.
Defined.

(** The number that a run of decimal digits denotes, most significant
    digit first. *)
Fixpoint digits_value (ds : list ascii) : Z :=
  match ds with
  | [] => 0
  | d :: rest =>
    (Z.of_nat (code d - 48) * 10 ^ Z.of_nat (List.length rest) + digits_value rest)%Z
  end.

Lemma decimal_value_digits (acc : Z) (ds : list ascii) :
  decimal_value acc ds = (acc * 10 ^ Z.of_nat (List.length ds) + digits_value ds)%Z.
Proof.
  revert acc. induction ds as [|d ds IH]; intros acc.
  - cbn. lia.
  - cbn [decimal_value digits_value List.length]. rewrite IH.
    rewrite Nat2Z.inj_succ, Z.pow_succ_r by lia. lia.
Qed.

Lemma stoll_digits (ds : list ascii) :
  digits ds = true ->
  stoll (string_of_list_ascii ds)
  = if (digits_value ds <=? 2 ^ 63 - 1)%Z then Some (digits_value ds) else None.
Proof.
  intros H. apply digits_spec in H as (Hall & d & tail & -> & Hd).
  unfold stoll. rewrite list_ascii_of_string_of_list_ascii.
  cbn [span].
  assert (isspace d = false) as -> by (each_digit d Hd ltac:(reflexivity)).
  cbn [skipn].
  assert (Ascii.eqb d "-" = false) as -> by (each_digit d Hd ltac:(reflexivity)).
  assert (Ascii.eqb d "+" = false) as -> by (each_digit d Hd ltac:(reflexivity)).
  rewrite (span_all is_digit (d :: tail)) by exact Hall. rewrite firstn_all.
  rewrite decimal_value_digits. rewrite Z.mul_0_l, Z.add_0_l.
  pose proof (decimal_value_nonneg 0 (d :: tail) ltac:(lia)) as Hpos.
  rewrite decimal_value_digits, Z.mul_0_l, Z.add_0_l in Hpos.
  destruct (Z.leb_spec (- 2 ^ 63) (digits_value (d :: tail))); [reflexivity|lia].
Qed.

(** X7: a text of decimal digits parses to the Integer that the digits
    denote when that number is at most 9223372036854775807; above it the
    conversion throws and cfgpp_parse_string returns
    CFGPP_ERROR_MEMORY_ERROR, not a syntax error. *)
Theorem decimal_text_parses_to_its_value (m : bool) (stod_throws : string -> bool)
    (ds : list ascii) :
  digits ds = true ->
  cfgpp_parse_string m stod_throws (string_of_list_ascii ds)
  = Some (if (digits_value ds <=? 2 ^ 63 - 1)%Z
          then Api CFGPP_SUCCESS (Some (VInteger (digits_value ds)))
          else Api CFGPP_ERROR_MEMORY_ERROR None).
Proof.
  intros H.
  assert (Hwf : well_formed_number ds None None = true)
    by (unfold well_formed_number; rewrite H; reflexivity).
  pose proof (tokenize_number_text m _ _ _ Hwf) as Hlex.
  pose proof (is_double_literal_text _ _ _ Hwf) as Hdouble.
  unfold number_text in *. cbn [fraction_text exponent_text app] in *.
  rewrite app_nil_r in *.
  unfold cfgpp_parse_string. rewrite Hlex. cbn [returned_tokens].
  unfold enough_fuel. cbn [List.length Nat.mul Nat.add].
  rewrite parse_value_S. cbn [nth_error type value]. rewrite Hdouble, stoll_digits by exact H.
  destruct (_ <=? _)%Z; reflexivity.
Qed.

Lemma decimal_text_parses_to_its_value_witness :
  cfgpp_parse_string false (fun _ => false) "9223372036854775808"
  = Some (Api CFGPP_ERROR_MEMORY_ERROR None).
Proof.
  apply (decimal_text_parses_to_its_value false (fun _ => false)
           (list_ascii_of_string "9223372036854775808")).
  reflexivity.
Defined.

(** *** String literals *)

(** The inside of a string literal: characters other than the double quote
    and the backslash, and backslashes followed by one character that is
    no line terminator. *)
Inductive literal_body : list ascii -> Prop :=
| body_end : literal_body []
| body_char (c : ascii) (rest : list ascii) :
    c <> dquote -> c <> "\"%char -> literal_body rest -> literal_body (c :: rest)
| body_escape (c : ascii) (rest : list ascii) :
    is_line_terminator c = false -> literal_body rest ->
    literal_body ("\"%char :: c :: rest).

Lemma string_body_literal (body rest : list ascii) :
  literal_body body ->
  string_body (body ++ dquote :: rest) = Some (S (List.length body)).
Proof.
  induction 1 as [|c tail Hq Hb _ IH|c tail Hc _ IH].
  - reflexivity.
  - cbn [app string_body List.length].
    destruct (Ascii.eqb_spec c dquote) as [?|_]; [contradiction|].
    destruct (Ascii.eqb_spec c "\") as [?|_]; [contradiction|].
    rewrite IH. reflexivity.
  - cbn [app string_body List.length]. cbn [Ascii.eqb Bool.eqb dquote andb].
    rewrite Hc, IH. reflexivity.
Qed.

Lemma first_match_quote m (rest : list ascii) (k : nat) :
  string_body rest = Some k ->
  first_match (patterns m) (dquote :: rest) = Some (STRING, S k).
Proof.
  intros H. unfold patterns. cbn [first_match].
  assert (match_comment m (dquote :: rest) = None) as -> by (destruct m; reflexivity).
  assert (match_include (dquote :: rest) = None) as -> by reflexivity.
  assert (match_env_var (dquote :: rest) = None) as -> by reflexivity.
  unfold match_string. cbn [Ascii.eqb Bool.eqb dquote andb]. rewrite H. reflexivity.
Qed.

Lemma substring_prefix (a b : list ascii) :
  String.substring 0 (List.length a) (string_of_list_ascii (a ++ b))
  = string_of_list_ascii a.
Proof. induction a as [|c a IH]; [destruct b; reflexivity|]. cbn. now rewrite IH. Qed.

(** X8: a text that starts with a string literal and that the lexer
    accepts parses to the String that holds the characters between the
    quotes of the literal exactly as written, whatever follows the
    closing quote: a backslash and the character after it are both kept
    (escape sequences are not decoded), and a literal may span lines. *)
Theorem string_literal_is_kept_verbatim (m : bool) (stod_throws : string -> bool)
    (body rest : list ascii) (tokens : list Token) :
  literal_body body ->
  tokenize m (string_of_list_ascii (dquote :: body ++ dquote :: rest)) = Lexed tokens ->
  cfgpp_parse_string m stod_throws (string_of_list_ascii (dquote :: body ++ dquote :: rest))
  = Some (Api CFGPP_SUCCESS (Some (VString (string_of_list_ascii body)))).
Proof.
  intros Hbody Hlex. pose proof (string_body_literal body rest Hbody) as Hsb.
  pose proof (first_match_quote m _ _ Hsb) as Hm.
  destruct (tokenize_first_token m
              (string_of_list_ascii (dquote :: body ++ dquote :: rest))
              dquote (body ++ dquote :: rest) STRING (S (S (List.length body))))
    as [(error & line & column & Herr)|[more Hmore]].
  - apply list_ascii_of_string_of_list_ascii.
  - reflexivity.
  - exact Hm.
  - discriminate.
  - congruence.
  - replace (firstn (S (S (List.length body))) (dquote :: body ++ dquote :: rest))
      with (dquote :: body ++ [dquote]) in Hmore.
    2:{ cbn [firstn]. f_equal.
        change (body ++ dquote :: rest) with (body ++ [dquote] ++ rest).
        rewrite app_assoc.
        replace (S (List.length body)) with (List.length (body ++ [dquote]))
          by (rewrite length_app; cbn; lia).
        rewrite firstn_length_app. reflexivity. }
    eapply (cfgpp_parse_string_value m stod_throws _ _ 1); [exact Hmore|].
    rewrite parse_value_S. cbn [nth_error type value].
    unfold strip_quotes. cbn [string_of_list_ascii String.length].
    rewrite list_length_string, length_app. cbn [List.length Nat.eqb Nat.ltb Nat.leb].
    replace (List.length body + 1) with (S (List.length body)) by lia.
    cbn [Nat.leb Nat.sub]. unfold substr.
    cbn [String.substring]. rewrite Nat.sub_0_r, substring_prefix. reflexivity.
Qed.

(** An instance: the literal holds an escaped quote and is followed by a
    comma and a number. *)
Lemma string_literal_is_kept_verbatim_witness :
  cfgpp_parse_string false (fun _ => false)
    (string_of_list_ascii
       (dquote :: ["a"; "\"; dquote; "b"]%char ++ dquote :: [","; "1"]%char))
  = Some (Api CFGPP_SUCCESS (Some (VString (string_of_list_ascii ["a"; "\"; dquote; "b"]%char)))).
Proof.
  apply (string_literal_is_kept_verbatim false (fun _ => false)
           ["a"; "\"; dquote; "b"]%char [","; "1"]%char
           [ mkToken STRING
               (string_of_list_ascii (dquote :: ["a"; "\"; dquote; "b"]%char ++ [dquote])) 1 1;
             mkToken PUNCTUATION "," 1 7; mkToken NUMBER "1" 1 8;
             mkToken END_OF_FILE "" 1 9 ]).
  - apply body_char; [discriminate|discriminate|].
    apply body_escape; [reflexivity|].
    apply body_char; [discriminate|discriminate|]. apply body_end.
  - reflexivity.
Defined.

End ParseResults.

(** ** Numeric literals in a text *)

Module NumberFacts.

Import StdString Lexer Parser LexerFacts ParserFacts TokenStream ParseResults.

#[local] Open Scope nat_scope.

(** What follows a literal and is no part of it.  [no_digit]: the text
    does not start with a digit.  [no_fraction]: it does not start with a
    dot and a digit.  [no_exponent]: it does not start with e or E, an
    optional sign and a digit. *)
Definition no_digit (rest : list ascii) : bool :=
  match rest with
  | d :: _ => negb (is_digit d)
  | [] => true
  end.

Definition no_fraction (rest : list ascii) : bool :=
  match rest with
  | "."%char :: tail => no_digit tail
  | _ => true
  end.

Definition no_exponent (rest : list ascii) : bool :=
  match rest with
  | c :: tail =>
    if Ascii.eqb c "e" || Ascii.eqb c "E" then
      match tail with
      | sign :: tail' =>
        if Ascii.eqb sign "+" || Ascii.eqb sign "-" then no_digit tail'
        else negb (is_digit sign)
      | [] => true
      end
    else true
  | [] => true
  end.

(** The literal ends where [rest] starts: [rest] holds no digit that
    would make the last run of digits longer, no exponent when the literal
    has none, and no fraction when the literal has neither. *)
Definition literal_ends (fraction : option (list ascii))
    (exponent : option (ascii * option ascii * list ascii)) (rest : list ascii) : bool :=
  no_digit rest
  && match exponent with
     | Some _ => true
     | None =>
       no_exponent rest
       && match fraction with
          | Some _ => true
          | None => no_fraction rest
          end
     end.









(** The digits at the head of a text. *)
Lemma digit_run (s : list ascii) :
  exists ds rest,
    s = ds ++ rest /\ forallb is_digit ds = true /\ no_digit rest = true
    /\ (ds = [] -> no_digit s = true).
Proof.
  induction s as [|c s (ds & rest & -> & Hds & Hrest & _)].
  - exists [], []. repeat split; reflexivity.
  - destruct (is_digit c) eqn:Hc.
    + exists (c :: ds), rest. repeat split; try assumption; try discriminate.
      cbn [forallb]. rewrite Hc. exact Hds.
    + exists [], (c :: ds ++ rest). cbn [no_digit]. rewrite Hc. repeat split.
Qed.

Lemma digits_run (ds : list ascii) :
  forallb is_digit ds = true -> ds <> [] -> digits ds = true.
Proof.
  intros Hall Hne. unfold digits. rewrite Hall.
  destruct ds; [congruence|reflexivity].
Qed.

(** The exponent at the head of a text, if there is one. *)
Lemma exponent_split (s : list ascii) :
  no_digit s = true ->
  exists exponent rest,
    s = exponent_text exponent ++ rest
    /\ well_formed_number ["0"]%char None exponent = true
    /\ no_digit rest = true
    /\ match exponent with
       | Some _ => True
       | None => no_exponent rest = true
       end.
Proof.
  intros Hs.
  assert (Hnone : no_exponent s = true ->
                  exists exponent rest,
                    s = exponent_text exponent ++ rest
                    /\ well_formed_number ["0"]%char None exponent = true
                    /\ no_digit rest = true
                    /\ match exponent with
                       | Some _ => True
                       | None => no_exponent rest = true
                       end)
    by (intros H; exists None, s; repeat split; assumption).
  destruct s as [|c tail]; [apply Hnone; reflexivity|].
  destruct (Ascii.eqb c "e" || Ascii.eqb c "E") eqn:Hmarker;
    [|apply Hnone; cbn [no_exponent]; rewrite Hmarker; reflexivity].
  destruct tail as [|sign tail'];
    [apply Hnone; cbn [no_exponent]; rewrite Hmarker; reflexivity|].
  destruct (Ascii.eqb sign "+" || Ascii.eqb sign "-") eqn:Hsign.
  - destruct (digit_run tail') as (ds & rest & -> & Hds & Hrest & Hempty).
    destruct ds as [|d ds].
    + apply Hnone. cbn [no_exponent]. rewrite Hmarker, Hsign. apply Hempty. reflexivity.
    + exists (Some (c, Some sign, d :: ds)), rest. repeat split; [|exact Hrest].
      unfold well_formed_number. rewrite Hmarker, Hsign.
      rewrite (digits_run (d :: ds)) by (exact Hds || discriminate). reflexivity.
  - destruct (digit_run (sign :: tail')) as (ds & rest & Heq & Hds & Hrest & Hempty).
    destruct ds as [|d ds].
    + apply Hnone. cbn [no_exponent]. rewrite Hmarker, Hsign.
      apply (Hempty eq_refl).
    + exists (Some (c, None, d :: ds)), rest. rewrite Heq. repeat split; [|exact Hrest].
      unfold well_formed_number. rewrite Hmarker.
      rewrite (digits_run (d :: ds)) by (exact Hds || discriminate). reflexivity.
Qed.

(** Every text that starts with a digit is a well-formed literal and a
    text that does not make it longer: the NUMBER token of the lexer is
    always such a literal. *)
Lemma number_text_at_digit (d : ascii) (tail : list ascii) :
  is_digit d = true ->
  exists integer fraction exponent rest,
    d :: tail = number_text integer fraction exponent ++ rest
    /\ well_formed_number integer fraction exponent = true
    /\ literal_ends fraction exponent rest = true.
Proof.
  intros Hd.
  destruct (digit_run (d :: tail)) as (integer & rest1 & Htext & Hinteger & Hrest1 & Hempty).
  assert (Hne : integer <> []).
  { intros ->. specialize (Hempty eq_refl). cbn [no_digit] in Hempty.
    rewrite Hd in Hempty. discriminate. }
  pose proof (digits_run integer Hinteger Hne) as Hint. clear Hempty.
  rewrite Htext. clear Htext d tail Hd.
  assert (Hplain : no_fraction rest1 = true ->
                   exists integer' fraction exponent rest,
                     integer ++ rest1 = number_text integer' fraction exponent ++ rest
                     /\ well_formed_number integer' fraction exponent = true
                     /\ literal_ends fraction exponent rest = true).
  { intros Hnofraction.
    destruct (exponent_split rest1 Hrest1) as (exponent & rest & -> & Hwf & Hrest & Hend).
    exists integer, None, exponent, rest. unfold number_text. cbn [fraction_text app].
    rewrite <- app_assoc. split; [reflexivity|]. split.
    - unfold well_formed_number in *. rewrite Hint. exact Hwf.
    - unfold literal_ends. rewrite Hrest. destruct exponent; [reflexivity|].
      rewrite Hend. cbn [exponent_text app] in Hnofraction. rewrite Hnofraction. reflexivity. }
  destruct rest1 as [|c tail]; [apply Hplain; reflexivity|].
  destruct (Ascii.eqb_spec c ".") as [->|Hc];
    [|apply Hplain; destruct c as [[] [] [] [] [] [] [] []]; try reflexivity; congruence].
  destruct (digit_run tail) as (ds & rest2 & -> & Hds & Hrest2 & Hempty).
  destruct ds as [|d ds]; [apply Hplain; apply (Hempty eq_refl)|].
  destruct (exponent_split rest2 Hrest2) as (exponent & rest & -> & Hwf & Hrest & Hend).
  exists integer, (Some (d :: ds)), exponent, rest. unfold number_text.
  split; [rewrite <- !app_assoc; reflexivity|]. split.
  - unfold well_formed_number in *. rewrite Hint.
    rewrite (digits_run (d :: ds)) by (exact Hds || discriminate). exact Hwf.
  - unfold literal_ends. rewrite Hrest. destruct exponent; [reflexivity|].
    rewrite Hend. reflexivity.
Qed.



End NumberFacts.

(** ** The places of the tokens *)

Module TokenPlaces.

Import Lexer LexerFacts TokenStream ParseResults.

#[local] Open Scope nat_scope.









End TokenPlaces.

(** ** Objects and arrays *)

Module Structures.

Import StdString Lexer Parser LexerFacts ParserFacts.

#[local] Open Scope nat_scope.

(** The value of a token that is a value by itself, whatever follows it
    apart from an opening brace after an identifier. *)
Definition scalar_value (stod_throws : string -> bool) (token : Token)
  : option CfgppValue :=
  match type token with
  | STRING => VString <$> strip_quotes (value token)
  | NUMBER =>
    if is_double_literal (value token) then
      if stod_throws (value token) then None
      else Some (VDouble (D_stod (value token)))
    else VInteger <$> stoll (value token)
  | BOOLEAN => Some (VBoolean (String.eqb (value token) "true"))
  | NULL_KW => Some VNull
  | IDENTIFIER => Some (VEnum (value token))
  | _ => None
  end.

(** The texts of the marks that the loops of parse_object and parse_array
    look for. *)
Definition marks : list string := ["{"; "}"; "]"; ","; ";"].

Definition mark_free (token : Token) : Prop := ~ In (value token) marks.

Lemma mark_free_value (token : Token) (mark : string) :
  mark_free token -> In mark marks -> String.eqb (value token) mark = false.
Proof.
  intros Hfree Hmark. destruct (String.eqb_spec (value token) mark) as [Heq|]; [|reflexivity].
  exfalso. apply Hfree. rewrite Heq. exact Hmark.
Qed.

Section Tokens.

Variable stod_throws : string -> bool.

(** A token that may be left out: a separator, or the name of an
    object. *)
Definition separator (s : option Token) : list Token :=
  match s with
  | Some token => [token]
  | None => []
  end.

Definition separator_ok (s : option Token) (mark : string) : Prop :=
  forall token, s = Some token -> value token = mark.

(** One element of an array: a token that is a value by itself, and the
    comma after it if there is one. *)
Definition element : Type := Token * option Token.

Definition element_tokens (e : element) : list Token := fst e :: separator (snd e).

Definition elements_tokens (es : list element) : list Token :=
  List.flat_map element_tokens es.

Definition element_ok (e : element) (v : CfgppValue) : Prop :=
  scalar_value stod_throws (fst e) = Some v /\ mark_free (fst e)
  /\ separator_ok (snd e) ",".

Lemma nth_error_after {A} (before : list A) (x : A) (after : list A) :
  nth_error (before ++ x :: after) (List.length before) = Some x.
Proof. induction before as [|b before IH]; [reflexivity|exact IH]. Qed.

Lemma nth_error_after_next {A} (before : list A) (x : A) (after : list A) :
  nth_error (before ++ x :: after) (S (List.length before)) = nth_error after 0.
Proof. induction before as [|b before IH]; [reflexivity|exact IH]. Qed.

(** A token that is a value by itself is parsed to that value when no
    opening brace follows it. *)
Lemma parse_scalar (tokens : list Token) (fuel pos : nat) (token : Token) (v : CfgppValue) :
  nth_error tokens pos = Some token ->
  scalar_value stod_throws token = Some v ->
  value_at tokens (S pos) "{" = false ->
  parse_value stod_throws tokens (S fuel) pos = Value v (S pos).
Proof.
  intros Htoken Hv Hnext. rewrite parse_value_S, Htoken. unfold scalar_value in Hv.
  destruct (type token); try discriminate Hv.
  - rewrite Hnext. injection Hv as <-. reflexivity.
  - destruct (strip_quotes (value token)); [|discriminate Hv]. injection Hv as <-. reflexivity.
  - destruct (is_double_literal (value token)).
    + destruct (stod_throws (value token)); [discriminate Hv|]. injection Hv as <-.
      reflexivity.
    + destruct (stoll (value token)); [|discriminate Hv]. injection Hv as <-. reflexivity.
  - injection Hv as <-. reflexivity.
  - injection Hv as <-. reflexivity.
Qed.

Lemma value_at_after (before : list Token) (x : Token) (after : list Token)
    (text : string) :
  value_at (before ++ x :: after) (List.length before) text = String.eqb (value x) text.
Proof. unfold value_at. rewrite nth_error_after. reflexivity. Qed.

Lemma value_at_after_next (before : list Token) (x : Token) (after : list Token)
    (text : string) :
  value_at (before ++ x :: after) (S (List.length before)) text
  = match after with
    | next :: _ => String.eqb (value next) text
    | [] => false
    end.
Proof. unfold value_at. rewrite nth_error_after_next. destruct after; reflexivity. Qed.

(** *** Arrays *)

Variable close_bracket : Token.
Hypothesis close_bracket_value : value close_bracket = "]".

(** What follows an element is no brace and, unless it is the element's
    comma, no comma. *)
Lemma after_element (es : list element) (vs : list CfgppValue) (rest : list Token)
    (mark : string) :
  Forall2 element_ok es vs -> In mark marks -> mark <> "]" ->
  match elements_tokens es ++ close_bracket :: rest with
  | next :: _ => String.eqb (value next) mark
  | [] => false
  end = false.
Proof.
  intros Hes Hmark Hclose. destruct Hes as [|[token sep] v es vs (_ & Hfree & _) _].
  - cbn. rewrite close_bracket_value.
    destruct (String.eqb_spec "]" mark) as [<-|]; [contradiction|reflexivity].
  - cbn. apply mark_free_value; assumption.
Qed.

Lemma array_loop (rest : list Token) (es : list element) (vs : list CfgppValue) :
  Forall2 element_ok es vs ->
  forall (before : list Token) (vec : list CfgppValue) (fuel : nat),
    List.length es < fuel ->
    array_elements stod_throws (before ++ elements_tokens es ++ close_bracket :: rest)
      fuel (List.length before) vec
    = Value (VArray (vec ++ vs)) (S (List.length (before ++ elements_tokens es))).
Proof.
  induction 1 as [|[token sep] v es vs (Hv & Hfree & Hsep) Hes IH];
    intros before vec fuel Hfuel.
  - destruct fuel as [|fuel]; [cbn in Hfuel; lia|].
    cbn [elements_tokens flat_map app]. rewrite array_elements_S, nth_error_after.
    rewrite close_bracket_value. cbn [String.eqb Ascii.eqb Bool.eqb].
    rewrite !app_nil_r. reflexivity.
  - destruct fuel as [|[|fuel]]; [cbn in Hfuel; lia..|].
    cbn [List.length] in Hfuel.
    cbn [elements_tokens flat_map].
    fold (elements_tokens es). rewrite <- !app_assoc.
    change (element_tokens (token, sep)) with (token :: separator sep).
    cbn [app]. cbn [snd] in Hsep.
    rewrite array_elements_S, nth_error_after.
    rewrite (mark_free_value token "]" Hfree) by (cbn; tauto).
    set (tokens := before ++ token :: _).
    assert (Hnext : value_at tokens (S (List.length before)) "{" = false).
    { unfold tokens. rewrite value_at_after_next. destruct sep as [comma|].
      - cbn [separator app]. rewrite (Hsep comma eq_refl). reflexivity.
      - cbn [separator app].
        apply (after_element es vs); [assumption|cbn; tauto|discriminate]. }
    rewrite (parse_scalar tokens fuel (List.length before) token v)
      by (unfold tokens; auto using nth_error_after).
    unfold tokens. rewrite value_at_after_next.
    destruct sep as [comma|]; cbn [separator app].
    + rewrite (Hsep comma eq_refl). cbn [String.eqb Ascii.eqb Bool.eqb].
      specialize (IH (before ++ [token; comma]) (vec ++ [v]) (S fuel) ltac:(lia)).
      rewrite length_app in IH. cbn [List.length] in IH.
      replace (List.length before + 2) with (S (S (List.length before))) in IH by lia.
      rewrite <- !app_assoc in IH. cbn [app] in IH. rewrite IH. reflexivity.
    + rewrite (after_element es vs) by (auto; cbn; tauto || discriminate).
      specialize (IH (before ++ [token]) (vec ++ [v]) (S fuel) ltac:(lia)).
      rewrite length_app in IH. cbn [List.length] in IH.
      replace (List.length before + 1) with (S (List.length before)) in IH by lia.
      rewrite <- !app_assoc in IH. cbn [app] in IH. rewrite IH. reflexivity.
Qed.

Variable open_bracket : Token.
Hypothesis open_bracket_type : type open_bracket = PUNCTUATION.
Hypothesis open_bracket_value : value open_bracket = "[".

Lemma array_parses (rest : list Token) (es : list element) (vs : list CfgppValue)
    (fuel : nat) :
  Forall2 element_ok es vs ->
  List.length es + 1 < fuel ->
  parse_value stod_throws (open_bracket :: elements_tokens es ++ close_bracket :: rest)
    fuel 0
  = Value (VArray vs) (List.length (elements_tokens es) + 2).
Proof.
  intros Hes Hfuel. destruct fuel as [|fuel]; [lia|].
  rewrite parse_value_S. cbn [nth_error]. rewrite open_bracket_type, open_bracket_value.
  cbn [String.eqb Ascii.eqb Bool.eqb]. unfold parse_array_with, value_at. cbn [nth_error].
  rewrite open_bracket_value. cbn [String.eqb Ascii.eqb Bool.eqb].
  pose proof (array_loop rest es vs Hes [open_bracket] [] fuel ltac:(lia)) as H.
  cbn [app List.length] in H. rewrite H. f_equal. lia.
Qed.

(** *** Objects *)

(** One field of an object: the key, the equals sign, a token that is a
    value by itself, and the semicolon after it if there is one. *)
Record field : Type := {
  key : Token;
  equals : Token;
  held : Token;
  closed : option Token
}.

Definition field_tokens (f : field) : list Token :=
  key f :: equals f :: held f :: separator (closed f).

Definition fields_tokens (fs : list field) : list Token :=
  List.flat_map field_tokens fs.

Definition field_ok (f : field) (v : CfgppValue) : Prop :=
  type (key f) = IDENTIFIER /\ mark_free (key f)
  /\ value (equals f) = "="
  /\ scalar_value stod_throws (held f) = Some v /\ mark_free (held f)
  /\ separator_ok (closed f) ";".

(** The map after the assignments [map[key] = value], in order. *)
Fixpoint assigned (fs : list field) (vs : list CfgppValue) (map : gmap string CfgppValue)
  : gmap string CfgppValue :=
  match fs, vs with
  | f :: fs, v :: vs => assigned fs vs (<[value (key f) := v]> map)
  | _, _ => map
  end.

Variable close_brace : Token.
Hypothesis close_brace_value : value close_brace = "}".

Lemma after_field (fs : list field) (vs : list CfgppValue) (rest : list Token)
    (mark : string) :
  Forall2 field_ok fs vs -> In mark marks -> mark <> "}" ->
  match fields_tokens fs ++ close_brace :: rest with
  | next :: _ => String.eqb (value next) mark
  | [] => false
  end = false.
Proof.
  intros Hfs Hmark Hclose. destruct Hfs as [|f v fs vs (_ & Hfree & _) _].
  - cbn. rewrite close_brace_value.
    destruct (String.eqb_spec "}" mark) as [<-|]; [contradiction|reflexivity].
  - cbn. apply mark_free_value; assumption.
Qed.

Lemma nth_error_after_second {A} (before : list A) (x y : A) (after : list A) :
  nth_error (before ++ x :: y :: after) (S (S (List.length before))) = nth_error after 0.
Proof. induction before as [|b before IH]; [reflexivity|exact IH]. Qed.

Lemma object_loop (rest : list Token) (fs : list field) (vs : list CfgppValue) :
  Forall2 field_ok fs vs ->
  forall (before : list Token) (map : gmap string CfgppValue) (fuel : nat),
    List.length fs < fuel ->
    object_fields stod_throws (before ++ fields_tokens fs ++ close_brace :: rest)
      fuel (List.length before) map
    = Value (VObject (assigned fs vs map)) (S (List.length (before ++ fields_tokens fs))).
Proof.
  induction 1 as [|f v fs vs (Hkey & Hfree & Hequals & Hv & Hheld & Hsep) Hfs IH];
    intros before map fuel Hfuel.
  - destruct fuel as [|fuel]; [cbn in Hfuel; lia|].
    cbn [fields_tokens flat_map app]. rewrite object_fields_S, nth_error_after.
    rewrite close_brace_value. cbn [String.eqb Ascii.eqb Bool.eqb].
    rewrite !app_nil_r. reflexivity.
  - destruct fuel as [|[|fuel]]; [cbn in Hfuel; lia..|].
    cbn [List.length] in Hfuel.
    cbn [fields_tokens flat_map]. fold (fields_tokens fs). rewrite <- !app_assoc.
    unfold field_tokens at 1 2. cbn [app].
    rewrite object_fields_S, nth_error_after.
    rewrite (mark_free_value (key f) "}" Hfree) by (cbn; tauto).
    rewrite Hkey. rewrite value_at_after_next, Hequals.
    cbn [String.eqb Ascii.eqb Bool.eqb].
    set (tokens := before ++ key f :: _).
    assert (Hat : forall after,
              tokens = (before ++ [key f; equals f]) ++ after ->
              forall n, nth_error tokens (S (S (List.length before)) + n) = nth_error after n).
    { intros after -> n. rewrite nth_error_app2; rewrite length_app; cbn [List.length];
        [f_equal; lia|lia]. }
    assert (Htokens : tokens = (before ++ [key f; equals f])
                               ++ held f :: separator (closed f)
                               ++ fields_tokens fs ++ close_brace :: rest).
    { unfold tokens. rewrite <- app_assoc. reflexivity. }
    specialize (Hat _ Htokens).
    assert (Hheld_at : nth_error tokens (S (S (List.length before))) = Some (held f)).
    { rewrite <- (Nat.add_0_r (S (S _))), Hat. reflexivity. }
    assert (Hnext : forall mark, In mark marks -> mark <> "}" ->
              value_at tokens (S (S (S (List.length before)))) mark
              = match closed f with
                | Some _ => String.eqb ";" mark
                | None => false
                end).
    { intros mark Hmark Hclose. unfold value_at.
      replace (S (S (S (List.length before)))) with (S (S (List.length before)) + 1) by lia.
      rewrite Hat. cbn [nth_error].
      destruct (closed f) as [semicolon|]; cbn [separator app].
      - rewrite (Hsep semicolon eq_refl). reflexivity.
      - pose proof (after_field fs vs rest mark Hfs Hmark Hclose) as Hafter.
        destruct (fields_tokens fs ++ close_brace :: rest); [reflexivity|exact Hafter]. }
    rewrite (parse_scalar tokens fuel (S (S (List.length before))) (held f) v Hheld_at Hv).
    2:{ rewrite Hnext by (cbn; tauto || discriminate). destruct (closed f); reflexivity. }
    rewrite Hnext by (cbn; tauto || discriminate).
    unfold tokens.
    destruct (closed f) as [semicolon|]; cbn [separator app String.eqb Ascii.eqb Bool.eqb].
    + specialize (IH (before ++ [key f; equals f; held f; semicolon])
                    (<[value (key f) := v]> map) (S fuel) ltac:(lia)).
      rewrite length_app in IH. cbn [List.length] in IH.
      replace (List.length before + 4) with (S (S (S (S (List.length before))))) in IH by lia.
      rewrite <- !app_assoc in IH. cbn [app] in IH. rewrite IH. reflexivity.
    + specialize (IH (before ++ [key f; equals f; held f])
                    (<[value (key f) := v]> map) (S fuel) ltac:(lia)).
      rewrite length_app in IH. cbn [List.length] in IH.
      replace (List.length before + 3) with (S (S (S (List.length before)))) in IH by lia.
      rewrite <- !app_assoc in IH. cbn [app] in IH. rewrite IH. reflexivity.
Qed.

Variable open_brace : Token.
Hypothesis open_brace_type : type open_brace = PUNCTUATION.
Hypothesis open_brace_value : value open_brace = "{".

Lemma after_name_identifier (tokens : list Token) (pos : nat) (token : Token) :
  nth_error tokens pos = Some token -> type token = IDENTIFIER ->
  after_name tokens pos = S pos.
Proof.
  intros Htoken Htype. unfold after_name. rewrite Htoken.
  destruct token as [[] ? ? ?]; cbn in Htype; congruence.
Qed.

Lemma after_name_other (tokens : list Token) (pos : nat) (token : Token) :
  nth_error tokens pos = Some token -> type token <> IDENTIFIER ->
  after_name tokens pos = pos.
Proof.
  intros Htoken Htype. unfold after_name. rewrite Htoken.
  destruct token as [[] ? ? ?]; cbn in Htype; congruence.
Qed.

Lemma object_parses (name : option Token) (rest : list Token) (fs : list field)
    (vs : list CfgppValue) (fuel : nat) :
  (forall token, name = Some token -> type token = IDENTIFIER) ->
  Forall2 field_ok fs vs ->
  List.length fs + 1 < fuel ->
  parse_value stod_throws
    (separator name ++ open_brace :: fields_tokens fs ++ close_brace :: rest) fuel 0
  = Value (VObject (assigned fs vs ∅))
      (List.length (separator name) + List.length (fields_tokens fs) + 2).
Proof.
  intros Hname Hfs Hfuel. destruct fuel as [|fuel]; [lia|].
  rewrite parse_value_S, parse_object_with_unfold.
  destruct name as [token|]; cbn [separator app nth_error List.length].
  - rewrite (Hname token eq_refl).
    rewrite (after_name_identifier _ 0 token) by auto.
    unfold value_at. cbn [nth_error].
    rewrite open_brace_value. cbn [String.eqb Ascii.eqb Bool.eqb].
    pose proof (object_loop rest fs vs Hfs [token; open_brace] ∅ fuel ltac:(lia)) as H.
    cbn [app List.length] in H. rewrite H. f_equal. lia.
  - rewrite open_brace_type, open_brace_value. cbn [String.eqb Ascii.eqb Bool.eqb].
    rewrite (after_name_other _ 0 open_brace) by (rewrite ?open_brace_type; auto; discriminate).
    unfold value_at. cbn [nth_error].
    rewrite open_brace_value. cbn [String.eqb Ascii.eqb Bool.eqb].
    pose proof (object_loop rest fs vs Hfs [open_brace] ∅ fuel ltac:(lia)) as H.
    cbn [app List.length] in H. rewrite H. f_equal. lia.
Qed.

End Tokens.

(** The value that the last field with the key [k] holds. *)
Fixpoint last_assigned (k : string) (fs : list field) (vs : list CfgppValue)
  : option CfgppValue :=
  match fs, vs with
  | f :: fs, v :: vs =>
    match last_assigned k fs vs with
    | Some later => Some later
    | None => if String.eqb (value (key f)) k then Some v else None
    end
  | _, _ => None
  end.

Lemma assigned_lookup (k : string) (fs : list field) :
  forall (vs : list CfgppValue) (map : gmap string CfgppValue),
    assigned fs vs map !! k
    = match last_assigned k fs vs with
      | Some v => Some v
      | None => map !! k
      end.
Proof.
  induction fs as [|f fs IH]; intros [|v vs] map; try reflexivity.
  cbn [assigned last_assigned]. rewrite IH.
  destruct (last_assigned k fs vs); [reflexivity|].
  destruct (String.eqb_spec (value (key f)) k) as [->|Hne].
  - apply lookup_insert_eq.
  - apply lookup_insert_ne. exact Hne.
Qed.

(** *** Sample token lists *)

(** The elements of the text [[1, true 3,] x] as the lexer places them. *)
Definition sample_elements : list element :=
  [(mkToken NUMBER "1" 1 2, Some (mkToken PUNCTUATION "," 1 3));
   (mkToken BOOLEAN "true" 1 5, None);
   (mkToken NUMBER "3" 1 10, Some (mkToken PUNCTUATION "," 1 11))].

(** The fields of the text [cfg { rate = 1000; mode = FAST rate = 5 } tail]
    as the lexer places them. *)
Definition sample_fields : list field :=
  [ {| key := mkToken IDENTIFIER "rate" 1 7; equals := mkToken PUNCTUATION "=" 1 12;
       held := mkToken NUMBER "1000" 1 14; closed := Some (mkToken PUNCTUATION ";" 1 18) |};
    {| key := mkToken IDENTIFIER "mode" 1 20; equals := mkToken PUNCTUATION "=" 1 25;
       held := mkToken IDENTIFIER "FAST" 1 27; closed := None |};
    {| key := mkToken IDENTIFIER "rate" 1 32; equals := mkToken PUNCTUATION "=" 1 37;
       held := mkToken NUMBER "5" 1 39; closed := None |} ].

(** Settles that a sample token is none of the marks. *)
Ltac no_mark :=
  let H := fresh in
  intros H; cbn in H;
  repeat match type of H with
         | _ \/ _ => destruct H as [H|H]
         end;
  solve [discriminate H | exact H].

(** Settles that a sample separator is the mark it should be. *)
Ltac right_mark :=
  let token := fresh in
  let H := fresh in
  intros token H; cbn in H; first [discriminate H | injection H as <-; reflexivity].

(** X10: an opening bracket, then tokens that are values by themselves,
    each followed by a comma or not, then a closing bracket: parse_value
    yields the Array of the tokens' values in the order of the text,
    whether or not a comma stands after an element, the last one
    included, and whatever tokens follow the closing bracket. *)
Theorem array_holds_its_elements_in_order (stod_throws : string -> bool)
    (open_bracket close_bracket : Token) (es : list element)
    (vs : list CfgppValue) (rest : list Token) (fuel : nat) :
  type open_bracket = PUNCTUATION -> value open_bracket = "[" ->
  value close_bracket = "]" ->
  Forall2 (element_ok stod_throws) es vs ->
  List.length es + 1 < fuel ->
  parse_value stod_throws
    (open_bracket :: elements_tokens es ++ close_bracket :: rest) fuel 0
  = Value (VArray vs) (List.length (elements_tokens es) + 2).
Proof.
  intros Htype Hopen Hclose Hes Hfuel.
  apply array_parses; assumption.
Qed.

Lemma array_holds_its_elements_in_order_witness :
  tokenize false "[1, true 3,] x"
  = Lexed (mkToken PUNCTUATION "[" 1 1
           :: elements_tokens sample_elements
           ++ mkToken PUNCTUATION "]" 1 12
           :: [mkToken IDENTIFIER "x" 1 14; mkToken END_OF_FILE "" 1 15])
  /\ parse_value (fun _ => false)
       (mkToken PUNCTUATION "[" 1 1
        :: elements_tokens sample_elements
        ++ mkToken PUNCTUATION "]" 1 12
        :: [mkToken IDENTIFIER "x" 1 14; mkToken END_OF_FILE "" 1 15]) 5 0
     = Value (VArray [VInteger 1; VBoolean true; VInteger 3])
         (List.length (elements_tokens sample_elements) + 2).
Proof.
  split; [vm_compute; reflexivity|].
  apply (array_holds_its_elements_in_order (fun _ => false)
           (mkToken PUNCTUATION "[" 1 1) (mkToken PUNCTUATION "]" 1 12) sample_elements
           [VInteger 1; VBoolean true; VInteger 3]
           [mkToken IDENTIFIER "x" 1 14; mkToken END_OF_FILE "" 1 15] 5);
    try reflexivity.
  - repeat (apply List.Forall2_cons;
            [split; [vm_compute; reflexivity|split; [no_mark|right_mark]]|]).
    apply List.Forall2_nil.
  - cbn. lia.
Defined.

(** X11: an object name or none, an opening brace, then fields made of an
    identifier key, an equals sign and a token that is a value by itself,
    each followed by a semicolon or not, then a closing brace: parse_value
    yields the same Object with or without the name, which is recorded
    nowhere; the Object holds under each key the value of the last field
    with that key, and nothing under any other key. *)
Theorem object_holds_its_last_assignments (stod_throws : string -> bool)
    (name : option Token) (open_brace close_brace : Token) (fs : list field)
    (vs : list CfgppValue) (rest : list Token) (fuel : nat) :
  (forall token, name = Some token -> type token = IDENTIFIER) ->
  type open_brace = PUNCTUATION -> value open_brace = "{" ->
  value close_brace = "}" ->
  Forall2 (field_ok stod_throws) fs vs ->
  List.length fs + 1 < fuel ->
  exists map,
    parse_value stod_throws
      (separator name ++ open_brace :: fields_tokens fs ++ close_brace :: rest) fuel 0
    = Value (VObject map)
        (List.length (separator name) + List.length (fields_tokens fs) + 2)
    /\ parse_value stod_throws
         (open_brace :: fields_tokens fs ++ close_brace :: rest) fuel 0
       = Value (VObject map) (List.length (fields_tokens fs) + 2)
    /\ forall k, map !! k = last_assigned k fs vs.
Proof.
  intros Hname Htype Hopen Hclose Hfs Hfuel.
  exists (assigned fs vs ∅). split; [|split].
  - apply object_parses; assumption.
  - apply (object_parses stod_throws close_brace Hclose open_brace Htype Hopen None);
      [discriminate|assumption..].
  - intros k. rewrite assigned_lookup.
    destruct (last_assigned k fs vs); [reflexivity|apply lookup_empty].
Qed.

Lemma object_holds_its_last_assignments_witness :
  tokenize false "cfg { rate = 1000; mode = FAST rate = 5 } tail"
  = Lexed (separator (Some (mkToken IDENTIFIER "cfg" 1 1))
           ++ mkToken PUNCTUATION "{" 1 5
           :: fields_tokens sample_fields
           ++ mkToken PUNCTUATION "}" 1 41
           :: [mkToken IDENTIFIER "tail" 1 43; mkToken END_OF_FILE "" 1 47])
  /\ exists map,
       parse_value (fun _ => false)
         (separator (Some (mkToken IDENTIFIER "cfg" 1 1))
          ++ mkToken PUNCTUATION "{" 1 5
          :: fields_tokens sample_fields
          ++ mkToken PUNCTUATION "}" 1 41
          :: [mkToken IDENTIFIER "tail" 1 43; mkToken END_OF_FILE "" 1 47]) 5 0
       = Value (VObject map)
           (List.length (separator (Some (mkToken IDENTIFIER "cfg" 1 1)))
            + List.length (fields_tokens sample_fields) + 2)
       /\ parse_value (fun _ => false)
            (mkToken PUNCTUATION "{" 1 5
             :: fields_tokens sample_fields
             ++ mkToken PUNCTUATION "}" 1 41
             :: [mkToken IDENTIFIER "tail" 1 43; mkToken END_OF_FILE "" 1 47]) 5 0
          = Value (VObject map) (List.length (fields_tokens sample_fields) + 2)
       /\ forall k,
            map !! k
            = last_assigned k sample_fields [VInteger 1000; VEnum "FAST"; VInteger 5].
Proof.
  split; [vm_compute; reflexivity|].
  apply (object_holds_its_last_assignments (fun _ => false)
           (Some (mkToken IDENTIFIER "cfg" 1 1))
           (mkToken PUNCTUATION "{" 1 5) (mkToken PUNCTUATION "}" 1 41) sample_fields
           [VInteger 1000; VEnum "FAST"; VInteger 5]
           [mkToken IDENTIFIER "tail" 1 43; mkToken END_OF_FILE "" 1 47] 5);
    try reflexivity.
  - intros token [= <-]. reflexivity.
  - repeat (apply List.Forall2_cons;
            [split; [reflexivity|split; [no_mark|split; [reflexivity|
               split; [vm_compute; reflexivity|split; [no_mark|right_mark]]]]]|]).
    apply List.Forall2_nil.
  - cbn. lia.
Defined.

End Structures.

(** ** The LabVIEW decoders, further *)

Module DecoderFacts.

Import LabView MockLabView LabViewFacts.

(** *** Stores and loads *)

Lemma byte_of_Z_value (z : Z) : Z.of_N (Byte.to_N (byte_of_Z z)) = z mod 256.
Proof.
  unfold byte_of_Z.
  pose proof (Z.mod_pos_bound z 256 ltac:(lia)) as Hz.
  destruct (Byte.of_N (Z.to_N (z mod 256))) as [b|] eqn:Hb.
  - apply Byte.to_of_N in Hb. rewrite Hb. lia.
  - apply Byte.of_N_None_iff in Hb. lia.
Qed.

Lemma store_le_length (n : nat) (z : Z) : List.length (store_le n z) = n.
Proof. revert z. induction n as [|n IH]; intros z; [reflexivity|]. cbn. f_equal. apply IH. Qed.

(** A store followed by an unsigned load of the same width keeps the value
    modulo the width. *)
Lemma le_unsigned_store (n : nat) (z : Z) :
  le_unsigned (store_le n z) = z mod 256 ^ Z.of_nat n.
Proof.
  revert z. induction n as [|n IH]; intros z.
  - cbn. symmetry. apply Z.mod_1_r.
  - cbn [store_le le_unsigned]. rewrite byte_of_Z_value, IH.
    rewrite Nat2Z.inj_succ, Z.pow_succ_r by lia.
    rewrite Z.rem_mul_r by lia. reflexivity.
Qed.

Lemma to_signed_wrap (n : nat) (v : Z) :
  (0 < n)%nat ->
  - 2 ^ (8 * Z.of_nat n - 1) <= v < 2 ^ (8 * Z.of_nat n - 1) ->
  to_signed n (v mod 256 ^ Z.of_nat n) = v.
Proof.
  intros Hn Hv. unfold to_signed. cbv zeta.
  assert (Hpow : 256 ^ Z.of_nat n = 2 ^ (8 * Z.of_nat n)).
  { change 256 with (2 ^ 8). rewrite <- Z.pow_mul_r by lia. reflexivity. }
  assert (Hhalf : 2 ^ (8 * Z.of_nat n) = 2 * 2 ^ (8 * Z.of_nat n - 1)).
  { rewrite <- Z.pow_succ_r by lia. f_equal. lia. }
  rewrite Hpow.
  destruct (Z.le_gt_cases 0 v) as [Hpos|Hneg].
  - rewrite Z.mod_small by lia.
    destruct (Z.ltb_spec v (2 ^ (8 * Z.of_nat n - 1))); lia.
  - replace (v mod 2 ^ (8 * Z.of_nat n)) with (v + 2 ^ (8 * Z.of_nat n)).
    + destruct (Z.ltb_spec (v + 2 ^ (8 * Z.of_nat n)) (2 ^ (8 * Z.of_nat n - 1))); lia.
    + apply Z.mod_unique with (q := -1); lia.
Qed.

(** The bytes stored at an offset are the bytes loaded from it. *)
Lemma load_bytes_middle (before bs after : list byte) :
  load_bytes (before ++ bs ++ after) (Z.of_nat (List.length before)) (List.length bs)
  = Some bs.
Proof.
  unfold load_bytes.
  destruct (Z.ltb_spec (Z.of_nat (List.length before)) 0); [lia|].
  rewrite Nat2Z.id, drop_app_length, take_app_length, Nat.eqb_refl. reflexivity.
Qed.

(** A load that stays in the readable bytes is not changed by what
    follows them. *)
Lemma load_bytes_extend (mem after : memory) (off : Z) (n : nat) (bs : list byte) :
  load_bytes mem off n = Some bs -> load_bytes (mem ++ after) off n = Some bs.
Proof.
  unfold load_bytes. destruct (off <? 0); [discriminate|].
  destruct (Nat.eqb_spec (List.length (firstn n (skipn (Z.to_nat off) mem))) n) as [Hlen|];
    [|discriminate].
  intros [= <-].
  rewrite length_take, length_drop in Hlen.
  rewrite skipn_app, firstn_app, length_drop.
  replace (n - (List.length mem - Z.to_nat off))%nat with 0%nat by lia.
  rewrite take_0, app_nil_r.
  rewrite length_take, length_drop, Hlen, Nat.eqb_refl. reflexivity.
Qed.

Lemma load_unsigned_extend mem after off n v :
  load_unsigned mem off n = Some v -> load_unsigned (mem ++ after) off n = Some v.
Proof.
  unfold load_unsigned.
  destruct (load_bytes mem off n) as [bs|] eqn:Hbs; [|discriminate].
  rewrite (load_bytes_extend _ after _ _ _ Hbs). auto.
Qed.

Lemma load_signed_extend mem after off n v :
  load_signed mem off n = Some v -> load_signed (mem ++ after) off n = Some v.
Proof.
  unfold load_signed.
  destruct (load_unsigned mem off n) as [u|] eqn:Hu; [|discriminate].
  rewrite (load_unsigned_extend _ after _ _ _ Hu). auto.
Qed.


Lemma load_bytes_shift (before mem : memory) (off : Z) (n : nat) :
  0 <= off ->
  load_bytes (before ++ mem) (Z.of_nat (List.length before) + off) n = load_bytes mem off n.
Proof.
  intros Hoff. unfold load_bytes.
  destruct (Z.ltb_spec (Z.of_nat (List.length before) + off) 0); [lia|].
  destruct (Z.ltb_spec off 0); [lia|].
  replace (Z.to_nat (Z.of_nat (List.length before) + off))
    with (List.length before + Z.to_nat off)%nat by lia.
  rewrite drop_app_add. reflexivity.
Qed.

Lemma load_unsigned_shift before mem off n :
  0 <= off ->
  load_unsigned (before ++ mem) (Z.of_nat (List.length before) + off) n
  = load_unsigned mem off n.
Proof. intros H. unfold load_unsigned. rewrite load_bytes_shift by assumption. reflexivity. Qed.

Lemma header_bytes_length type_code flags data_size dimensions :
  List.length (header_bytes type_code flags data_size dimensions) = 16%nat.
Proof. reflexivity. Qed.

(** The members of a stored header, loaded back. *)
Lemma header_type_code_stored type_code flags data_size dimensions (after : memory) :
  header_type_code (header_bytes type_code flags data_size dimensions ++ after) 0
  = Some (type_code mod 2 ^ 32).
Proof.
  unfold header_type_code, load_unsigned, header_bytes. rewrite <- !app_assoc.
  pose proof (load_bytes_middle [] (store_le 4 type_code)
                (store_le 4 flags ++ store_le 4 data_size ++ store_le 4 dimensions ++ after))
    as H.
  rewrite store_le_length in H.
  change (Z.of_nat (List.length (@nil byte))) with 0 in H. cbn [app] in H.
  rewrite H. cbn [fmap option_fmap option_map]. rewrite le_unsigned_store. reflexivity.
Qed.

Lemma header_data_size_stored type_code flags data_size dimensions (after : memory) :
  header_data_size (header_bytes type_code flags data_size dimensions ++ after) 0
  = Some (data_size mod 2 ^ 32).
Proof.
  unfold header_data_size, load_unsigned, header_bytes. rewrite <- !app_assoc.
  rewrite (app_assoc (store_le 4 type_code) (store_le 4 flags)).
  pose proof (load_bytes_middle (store_le 4 type_code ++ store_le 4 flags)
                (store_le 4 data_size) (store_le 4 dimensions ++ after)) as H.
  rewrite length_app, !store_le_length in H. rewrite <- !app_assoc in *.
  change (0 + 8) with (Z.of_nat (4 + 4)). rewrite H.
  cbn [fmap option_fmap option_map]. rewrite le_unsigned_store. reflexivity.
Qed.

Lemma payload_stored type_code flags data_size dimensions (payload after : memory) :
  load_bytes (header_bytes type_code flags data_size dimensions ++ payload ++ after)
    sizeof_LabViewDataHeader (List.length payload)
  = Some payload.
Proof.
  pose proof (load_bytes_middle (header_bytes type_code flags data_size dimensions)
                payload after) as H.
  rewrite header_bytes_length in H. exact H.
Qed.

Lemma string_of_bytes_of_string (s : string) : string_of_bytes (bytes_of_string s) = s.
Proof.
  unfold string_of_bytes, bytes_of_string. rewrite List.map_map.
  rewrite (List.map_ext _ (fun c => c)) by apply ascii_of_byte_of_ascii.
  rewrite List.map_id. apply string_of_list_ascii_of_string.
Qed.

Lemma bytes_of_string_length (s : string) :
  List.length (bytes_of_string s) = String.length s.
Proof.
  unfold bytes_of_string. rewrite length_map.
  induction s as [|c s IH]; [reflexivity|]. cbn. f_equal. exact IH.
Qed.


(** Settles the comparisons of a known type code in the [switch]. *)
Ltac known_type_code :=
  repeat match goal with
         | |- context [?a =? ?b] =>
           let r := eval vm_compute in (a =? b) in change (a =? b) with r
         end;
  cbn [orb negb].

(** *** Round trips with the example's records *)

(** X13: the record that create_integer_variant builds for an int32 value,
    passed with the size the example passes, decodes to the Integer of
    that value; the record of create_boolean_variant decodes to the
    Boolean it was built from. *)
Theorem scalar_variant_round_trip (value : Z) (flag : bool) :
  - 2 ^ 31 <= value < 2 ^ 31 ->
  (exists variant,
     create_integer_variant value = Some variant
     /\ cfgpp_from_labview_variant variant (variant_size 4)
        = Returned (Api CFGPP_SUCCESS (Some (VInteger value))))
  /\ (exists variant,
        create_boolean_variant flag = Some variant
        /\ cfgpp_from_labview_variant variant (variant_size 1)
           = Returned (Api CFGPP_SUCCESS (Some (VBoolean flag)))).
Proof.
  intros Hvalue. split.
  - eexists. split; [reflexivity|].
    unfold cfgpp_from_labview_variant. change (variant_size 4 <? _) with false.
    cbv iota zeta. rewrite header_type_code_stored. cbn [loading]. known_type_code.
    unfold load_signed, load_unsigned.
    pose proof (payload_stored LABVIEW_TYPE_I32 0 4 0 (store_le 4 value)
                  (repeat x00 (256 - List.length (store_le 4 value)))) as Hload.
    rewrite store_le_length in Hload at 2. rewrite Hload.
    cbn [fmap option_fmap option_map loading]. rewrite le_unsigned_store.
    rewrite (to_signed_wrap 4 value) by (cbn; lia). reflexivity.
  - eexists. split; [reflexivity|]. destruct flag; vm_compute; reflexivity.
Qed.

Lemma scalar_variant_round_trip_witness :
  exists variant,
    create_integer_variant (-1000) = Some variant
    /\ cfgpp_from_labview_variant variant (variant_size 4)
       = Returned (Api CFGPP_SUCCESS (Some (VInteger (-1000)))).
Proof.
  apply (scalar_variant_round_trip (-1000) true). lia.
Defined.

(** X14: a string of at most 252 characters fits the data array of
    MockLabViewVariant; the record that create_string_variant builds for
    it, passed with the size the example passes, decodes to the String
    with the same characters. *)
Theorem string_variant_round_trip (str : string) :
  (String.length str <= 252)%nat ->
  exists variant,
    create_string_variant str = Some variant
    /\ cfgpp_from_labview_variant variant
         (variant_size (4 + Z.of_nat (String.length str)))
       = Returned (Api CFGPP_SUCCESS (Some (VString str))).
Proof.
  intros Hlen. unfold create_string_variant, mock_variant.
  set (n := Z.of_nat (String.length str)).
  assert (Hfit : (List.length (store_le 4 n ++ bytes_of_string str) <=? 256)%nat = true).
  { apply Nat.leb_le. rewrite length_app, store_le_length, bytes_of_string_length. lia. }
  rewrite Hfit. eexists. split; [reflexivity|].
  unfold cfgpp_from_labview_variant.
  destruct (Z.ltb_spec (variant_size (4 + n)) sizeof_LabViewDataHeader) as [Hsmall|_].
  { unfold variant_size, sizeof_LabViewDataHeader in Hsmall. lia. }
  cbv zeta. rewrite header_type_code_stored. cbn [loading]. known_type_code.
  set (zeros := repeat x00 _).
  rewrite <- (app_assoc (store_le 4 n)).
  unfold load_unsigned.
  pose proof (payload_stored LABVIEW_TYPE_STRING 0 (4 + n) 0 (store_le 4 n)
                (bytes_of_string str ++ zeros)) as Hprefix.
  rewrite store_le_length in Hprefix. rewrite Hprefix.
  cbn [fmap option_fmap option_map loading]. rewrite le_unsigned_store.
  assert (Hn : n mod 256 ^ Z.of_nat 4 = n).
  { apply Z.mod_small. change (256 ^ Z.of_nat 4) with 4294967296. lia. }
  rewrite Hn. replace (Z.to_nat n) with (String.length str) by (unfold n; lia).
  pose proof (load_bytes_middle
                (header_bytes LABVIEW_TYPE_STRING 0 (4 + n) 0 ++ store_le 4 n)
                (bytes_of_string str) zeros) as Hdata.
  rewrite length_app, header_bytes_length, store_le_length, bytes_of_string_length in Hdata.
  rewrite <- app_assoc in Hdata.
  change (Z.of_nat (16 + 4)) with (sizeof_LabViewDataHeader + 4) in Hdata.
  rewrite Hdata. cbn [loading]. rewrite string_of_bytes_of_string. reflexivity.
Qed.

Lemma string_variant_round_trip_witness :
  exists variant,
    create_string_variant "Hello from LabVIEW!" = Some variant
    /\ cfgpp_from_labview_variant variant
         (variant_size (4 + Z.of_nat (String.length "Hello from LabVIEW!")))
       = Returned (Api CFGPP_SUCCESS (Some (VString "Hello from LabVIEW!"))).
Proof.
  apply (string_variant_round_trip "Hello from LabVIEW!"). cbn. lia.
Defined.


(** *** What a decoded value can be *)

(** The value types the variant decoder produces. *)
Definition scalar (value : CfgppValue) : bool :=
  match value with
  | VBoolean _ | VInteger _ | VDouble _ | VString _ => true
  | _ => false
  end.

Lemma to_signed_range (n : nat) (u : Z) :
  (0 < n)%nat -> 0 <= u < 256 ^ Z.of_nat n ->
  - 2 ^ (8 * Z.of_nat n - 1) <= to_signed n u < 2 ^ (8 * Z.of_nat n - 1).
Proof.
  intros Hn Hu. unfold to_signed. cbv zeta.
  assert (Hpow : 256 ^ Z.of_nat n = 2 ^ (8 * Z.of_nat n)).
  { change 256 with (2 ^ 8). rewrite <- Z.pow_mul_r by lia. reflexivity. }
  assert (Hhalf : 2 ^ (8 * Z.of_nat n) = 2 * 2 ^ (8 * Z.of_nat n - 1)).
  { rewrite <- Z.pow_succ_r by lia. f_equal. lia. }
  destruct (Z.ltb_spec u (2 ^ (8 * Z.of_nat n - 1))); lia.
Qed.

Lemma load_unsigned_range mem off n v :
  load_unsigned mem off n = Some v -> 0 <= v < 256 ^ Z.of_nat n.
Proof.
  unfold load_unsigned. destruct (load_bytes mem off n) as [bs|] eqn:Hbs; [|discriminate].
  intros [= <-]. apply load_bytes_length in Hbs.
  pose proof (le_unsigned_range bs) as H. rewrite Hbs in H. exact H.
Qed.

(** What a signed or unsigned load of at most eight bytes gives fits an
    [int64_t]. *)
Lemma load_signed_int64 mem off n v :
  (0 < n <= 8)%nat -> load_signed mem off n = Some v -> - 2 ^ 63 <= v < 2 ^ 63.
Proof.
  intros Hn. unfold load_signed.
  destruct (load_unsigned mem off n) as [u|] eqn:Hu; [|discriminate].
  intros [= <-]. apply load_unsigned_range in Hu.
  pose proof (to_signed_range n u ltac:(lia) Hu) as H.
  assert (2 ^ (8 * Z.of_nat n - 1) <= 2 ^ 63) by (apply Z.pow_le_mono_r; lia).
  lia.
Qed.

Lemma load_unsigned_int64 mem off n v :
  (n <= 4)%nat -> load_unsigned mem off n = Some v -> - 2 ^ 63 <= v < 2 ^ 63.
Proof.
  intros Hn Hu. apply load_unsigned_range in Hu.
  assert (256 ^ Z.of_nat n <= 256 ^ 4) by (apply Z.pow_le_mono_r; lia).
  change (256 ^ 4) with 4294967296 in *. lia.
Qed.

(** Takes the next load of the hypothesis [H] apart. *)
Ltac next_load H :=
  match type of H with
  | context [loading ?r _] =>
    let Hr := fresh "Hload" in
    destruct r eqn:Hr; cbn [loading] in H; [|discriminate H]
  end.

(** Takes the next test of the [switch] in [H] apart. *)
Ltac next_case H :=
  match type of H with
  | context [if ?c then _ else _] => destruct c eqn:?
  end.

(** Follows every path of the decoder in [H] to its result. *)
Ltac shape H :=
  first
    [ injection H as <-;
      first
        [ left; reflexivity
        | right; eexists; split; [reflexivity|]; split; [reflexivity|];
          intros i Hi;
          first
            [ discriminate Hi
            | injection Hi as <-;
              first [ eapply load_signed_int64; [|eassumption]; lia
                    | eapply load_unsigned_int64; [|eassumption]; lia ] ] ]
    | next_load H; shape H
    | next_case H; shape H ].

Lemma variant_returns_scalar (variant_data : memory) (data_size : Z) (r : api_return) :
  cfgpp_from_labview_variant variant_data data_size = Returned r ->
  r = Api CFGPP_ERROR_INVALID_PARAMETER None
  \/ exists value,
       r = Api CFGPP_SUCCESS (Some value)
       /\ scalar value = true
       /\ forall i, value = VInteger i -> - 2 ^ 63 <= i < 2 ^ 63.
Proof.
  unfold cfgpp_from_labview_variant. cbv zeta. intros H. shape H.
Qed.

(** The type codes that have a case of their own in the [switch], with the
    type of the value that the case makes.  The code 10 is left out: the
    header gives it to both LABVIEW_TYPE_U64 and LABVIEW_TYPE_DBL. *)
Definition scalar_types : list (Z * CfgppValueType) :=
  [(LABVIEW_TYPE_BOOLEAN, CFGPP_TYPE_BOOLEAN);
   (LABVIEW_TYPE_I8, CFGPP_TYPE_INTEGER); (LABVIEW_TYPE_I16, CFGPP_TYPE_INTEGER);
   (LABVIEW_TYPE_I32, CFGPP_TYPE_INTEGER); (LABVIEW_TYPE_I64, CFGPP_TYPE_INTEGER);
   (LABVIEW_TYPE_U8, CFGPP_TYPE_INTEGER); (LABVIEW_TYPE_U16, CFGPP_TYPE_INTEGER);
   (LABVIEW_TYPE_U32, CFGPP_TYPE_INTEGER);
   (LABVIEW_TYPE_SGL, CFGPP_TYPE_DOUBLE); (LABVIEW_TYPE_STRING, CFGPP_TYPE_STRING)].

(** Settles which type code a path of the [switch] was taken with. *)
Ltac settle_code :=
  rewrite ?orb_true_iff, ?orb_false_iff, ?Z.eqb_eq, ?Z.eqb_neq in *;
  unfold LABVIEW_TYPE_BOOLEAN, LABVIEW_TYPE_I8, LABVIEW_TYPE_I16, LABVIEW_TYPE_I32,
    LABVIEW_TYPE_I64, LABVIEW_TYPE_U8, LABVIEW_TYPE_U16, LABVIEW_TYPE_U32,
    LABVIEW_TYPE_U64, LABVIEW_TYPE_SGL, LABVIEW_TYPE_DBL, LABVIEW_TYPE_STRING in *;
  repeat match goal with
         | Hor : _ \/ _ |- _ => destruct Hor
         | Hand : _ /\ _ |- _ => destruct Hand
         end;
  subst; first [congruence | tauto].

(** Follows every path of the decoder in [H] to the type of its value. *)
Ltac typed H :=
  first
    [ injection H as <-; cbn [scalar_types In value_type]; settle_code
    | discriminate H
    | next_load H; typed H
    | next_case H; typed H ].

Lemma variant_type_of_code (variant_data : memory) (data_size type_code : Z)
    (value : CfgppValue) :
  cfgpp_from_labview_variant variant_data data_size
  = Returned (Api CFGPP_SUCCESS (Some value)) ->
  header_type_code variant_data 0 = Some type_code ->
  type_code <> 10 ->
  In (type_code, value_type value) scalar_types.
Proof.
  unfold cfgpp_from_labview_variant. cbv zeta. intros H Hcode Hten.
  rewrite Hcode in H. cbn [loading] in H. typed H.
Qed.

(** X15: whatever the bytes, a call of cfgpp_from_labview_variant that
    returns CFGPP_SUCCESS gives a Boolean, Integer, Double or String
    value, never a Null, Enum, Array or Object; an Integer it gives fits
    an int64; and for every type code but 10 the type of the value is the
    one of the code: Boolean for BOOLEAN, Integer for I8, I16, I32, I64,
    U8, U16 and U32, Double for SGL, String for STRING.  A call that
    returns another code gives no value. *)
Theorem variant_result_shape (variant_data : memory) (data_size : Z) (r : api_return) :
  cfgpp_from_labview_variant variant_data data_size = Returned r ->
  (api_code r = CFGPP_SUCCESS ->
   exists value,
     api_result r = Some value
     /\ scalar value = true
     /\ (forall i, value = VInteger i -> - 2 ^ 63 <= i < 2 ^ 63)
     /\ (forall type_code,
           header_type_code variant_data 0 = Some type_code ->
           type_code <> 10 ->
           In (type_code, value_type value) scalar_types))
  /\ (api_code r <> CFGPP_SUCCESS -> api_result r = None).
Proof.
  intros H.
  destruct (variant_returns_scalar _ _ _ H) as [->|(value & -> & Hscalar & Hrange)].
  - split; [discriminate|reflexivity].
  - split; [|intros Hcode; contradiction Hcode; reflexivity].
    intros _. exists value. split; [reflexivity|]. split; [exact Hscalar|].
    split; [exact Hrange|]. intros type_code Hcode Hten. eapply variant_type_of_code; eassumption.
Qed.

(** An instance: the I32 record that holds 1000. *)
Lemma variant_result_shape_witness :
  exists value,
    Some (VInteger 1000) = Some value
    /\ scalar value = true
    /\ (forall i, value = VInteger i -> - 2 ^ 63 <= i < 2 ^ 63)
    /\ (forall type_code,
          header_type_code i32_field 0 = Some type_code ->
          type_code <> 10 ->
          In (type_code, value_type value) scalar_types).
Proof.
  apply (variant_result_shape i32_field 20 (Api CFGPP_SUCCESS (Some (VInteger 1000)))).
  - vm_compute. reflexivity.
  - reflexivity.
Defined.

(** A decode that stays in the readable bytes is not changed by the bytes
    that follow them. *)
Lemma variant_extend (variant_data after : memory) (data_size : Z) (r : api_return) :
  cfgpp_from_labview_variant variant_data data_size = Returned r ->
  cfgpp_from_labview_variant (variant_data ++ after) data_size = Returned r.
Proof.
  unfold cfgpp_from_labview_variant, header_type_code. cbv zeta. intros H.
  repeat first
    [ exact H
    | match type of H with
      | context [loading ?l _] =>
        let Hl := fresh "Hload" in
        destruct l eqn:Hl; cbn [loading] in H; [|discriminate H];
        first [ rewrite (load_unsigned_extend _ after _ _ _ Hl)
              | rewrite (load_signed_extend _ after _ _ _ Hl)
              | rewrite (load_bytes_extend _ after _ _ _ Hl) ];
        cbn [loading]
      end
    | match type of H with
      | context [if ?c then _ else _] => destruct c eqn:?
      end ].
Qed.

(** The size passed with a variant is only compared with the header's
    size: the payload is read whatever the size says. *)
Lemma variant_size_threshold (variant_data : memory) (size1 size2 : Z) :
  sizeof_LabViewDataHeader <= size1 -> sizeof_LabViewDataHeader <= size2 ->
  cfgpp_from_labview_variant variant_data size1
  = cfgpp_from_labview_variant variant_data size2.
Proof.
  intros H1 H2. unfold cfgpp_from_labview_variant.
  destruct (Z.ltb_spec size1 sizeof_LabViewDataHeader); [lia|].
  destruct (Z.ltb_spec size2 sizeof_LabViewDataHeader); [lia|].
  reflexivity.
Qed.

(** *** The cluster's Object *)

Lemma cluster_fields_named (cluster_data : memory) (data_size : Z)
    (field_names : list string) (offset : Z) (map0 map : gmap string CfgppValue) :
  cluster_fields cluster_data data_size field_names offset map0 = Returned map ->
  forall key value,
    map !! key = Some value ->
    map0 !! key = Some value \/ (In key field_names /\ scalar value = true).
Proof.
  revert offset map0.
  induction field_names as [|name later IH]; intros offset map0 H key value Hkey.
  - injection H as <-. left. exact Hkey.
  - cbn [cluster_fields] in H.
    destruct (negb (offset <? data_size)); [injection H as <-; left; exact Hkey|].
    destruct (size_t (offset + sizeof_LabViewDataHeader) >? data_size);
      [injection H as <-; left; exact Hkey|].
    next_load H.
    destruct (cfgpp_from_labview_variant _ _) as [field|] eqn:Hfield; [|discriminate H].
    destruct (IH _ _ H key value Hkey) as [Hold|[Hin Hscalar]].
    + destruct (variant_returns_scalar _ _ _ Hfield) as [->|(v & -> & Hv & _)];
        cbn [api_code api_result] in Hold; [left; exact Hold|].
      destruct (decide (name = key)) as [->|Hne].
      * rewrite lookup_insert_eq in Hold. injection Hold as <-.
        right. split; [left; reflexivity|exact Hv].
      * rewrite lookup_insert_ne in Hold by assumption. left. exact Hold.
    + right. split; [right; exact Hin|exact Hscalar].
Qed.


(** X16: the Object that cfgpp_from_labview_cluster returns has no key
    outside the field names it was given, and every value in it is a
    Boolean, Integer, Double or String: a cluster or array nested in a
    cluster never reaches the Object. *)
Theorem cluster_object_holds_named_scalars (cluster_data : memory) (data_size : Z)
    (field_names : list string) (code : CfgppResult) (map : gmap string CfgppValue) :
  cfgpp_from_labview_cluster cluster_data data_size field_names
  = Returned (Api code (Some (VObject map))) ->
  code = CFGPP_SUCCESS
  /\ forall key value,
       map !! key = Some value -> In key field_names /\ scalar value = true.
Proof.
  unfold cfgpp_from_labview_cluster. intros H.
  destruct field_names as [|name later]; [discriminate H|].
  destruct (cluster_fields _ _ _ _ _) as [decoded|] eqn:Hfields; [|discriminate H].
  injection H as <- <-. split; [reflexivity|].
  intros key value Hkey.
  destruct (cluster_fields_named _ _ _ _ _ _ Hfields key value Hkey) as [Hempty|Hin];
    [|exact Hin].
  rewrite lookup_empty in Hempty. discriminate Hempty.
Qed.

Lemma cluster_object_holds_named_scalars_witness :
  CFGPP_SUCCESS = CFGPP_SUCCESS
  /\ forall key value,
       (<[ "rate" := VInteger 1000 ]> {[ "enabled" := VBoolean true ]}
          : gmap string CfgppValue) !! key = Some value ->
       In key ["rate"; "enabled"] /\ scalar value = true.
Proof.
  apply (cluster_object_holds_named_scalars (i32_field ++ boolean_field) 37
           ["rate"; "enabled"]).
  vm_compute. reflexivity.
Defined.

(** *** Records laid out one after the other *)

(** A record whose header declares the size of the payload that follows
    it, as create_measurement_cluster writes them. *)
Definition well_formed (record : memory) : Prop :=
  header_data_size record 0
  = Some (Z.of_nat (List.length record) - sizeof_LabViewDataHeader).

(** The Object built from each record's own decode, in order; [None] when
    the decode of a record reads past the record. *)
Fixpoint fields_of (fields : list (string * memory)) (map : gmap string CfgppValue)
  : option (gmap string CfgppValue) :=
  match fields with
  | [] => Some map
  | (name, record) :: later =>
    match cfgpp_from_labview_variant record (Z.of_nat (List.length record)) with
    | OutOfBounds => None
    | Returned {| api_code := CFGPP_SUCCESS; api_result := Some value |} =>
      fields_of later (<[name := value]> map)
    | Returned _ => fields_of later map
    end
  end.

Definition records_of (fields : list (string * memory)) : memory :=
  List.concat (List.map snd fields).

Lemma cluster_fields_records (fields : list (string * memory)) :
  forall (before : memory) (map0 map : gmap string CfgppValue),
    Forall (fun field => well_formed (snd field)) fields ->
    Z.of_nat (List.length (before ++ records_of fields)) < 2 ^ 64 ->
    fields_of fields map0 = Some map ->
    cluster_fields (before ++ records_of fields)
      (Z.of_nat (List.length (before ++ records_of fields)))
      (List.map fst fields) (Z.of_nat (List.length before)) map0
    = Returned map.
Proof.
  induction fields as [|[name record] later IH]; intros before map0 map Hwf Hsize Hfields.
  - injection Hfields as <-. reflexivity.
  - apply List.Forall_cons_iff in Hwf as [Hrecord Hwf]. cbn [snd] in Hrecord.
    unfold records_of in *. cbn [List.map List.concat fst snd] in *.
    pose proof (header_data_size_range _ _ _ Hrecord) as Hrange.
    unfold sizeof_LabViewDataHeader in *.
    set (total := Z.of_nat (List.length (before ++ record ++ concat (List.map snd later)))) in *.
    assert (Htotal : total = Z.of_nat (List.length before) + Z.of_nat (List.length record)
                             + Z.of_nat (List.length (concat (List.map snd later)))).
    { unfold total. rewrite !length_app. lia. }
    set (offset := Z.of_nat (List.length before)) in *.
    assert (Hw : size_t (offset + 16) = offset + 16)
      by (unfold size_t; apply Z.mod_small; lia).
    cbn [cluster_fields]. unfold sizeof_LabViewDataHeader. rewrite Hw.
    destruct (Z.ltb_spec offset total) as [_|?]; [|lia]. cbn [negb].
    destruct (Z.gtb_spec (offset + 16) total) as [?|_]; [lia|].
    assert (Hheader : header_data_size (before ++ record ++ concat (List.map snd later)) offset
                      = Some (Z.of_nat (List.length record) - 16)).
    { unfold header_data_size in *. unfold offset.
      rewrite load_unsigned_shift by lia.
      apply load_unsigned_extend. exact Hrecord. }
    rewrite Hheader. cbn [loading].
    replace (size_t (offset + 16 - 16)) with offset
      by (unfold size_t; rewrite Z.mod_small; lia).
    replace (size_t (Z.of_nat (List.length record) - 16 + 16))
      with (Z.of_nat (List.length record))
      by (unfold size_t; rewrite Z.mod_small; lia).
    unfold offset at 1. rewrite Nat2Z.id, drop_app_length.
    cbn [fields_of] in Hfields.
    destruct (cfgpp_from_labview_variant record (Z.of_nat (List.length record)))
      as [field|] eqn:Hfield; [|discriminate Hfields].
    rewrite (variant_extend _ _ _ _ Hfield).
    replace (size_t (offset + 16 + (Z.of_nat (List.length record) - 16)))
      with (Z.of_nat (List.length (before ++ record)))
      by (rewrite length_app; unfold size_t, offset; rewrite Z.mod_small; lia).
    unfold total. rewrite (app_assoc before record).
    destruct field as [[] [value|]]; cbn [api_code api_result];
      (apply IH; [exact Hwf | rewrite <- app_assoc; exact Hsize | exact Hfields]).
Qed.

(** X17: when well-formed records lie one after the other and the buffer
    ends with the last of them, cfgpp_from_labview_cluster pairs the names
    with the records in order: its Object is the one built from each
    record's own decode, a later field of the same name replacing an
    earlier one and a record that does not decode leaving no field. *)
Theorem cluster_decodes_record_by_record (fields : list (string * memory))
    (map : gmap string CfgppValue) :
  fields <> [] ->
  Forall (fun field => well_formed (snd field)) fields ->
  Z.of_nat (List.length (records_of fields)) < 2 ^ 64 ->
  fields_of fields ∅ = Some map ->
  cfgpp_from_labview_cluster (records_of fields)
    (Z.of_nat (List.length (records_of fields))) (List.map fst fields)
  = Returned (Api CFGPP_SUCCESS (Some (VObject map))).
Proof.
  intros Hne Hwf Hsize Hfields. unfold cfgpp_from_labview_cluster.
  destruct fields as [|field later]; [congruence|].
  pose proof (cluster_fields_records (field :: later) [] ∅ map Hwf Hsize Hfields) as H.
  change (cluster_fields (records_of (field :: later))
            (Z.of_nat (List.length (records_of (field :: later))))
            (List.map fst (field :: later)) 0 ∅ = Returned map) in H.
  cbn [List.map] in *. rewrite H. reflexivity.
Qed.

Lemma cluster_decodes_record_by_record_witness :
  cfgpp_from_labview_cluster
    (records_of [("rate", i32_field); ("mode", array_field); ("rate", boolean_field)])
    (Z.of_nat (List.length
       (records_of [("rate", i32_field); ("mode", array_field); ("rate", boolean_field)])))
    (List.map fst [("rate", i32_field); ("mode", array_field); ("rate", boolean_field)])
  = Returned (Api CFGPP_SUCCESS (Some (VObject (<[ "rate" := VBoolean true ]>
                                                 (<[ "rate" := VInteger 1000 ]> ∅))))).
Proof.
  apply (cluster_decodes_record_by_record
           [("rate", i32_field); ("mode", array_field); ("rate", boolean_field)]).
  - discriminate.
  - repeat constructor.
  - vm_compute. reflexivity.
  - vm_compute. reflexivity.
Defined.


(** *** The cluster as the example passes it *)

(** X18: the example passes the address of the whole MockLabViewCluster,
    whose first bytes are the cluster's own header, with the size of the
    header plus the records.  cfgpp_from_labview_cluster then reads the
    cluster header as the first field record: its type code is not a
    scalar's, so the field is left out, and the declared size moves the
    offset to the end of the buffer.  Whatever the records and the names,
    the call reports success with an empty Object. *)
Theorem cluster_passed_with_its_header_is_empty (records : list byte)
    (field_names : list string) (cluster : memory) :
  field_names <> [] ->
  mock_cluster records = Some cluster ->
  cfgpp_from_labview_cluster cluster
    (variant_size (Z.of_nat (List.length records))) field_names
  = Returned (Api CFGPP_SUCCESS (Some (VObject ∅))).
Proof.
  intros Hne Hcluster. unfold mock_cluster in Hcluster.
  destruct (Nat.leb_spec (List.length records) 1024) as [Hfit|]; [|discriminate Hcluster].
  assert (Hmem : cluster = header_bytes LABVIEW_TYPE_CLUSTER 0
                             (Z.of_nat (List.length records)) 0
                           ++ records ++ repeat x00 (1024 - List.length records))
    by congruence.
  subst cluster. clear Hcluster.
  set (n := Z.of_nat (List.length records)).
  assert (Hn : 0 <= n <= 1024) by (unfold n; lia).
  unfold cfgpp_from_labview_cluster, variant_size, sizeof_LabViewDataHeader.
  destruct field_names as [|name later]; [congruence|].
  cbn [cluster_fields]. unfold sizeof_LabViewDataHeader.
  change (size_t (0 + 16)) with 16.
  destruct (Z.ltb_spec 0 (16 + n)) as [_|?]; [|lia]. cbn [negb].
  destruct (Z.gtb_spec 16 (16 + n)) as [?|_]; [lia|].
  rewrite header_data_size_stored.
  rewrite (Z.mod_small n) by lia. cbn [loading].
  change (Z.to_nat (size_t (16 - 16))) with 0%nat. rewrite drop_0.
  assert (Hfield : cfgpp_from_labview_variant
                     (header_bytes LABVIEW_TYPE_CLUSTER 0 n 0 ++ records
                      ++ repeat x00 (1024 - List.length records))
                     (size_t (n + 16))
                   = Returned (Api CFGPP_ERROR_INVALID_PARAMETER None)).
  { unfold cfgpp_from_labview_variant, sizeof_LabViewDataHeader.
    destruct (Z.ltb_spec (size_t (n + 16)) 16) as [Hsmall|_].
    { unfold size_t in Hsmall. rewrite Z.mod_small in Hsmall by lia. lia. }
    cbv zeta. rewrite header_type_code_stored. cbn [loading]. known_type_code.
    reflexivity. }
  rewrite Hfield. cbn [api_code api_result].
  replace (size_t (16 + n)) with (16 + n) by (unfold size_t; rewrite Z.mod_small; lia).
  destruct later as [|next later]; [reflexivity|].
  cbn [cluster_fields].
  destruct (Z.ltb_spec (16 + n) (16 + n)) as [?|_]; [lia|]. reflexivity.
Qed.

Lemma cluster_passed_with_its_header_is_empty_witness :
  exists cluster,
    mock_cluster (i32_field ++ boolean_field) = Some cluster
    /\ cfgpp_from_labview_cluster cluster
         (variant_size (Z.of_nat (List.length (i32_field ++ boolean_field))))
         ["sample_rate"; "enable_logging"]
       = Returned (Api CFGPP_SUCCESS (Some (VObject ∅))).
Proof.
  eexists. split; [reflexivity|].
  apply (cluster_passed_with_its_header_is_empty (i32_field ++ boolean_field)
           ["sample_rate"; "enable_logging"]); [discriminate|reflexivity].
Defined.

End DecoderFacts.

(** ** A record that does not decode *)

Module ClusterFacts.

Import LabView MockLabView LabViewFacts DecoderFacts.

Lemma fields_of_app (before after : list (string * memory))
    (map0 : gmap string CfgppValue) :
  fields_of (before ++ after) map0
  = match fields_of before map0 with
    | Some map => fields_of after map
    | None => None
    end.
Proof.
  revert map0. induction before as [|[name record] before IH]; intros map0; [reflexivity|].
  cbn [app fields_of].
  destruct (cfgpp_from_labview_variant record _) as [[[] [value|]]|]; try apply IH.
  reflexivity.
Qed.

(** A record whose decode fails adds nothing to the Object. *)
Lemma fields_of_failed (before after : list (string * memory)) (name : string)
    (failed : memory) (field : api_return) (map0 : gmap string CfgppValue) :
  cfgpp_from_labview_variant failed (Z.of_nat (List.length failed)) = Returned field ->
  api_code field <> CFGPP_SUCCESS ->
  fields_of (before ++ (name, failed) :: after) map0 = fields_of (before ++ after) map0.
Proof.
  intros Hfield Hcode. rewrite !fields_of_app.
  destruct (fields_of before map0) as [map|]; [|reflexivity].
  cbn [fields_of]. rewrite Hfield.
  destruct field as [[] [value|]]; cbn [api_code] in Hcode; congruence.
Qed.

(** The Object keeps what it held under the names that are not decoded. *)
Lemma fields_of_other (fields : list (string * memory)) :
  forall (map0 map : gmap string CfgppValue) (key : string),
    fields_of fields map0 = Some map ->
    ~ In key (List.map fst fields) ->
    map !! key = map0 !! key.
Proof.
  induction fields as [|[name record] later IH]; intros map0 map key Hfields Hkey.
  - injection Hfields as <-. reflexivity.
  - cbn [fields_of] in Hfields. cbn [List.map fst In] in Hkey.
    assert (Hname : name <> key) by tauto.
    assert (Hlater : ~ In key (List.map fst later)) by tauto.
    destruct (cfgpp_from_labview_variant record _) as [[[] [value|]]|];
      try discriminate Hfields;
      rewrite (IH _ _ key Hfields Hlater); try reflexivity.
    apply lookup_insert_ne, Hname.
Qed.

(** Under distinct names, the Object holds the value of every record that
    decodes. *)
Lemma fields_of_lookup (fields : list (string * memory)) :
  forall (map0 map : gmap string CfgppValue) (name : string) (record : memory)
         (value : CfgppValue),
    fields_of fields map0 = Some map ->
    List.NoDup (List.map fst fields) ->
    In (name, record) fields ->
    cfgpp_from_labview_variant record (Z.of_nat (List.length record))
    = Returned (Api CFGPP_SUCCESS (Some value)) ->
    map !! name = Some value.
Proof.
  induction fields as [|[name' record'] later IH];
    intros map0 map name record value Hfields Hnames Hin Hvalue; [destruct Hin|].
  cbn [List.map fst] in Hnames. apply List.NoDup_cons_iff in Hnames as [Hnew Hnames].
  cbn [fields_of] in Hfields. destruct Hin as [Heq|Hin].
  - injection Heq as -> ->. rewrite Hvalue in Hfields.
    rewrite (fields_of_other _ _ _ name Hfields Hnew). apply lookup_insert_eq.
  - destruct (cfgpp_from_labview_variant record' _) as [[[] [value'|]]|];
      try discriminate Hfields; eapply IH; eassumption.
Qed.

(** C1 (as amended): a record whose scalar decode fails does not make
    cfgpp_from_labview_cluster fail.  When well-formed records lie one
    after the other, the decode of one of them gives a code other than
    CFGPP_SUCCESS and the decode of each other one reads inside its
    record, the call still returns CFGPP_SUCCESS, with the Object built
    from the records before and after the failed one: the loop goes on
    behind the failed record, at the offset advanced by the header size
    and the declared payload size.  Under distinct names the Object has no
    field of the failed record's name and holds the value of every other
    record that decodes, those behind the failed one included. *)
Theorem cluster_decode_skips_failed_field (before after : list (string * memory))
    (name : string) (failed : memory) (field : api_return)
    (map : gmap string CfgppValue) :
  Forall (fun field => well_formed (snd field)) (before ++ (name, failed) :: after) ->
  Z.of_nat (List.length (records_of (before ++ (name, failed) :: after))) < 2 ^ 64 ->
  cfgpp_from_labview_variant failed (Z.of_nat (List.length failed)) = Returned field ->
  api_code field <> CFGPP_SUCCESS ->
  fields_of (before ++ after) ∅ = Some map ->
  cfgpp_from_labview_cluster (records_of (before ++ (name, failed) :: after))
    (Z.of_nat (List.length (records_of (before ++ (name, failed) :: after))))
    (List.map fst (before ++ (name, failed) :: after))
  = Returned (Api CFGPP_SUCCESS (Some (VObject map)))
  /\ (List.NoDup (List.map fst (before ++ (name, failed) :: after)) ->
      map !! name = None
      /\ forall (other : string) (record : memory) (value : CfgppValue),
           In (other, record) (before ++ after) ->
           cfgpp_from_labview_variant record (Z.of_nat (List.length record))
           = Returned (Api CFGPP_SUCCESS (Some value)) ->
           map !! other = Some value).
Proof.
  intros Hwf Hsize Hfield Hcode Hfields. split.
  - pose proof (fields_of_failed before after name failed field ∅ Hfield Hcode) as Hskip.
    rewrite Hfields in Hskip.
    pose proof (cluster_fields_records _ [] ∅ map Hwf Hsize Hskip) as H.
    unfold cfgpp_from_labview_cluster.
    destruct (before ++ (name, failed) :: after) as [|first later] eqn:Hall;
      [destruct before; discriminate Hall|].
    change (cluster_fields (records_of (first :: later))
              (Z.of_nat (List.length (records_of (first :: later))))
              (List.map fst (first :: later)) 0 ∅ = Returned map) in H.
    cbn [List.map] in *. rewrite H. reflexivity.
  - intros Hnames. rewrite List.map_app in Hnames. cbn [List.map fst] in Hnames.
    pose proof (List.NoDup_remove_1 _ _ _ Hnames) as Hothers.
    pose proof (List.NoDup_remove_2 _ _ _ Hnames) as Hname.
    rewrite <- List.map_app in Hothers, Hname. split.
    + rewrite (fields_of_other _ _ _ name Hfields Hname). apply lookup_empty.
    + intros other record value Hin Hvalue.
      eapply fields_of_lookup; eassumption.
Qed.

(** An instance: an array record between an I32 record and a boolean
    record.  The decode of the array record fails; the Object holds the
    fields before and behind it. *)
Lemma cluster_decode_skips_failed_field_witness :
  cfgpp_from_labview_cluster (i32_field ++ array_field ++ boolean_field) 57
    ["count"; "rate"; "enabled"]
  = Returned (Api CFGPP_SUCCESS
      (Some (VObject (<[ "enabled" := VBoolean true ]> {[ "count" := VInteger 1000 ]}))))
  /\ (<[ "enabled" := VBoolean true ]> {[ "count" := VInteger 1000 ]}
        : gmap string CfgppValue) !! "rate" = None
  /\ (<[ "enabled" := VBoolean true ]> {[ "count" := VInteger 1000 ]}
        : gmap string CfgppValue) !! "enabled" = Some (VBoolean true).
Proof.
  destruct (cluster_decode_skips_failed_field
              [("count", i32_field)] [("enabled", boolean_field)] "rate" array_field
              (Api CFGPP_ERROR_INVALID_PARAMETER None)
              (<[ "enabled" := VBoolean true ]> {[ "count" := VInteger 1000 ]}))
    as [Hcall Hfields].
  - repeat constructor.
  - vm_compute. reflexivity.
  - vm_compute. reflexivity.
  - discriminate.
  - vm_compute. reflexivity.
  - split; [exact Hcall|].
    assert (Hnames : List.NoDup
                       (List.map fst ([("count", i32_field)]
                                      ++ ("rate", array_field)
                                         :: [("enabled", boolean_field)]))).
    { repeat (apply List.NoDup_cons;
              [cbn; intros H; repeat (destruct H as [H|H]; [discriminate H|]); exact H|]).
      apply List.NoDup_nil. }
    destruct (Hfields Hnames) as [Hfailed Hothers]. split; [exact Hfailed|].
    apply (Hothers "enabled" boolean_field).
    + right. left. reflexivity.
    + vm_compute. reflexivity.
Defined.

End ClusterFacts.

(** ** Records of every scalar type *)

Module RecordFacts.

Import LabView MockLabView LabViewFacts DecoderFacts.

(** The integer type codes with the width in bytes they are read with and
    whether the read is signed.  LABVIEW_TYPE_U64 is left out: its code
    is also that of LABVIEW_TYPE_DBL. *)
Definition integer_types : list (Z * nat * bool) :=
  [(LABVIEW_TYPE_I8, 1%nat, true); (LABVIEW_TYPE_I16, 2%nat, true);
   (LABVIEW_TYPE_I32, 4%nat, true); (LABVIEW_TYPE_I64, 8%nat, true);
   (LABVIEW_TYPE_U8, 1%nat, false); (LABVIEW_TYPE_U16, 2%nat, false);
   (LABVIEW_TYPE_U32, 4%nat, false)].

(** The values of a [width]-byte integer type. *)
Definition in_range (width : nat) (signed : bool) (v : Z) : Prop :=
  if signed then - 2 ^ (8 * Z.of_nat width - 1) <= v < 2 ^ (8 * Z.of_nat width - 1)
  else 0 <= v < 2 ^ (8 * Z.of_nat width).

(** A record: a header, then the payload. *)
Definition record (type_code data_size : Z) (payload : list byte) : memory :=
  header_bytes type_code 0 data_size 0 ++ payload.

Lemma record_type_code type_code data_size payload (after : memory) :
  header_type_code (record type_code data_size payload ++ after) 0
  = Some (type_code mod 2 ^ 32).
Proof. unfold record. rewrite <- app_assoc. apply header_type_code_stored. Qed.

Lemma record_payload type_code data_size payload (after : memory) :
  load_bytes (record type_code data_size payload ++ after)
    sizeof_LabViewDataHeader (List.length payload)
  = Some payload.
Proof. unfold record. rewrite <- app_assoc. apply payload_stored. Qed.

Lemma load_bytes_prefix (mem : memory) (off : Z) (n k : nat) (bs : list byte) :
  load_bytes mem off n = Some bs -> (k <= n)%nat ->
  load_bytes mem off k = Some (firstn k bs).
Proof.
  unfold load_bytes. destruct (off <? 0); [discriminate|].
  destruct (Nat.eqb_spec (List.length (firstn n (skipn (Z.to_nat off) mem))) n) as [Hn|];
    [|discriminate].
  intros [= <-] Hk. rewrite take_take, Nat.min_l by lia.
  rewrite length_take in Hn.
  destruct (Nat.eqb_spec (List.length (firstn k (skipn (Z.to_nat off) mem))) k) as [|Hne];
    [reflexivity|].
  rewrite length_take in Hne. lia.
Qed.

Lemma load_signed_stored type_code data_size (width : nat) (v : Z) (after : memory) :
  (0 < width)%nat ->
  in_range width true v ->
  load_signed (record type_code data_size (store_le width v) ++ after)
    sizeof_LabViewDataHeader width
  = Some v.
Proof.
  intros Hwidth Hv. unfold load_signed, load_unsigned.
  pose proof (record_payload type_code data_size (store_le width v) after) as H.
  rewrite store_le_length in H. rewrite H. cbn [fmap option_fmap option_map].
  rewrite le_unsigned_store, to_signed_wrap by assumption. reflexivity.
Qed.

Lemma load_unsigned_stored type_code data_size (width : nat) (v : Z) (after : memory) :
  in_range width false v ->
  load_unsigned (record type_code data_size (store_le width v) ++ after)
    sizeof_LabViewDataHeader width
  = Some v.
Proof.
  intros Hv. unfold load_unsigned.
  pose proof (record_payload type_code data_size (store_le width v) after) as H.
  rewrite store_le_length in H. rewrite H. cbn [fmap option_fmap option_map].
  rewrite le_unsigned_store. f_equal. apply Z.mod_small.
  unfold in_range in Hv.
  replace (256 ^ Z.of_nat width) with (2 ^ (8 * Z.of_nat width)); [exact Hv|].
  change 256 with (2 ^ 8). rewrite <- Z.pow_mul_r by lia. reflexivity.
Qed.

(** X19: for each integer type code but LABVIEW_TYPE_U64, a record that
    holds a value of the type, stored little-endian in the type's width,
    decodes to the Integer of that value: the signed types are
    sign-extended and the unsigned ones are not.  The size the header
    declares, the size passed (once it covers a header) and the bytes
    after the payload play no part. *)
Theorem integer_record_round_trip (type_code : Z) (width : nat) (signed : bool)
    (v declared data_size : Z) (after : memory) :
  In (type_code, width, signed) integer_types ->
  in_range width signed v ->
  sizeof_LabViewDataHeader <= data_size ->
  cfgpp_from_labview_variant (record type_code declared (store_le width v) ++ after)
    data_size
  = Returned (Api CFGPP_SUCCESS (Some (VInteger v))).
Proof.
  intros Hin Hv Hsize. unfold cfgpp_from_labview_variant.
  destruct (Z.ltb_spec data_size sizeof_LabViewDataHeader) as [?|_]; [lia|].
  cbv zeta. rewrite record_type_code. unfold integer_types in Hin. cbn [In] in Hin.
  repeat (destruct Hin as [Hin|Hin];
          [injection Hin as <- <- <-; cbn [loading]; known_type_code;
           first [ rewrite load_signed_stored by (try lia; exact Hv)
                 | rewrite load_unsigned_stored by exact Hv ];
           reflexivity|]).
  destruct Hin.
Qed.

Lemma integer_record_round_trip_witness :
  cfgpp_from_labview_variant (record LABVIEW_TYPE_I16 2 (store_le 2 (-2)) ++ [xff]%byte) 18
  = Returned (Api CFGPP_SUCCESS (Some (VInteger (-2)))).
Proof.
  apply (integer_record_round_trip LABVIEW_TYPE_I16 2 true (-2) 2 18 [xff]%byte).
  - cbn. auto.
  - vm_compute. split; [discriminate|reflexivity].
  - vm_compute. discriminate.
Defined.

(** X20: the length prefix of a string record is trusted.  When the
    readable bytes after the prefix are at least as many as it says, the
    record decodes to the String of exactly that many bytes, whatever size
    the header declares and whatever size is passed, once it covers a
    header: neither is compared with the prefix, so the String can hold
    bytes that lie behind the declared payload and behind the size
    passed. *)
Theorem string_length_prefix_is_trusted (str_length declared data_size : Z)
    (bytes : list byte) :
  0 <= str_length < 2 ^ 32 ->
  str_length <= Z.of_nat (List.length bytes) ->
  sizeof_LabViewDataHeader <= data_size ->
  cfgpp_from_labview_variant
    (record LABVIEW_TYPE_STRING declared (store_le 4 str_length ++ bytes)) data_size
  = Returned (Api CFGPP_SUCCESS
                (Some (VString (string_of_bytes (firstn (Z.to_nat str_length) bytes))))).
Proof.
  intros Hlength Hfit Hsize. unfold cfgpp_from_labview_variant.
  destruct (Z.ltb_spec data_size sizeof_LabViewDataHeader) as [?|_]; [lia|].
  cbv zeta.
  rewrite <- (app_nil_r (record _ _ _)). rewrite record_type_code. rewrite app_nil_r.
  cbn [loading]. known_type_code.
  assert (Hprefix : load_unsigned
                      (record LABVIEW_TYPE_STRING declared (store_le 4 str_length ++ bytes))
                      sizeof_LabViewDataHeader 4 = Some str_length).
  { unfold record. rewrite app_assoc.
    pose proof (load_unsigned_stored LABVIEW_TYPE_STRING declared 4 str_length bytes) as H.
    unfold record in H. rewrite <- !app_assoc in *. apply H.
    unfold in_range. exact Hlength. }
  rewrite Hprefix. cbn [loading].
  change (sizeof_LabViewDataHeader + 4) with 20.
  unfold load_bytes. change (20 <? 0) with false. cbv iota.
  assert (Hdrop : skipn (Z.to_nat 20)
                    (record LABVIEW_TYPE_STRING declared (store_le 4 str_length ++ bytes))
                  = bytes).
  { unfold record. rewrite app_assoc.
    replace (Z.to_nat 20)
      with (List.length (header_bytes LABVIEW_TYPE_STRING 0 declared 0
                         ++ store_le 4 str_length))
      by (rewrite length_app, header_bytes_length, store_le_length; reflexivity).
    apply drop_app_length. }
  rewrite Hdrop. rewrite length_take.
  destruct (Nat.eqb_spec (Z.to_nat str_length `min` List.length bytes)
              (Z.to_nat str_length)); [reflexivity|lia].
Qed.

(** An instance: the header declares no payload and the size passed is
    that of a header; the five bytes that the prefix counts are read. *)
Lemma string_length_prefix_is_trusted_witness :
  cfgpp_from_labview_variant
    (record LABVIEW_TYPE_STRING 0
       (store_le 4 5 ++ [x68; x65; x6c; x6c; x6f; x21]%byte)) 16
  = Returned (Api CFGPP_SUCCESS (Some (VString "hello"))).
Proof.
  apply (string_length_prefix_is_trusted 5 0 16 [x68; x65; x6c; x6c; x6f; x21]%byte).
  - vm_compute. split; [discriminate|reflexivity].
  - vm_compute. discriminate.
  - vm_compute. discriminate.
Defined.

(** X21: the decode of a variant depends on the bytes it reads and on
    nothing else: a call that returns gives the same result for any other
    size that covers a header and for any bytes added after the readable
    ones. *)
Theorem variant_depends_on_the_bytes_read (variant_data after : memory)
    (size1 size2 : Z) (r : api_return) :
  sizeof_LabViewDataHeader <= size1 ->
  sizeof_LabViewDataHeader <= size2 ->
  cfgpp_from_labview_variant variant_data size1 = Returned r ->
  cfgpp_from_labview_variant (variant_data ++ after) size2 = Returned r.
Proof.
  intros H1 H2 Hr. rewrite (variant_size_threshold _ size2 size1) by assumption.
  apply variant_extend, Hr.
Qed.

Lemma variant_depends_on_the_bytes_read_witness :
  cfgpp_from_labview_variant (i32_field ++ boolean_field) 16
  = Returned (Api CFGPP_SUCCESS (Some (VInteger 1000))).
Proof.
  apply (variant_depends_on_the_bytes_read i32_field boolean_field 20 16).
  - vm_compute. discriminate.
  - vm_compute. discriminate.
  - vm_compute. reflexivity.
Defined.

End RecordFacts.

(** ** The [std::string] operations on joined texts *)

Module StdStringFacts.

Import StdString.

#[local] Open Scope nat_scope.

Lemma append_cons (x : ascii) (a b : string) : String x a +:+ b = String x (a +:+ b).
Proof. reflexivity. Qed.

Lemma append_nil (b : string) : "" +:+ b = b.
Proof. reflexivity. Qed.

Lemma append_assoc (a b c : string) : (a +:+ b) +:+ c = a +:+ (b +:+ c).
Proof.
  induction a as [|x a IH]; [reflexivity|]. rewrite !append_cons. f_equal. exact IH.
Qed.

Lemma length_append (a b : string) :
  String.length (a +:+ b) = String.length a + String.length b.
Proof.
  induction a as [|x a IH]; [reflexivity|]. rewrite append_cons. cbn. f_equal. exact IH.
Qed.

Lemma substring_all (s : string) : String.substring 0 (String.length s) s = s.
Proof. induction s as [|x s IH]; [reflexivity|]. cbn. f_equal. exact IH. Qed.

Lemma substring_head (a b : string) :
  String.substring 0 (String.length a) (a +:+ b) = a.
Proof.
  induction a as [|x a IH]; [destruct b; reflexivity|].
  rewrite append_cons. cbn. f_equal. exact IH.
Qed.

Lemma substring_tail (a b : string) :
  String.substring (String.length a) (String.length b) (a +:+ b) = b.
Proof.
  induction a as [|x a IH]; [apply substring_all|]. rewrite append_cons. cbn. exact IH.
Qed.

(** *** [find] of a character *)

Lemma find_char_append (c : ascii) (a b : string) :
  find_char c (a +:+ b)
  = match find_char c a with
    | Some i => Some i
    | None => (fun i => String.length a + i) <$> find_char c b
    end.
Proof.
  induction a as [|x a IH]; [rewrite append_nil; cbn; destruct (find_char c b); reflexivity|].
  rewrite append_cons. cbn. destruct (Ascii.eqb c x); [reflexivity|]. rewrite IH.
  destruct (find_char c a); [reflexivity|]. destruct (find_char c b); reflexivity.
Qed.

(** *** Trimming *)

Lemma erase_leading_skip (chars : string) (c : ascii) (s : string) :
  char_in chars c = true ->
  erase_leading chars (String c s) = erase_leading chars s.
Proof.
  intros Hc. unfold erase_leading. cbn [find_first_not_of]. rewrite Hc.
  destruct (find_first_not_of chars s) as [n|] eqn:Hn; [|reflexivity].
  cbn [fmap option_fmap option_map]. unfold substr. cbn [String.length].
  destruct n; reflexivity.
Qed.

Lemma erase_leading_stop (chars : string) (c : ascii) (s : string) :
  char_in chars c = false ->
  erase_leading chars (String c s) = String c s.
Proof.
  intros Hc. unfold erase_leading. cbn [find_first_not_of]. rewrite Hc.
  unfold substr. rewrite Nat.sub_0_r. apply substring_all.
Qed.

Lemma find_last_not_of_end (chars : string) (s : string) (c : ascii) :
  char_in chars c = false ->
  find_last_not_of chars (s +:+ String c "") = Some (String.length s).
Proof.
  intros Hc. induction s as [|x s IH]; [rewrite append_nil; cbn; rewrite Hc; reflexivity|].
  rewrite append_cons. cbn. rewrite IH. reflexivity.
Qed.

Lemma erase_trailing_stop (chars : string) (s : string) (c : ascii) :
  char_in chars c = false ->
  erase_trailing chars (s +:+ String c "") = s +:+ String c "".
Proof.
  intros Hc. unfold erase_trailing. rewrite find_last_not_of_end by assumption.
  unfold substr.
  replace (S (String.length s)) with (String.length (s +:+ String c ""))
    by (rewrite length_append; cbn; lia).
  apply substring_all.
Qed.

Lemma erase_leading_length (chars : string) (s : string) :
  String.length (erase_leading chars s) <= String.length s.
Proof.
  induction s as [|c s IH]; [reflexivity|].
  destruct (char_in chars c) eqn:Hc.
  - rewrite erase_leading_skip by assumption. cbn [String.length]. lia.
  - rewrite erase_leading_stop by assumption. reflexivity.
Qed.

(** A text that trimming at the front leaves alone does not start with a
    character of the set. *)
Lemma erase_leading_fixed (chars : string) (c : ascii) (s : string) :
  erase_leading chars (String c s) = String c s -> char_in chars c = false.
Proof.
  intros H. destruct (char_in chars c) eqn:Hc; [|reflexivity].
  rewrite erase_leading_skip in H by assumption.
  pose proof (erase_leading_length chars s) as Hlen. rewrite H in Hlen.
  cbn [String.length] in Hlen. lia.
Qed.

Lemma find_last_not_of_skip (chars : string) (s : string) (c : ascii) :
  char_in chars c = true ->
  find_last_not_of chars (s +:+ String c "") = find_last_not_of chars s.
Proof.
  intros Hc. induction s as [|x s IH]; [rewrite append_nil; cbn; rewrite Hc; reflexivity|].
  rewrite append_cons. cbn [find_last_not_of]. rewrite IH. reflexivity.
Qed.

Lemma find_last_not_of_lt (chars : string) (s : string) (i : nat) :
  find_last_not_of chars s = Some i -> i < String.length s.
Proof.
  revert i. induction s as [|x s IH]; intros i; [discriminate|].
  cbn [find_last_not_of String.length].
  destruct (find_last_not_of chars s) as [j|].
  - intros [= <-]. specialize (IH j eq_refl). lia.
  - destruct (char_in chars x); [discriminate|]. intros [= <-]. lia.
Qed.

Lemma substring_head_shorter (n : nat) (a b : string) :
  n <= String.length a -> String.substring 0 n (a +:+ b) = String.substring 0 n a.
Proof.
  revert n. induction a as [|x a IH]; intros n Hn.
  - cbn [String.length] in Hn. replace n with 0 by lia. rewrite append_nil.
    destruct b; reflexivity.
  - rewrite append_cons. destruct n as [|n]; [reflexivity|].
    cbn [String.substring]. f_equal. apply IH. cbn [String.length] in Hn. lia.
Qed.

(** A character of the set at the end is trimmed away with the rest. *)
Lemma erase_trailing_skip (chars : string) (s : string) (c : ascii) :
  char_in chars c = true ->
  erase_trailing chars (s +:+ String c "") = erase_trailing chars s.
Proof.
  intros Hc. unfold erase_trailing. rewrite find_last_not_of_skip by assumption.
  destruct (find_last_not_of chars s) as [i|] eqn:Hi; [|reflexivity].
  unfold substr. apply substring_head_shorter.
  apply find_last_not_of_lt in Hi. lia.
Qed.

(** *** Lines *)

Lemma getlines_line (line rest : string) :
  find_char "010" line = None ->
  getlines (line +:+ String "010" rest) = line :: getlines rest.
Proof.
  induction line as [|c line IH]; intros Hline; [reflexivity|].
  cbn [find_char] in Hline. rewrite append_cons. cbn [getlines].
  rewrite Ascii.eqb_sym. destruct (Ascii.eqb "010" c); [discriminate Hline|].
  destruct (find_char "010" line); [discriminate Hline|].
  rewrite IH by reflexivity. reflexivity.
Qed.

(** *** Copies *)

Lemma c_str_all (s : string) : find_char "000" s = None -> Access.c_str s = s.
Proof.
  induction s as [|c s IH]; intros Hs; [reflexivity|].
  cbn [find_char] in Hs. cbn [Access.c_str].
  rewrite Ascii.eqb_sym. destruct (Ascii.eqb "000" c); [discriminate Hs|].
  destruct (find_char "000" s); [discriminate Hs|]. rewrite IH by reflexivity. reflexivity.
Qed.

End StdStringFacts.

(** ** The generated schema, read back *)

Module GeneratedSchema.

Import LabView StdString Schema SchemaGen StdStringFacts LabViewFacts SchemaFacts DecoderFacts.

#[local] Open Scope nat_scope.

(** The characters that end a line, a copy, a field name or an object:
    a field name that holds one is not read back as it was written. *)
Definition reserved : string := String "010" (String "000" ":{}").

(** The characters a trimmed line must not start with to be read as a
    field: blanks, and the two comment marks. *)
Definition blanks_comment : string := blanks +:+ "/#".

(** A field name that the schema parser reads back as the generator wrote
    it. *)
Definition plain (name : string) : bool :=
  forallb (fun c => negb (char_in reserved c)) (list_ascii_of_string name)
  && String.eqb (trim name) name
  && match name with
     | String c _ => negb (char_in blanks_comment c)
     | EmptyString => true
     end.

(** A type name that the schema parser reads back as it was written. *)
Definition plain_type (ty : string) : bool :=
  forallb (fun c => negb (char_in reserved c)) (list_ascii_of_string ty)
  && String.eqb (erase_leading blanks ty) ty
  && String.eqb (erase_trailing blanks_semicolon ty) ty.

(** The type names [cfgpp_generate_schema_from_cluster] writes. *)
Definition type_names : list string :=
  ["boolean"; "integer"; "double"; "string"; "unknown"].

(** A field's line, without its newline. *)
Definition line_of (field : string * string) : string :=
  "    " +:+ fst field +:+ ": " +:+ snd field +:+ ";".

Lemma cfgpp_type_cases (type_code : Z) : In (cfgpp_type type_code) type_names.
Proof.
  unfold cfgpp_type, type_names.
  repeat match goal with
         | |- context [if ?c then _ else _] => destruct c
         end; cbn; auto 10.
Qed.

Lemma plain_find_char (name : string) (c : ascii) :
  plain name = true -> char_in reserved c = true -> find_char c name = None.
Proof.
  unfold plain. intros H Hc. apply andb_prop in H as [H _]. apply andb_prop in H as [H _].
  induction name as [|x name IH]; [reflexivity|].
  cbn [list_ascii_of_string forallb] in H. apply andb_prop in H as [Hx H].
  cbn [find_char]. destruct (Ascii.eqb_spec c x) as [->|_].
  - rewrite Hc in Hx. discriminate Hx.
  - rewrite IH by assumption. reflexivity.
Qed.

Lemma type_names_plain (ty : string) : In ty type_names -> plain_type ty = true.
Proof.
  intros Hty. unfold type_names in Hty. cbn [In] in Hty.
  repeat destruct Hty as [<-|Hty]; try destruct Hty; vm_compute; reflexivity.
Qed.

Lemma plain_type_find_char (ty : string) (c : ascii) :
  plain_type ty = true -> char_in reserved c = true -> find_char c ty = None.
Proof.
  unfold plain_type. intros H Hc. apply andb_prop in H as [H _]. apply andb_prop in H as [H _].
  induction ty as [|x ty IH]; [reflexivity|].
  cbn [list_ascii_of_string forallb] in H. apply andb_prop in H as [Hx H].
  cbn [find_char]. destruct (Ascii.eqb_spec c x) as [->|_].
  - rewrite Hc in Hx. discriminate Hx.
  - rewrite IH by assumption. reflexivity.
Qed.

(** The type name is read back from what follows the colon. *)
Lemma plain_type_read (ty : string) :
  plain_type ty = true ->
  erase_trailing blanks_semicolon (erase_leading blanks (" " +:+ ty +:+ ";")) = ty.
Proof.
  unfold plain_type. intros H. apply andb_prop in H as [H Htrailing].
  apply andb_prop in H as [_ Hleading].
  apply String.eqb_eq in Hleading, Htrailing.
  change (" " +:+ ty +:+ ";") with (String " " (ty +:+ ";")).
  rewrite erase_leading_skip by reflexivity.
  assert (Hfront : erase_leading blanks (ty +:+ ";") = ty +:+ ";").
  { destruct ty as [|c ty]; [reflexivity|].
    rewrite append_cons. apply erase_leading_stop.
    eapply erase_leading_fixed, Hleading. }
  rewrite Hfront, erase_trailing_skip by reflexivity. exact Htrailing.
Qed.

Section FieldLine.

Variables (name ty : string).
Hypothesis Hname : plain name = true.
Hypothesis Hty : plain_type ty = true.

(** The line after trimming. *)
Definition trimmed : string := name +:+ ": " +:+ ty +:+ ";".

Lemma trimmed_head :
  exists c0 tail,
    trimmed = String c0 tail /\ char_in blanks_comment c0 = false.
Proof.
  unfold trimmed. destruct name as [|c tail] eqn:Hn.
  - exists ":"%char, (" " +:+ ty +:+ ";"). split; reflexivity.
  - exists c, (tail +:+ ": " +:+ ty +:+ ";"). split; [reflexivity|].
    unfold plain in Hname. apply andb_prop in Hname as [_ H].
    apply negb_true_iff in H. exact H.
Qed.

Lemma trim_line : trim (line_of (name, ty)) = trimmed.
Proof.
  unfold trim, line_of. cbn [fst snd]. fold trimmed.
  change ("    " +:+ trimmed)
    with (String " " (String " " (String " " (String " " trimmed)))).
  rewrite !erase_leading_skip by reflexivity.
  destruct trimmed_head as (c0 & tail & Hhead & Hc0). rewrite Hhead.
  rewrite erase_leading_stop.
  - rewrite <- Hhead. unfold trimmed. rewrite <- !append_assoc.
    apply erase_trailing_stop. reflexivity.
  - change blanks_comment with (String " " (String "009" "/#")) in Hc0.
    unfold char_in, blanks in *. cbn [list_ascii_of_string existsb] in *.
    destruct (Ascii.eqb c0 " "); [discriminate Hc0|].
    destruct (Ascii.eqb c0 "009"); [discriminate Hc0|]. reflexivity.
Qed.

Lemma trimmed_find_reserved (c : ascii) :
  char_in reserved c = true -> c <> ":"%char -> find_char c trimmed = None.
Proof.
  intros Hc Hcolon. unfold trimmed. rewrite !find_char_append.
  rewrite (plain_find_char name c Hname Hc), (plain_type_find_char ty c Hty Hc).
  cbn [find_char].
  destruct (Ascii.eqb_spec c ":") as [?|_]; [contradiction|].
  assert (Hchar : forall x, char_in reserved x = false -> Ascii.eqb c x = false).
  { intros x Hx. destruct (Ascii.eqb_spec c x) as [->|]; [congruence|reflexivity]. }
  rewrite !Hchar by reflexivity. reflexivity.
Qed.

Lemma trimmed_find_colon : find_char ":" trimmed = Some (String.length name).
Proof.
  unfold trimmed. rewrite find_char_append.
  rewrite (plain_find_char name ":" Hname) by reflexivity.
  change (": " +:+ ty +:+ ";") with (String ":" (" " +:+ ty +:+ ";")).
  cbn [find_char]. rewrite Ascii.eqb_refl. cbn [fmap option_fmap option_map].
  f_equal. lia.
Qed.

Lemma trimmed_field_name :
  trim (substr trimmed 0 (Some (String.length name))) = name.
Proof.
  unfold substr, trimmed. rewrite substring_head.
  unfold plain in Hname. apply andb_prop in Hname as [H _]. apply andb_prop in H as [_ H].
  apply String.eqb_eq in H. exact H.
Qed.

Lemma trimmed_field_type :
  erase_trailing blanks_semicolon
    (erase_leading blanks (substr trimmed (S (String.length name)) None))
  = ty.
Proof.
  assert (Hsub : substr trimmed (S (String.length name)) None = " " +:+ ty +:+ ";").
  { unfold substr, trimmed.
    change (name +:+ ": " +:+ ty +:+ ";")
      with (name +:+ (":" +:+ (" " +:+ ty +:+ ";"))).
    rewrite <- append_assoc.
    replace (S (String.length name)) with (String.length (name +:+ ":"))
      by (rewrite length_append; cbn; lia).
    set (a := name +:+ ":"). set (b := " " +:+ ty +:+ ";").
    replace (String.length (a +:+ b) - String.length a) with (String.length b)
      by (rewrite length_append; lia).
    apply substring_tail. }
  rewrite Hsub. apply plain_type_read, Hty.
Qed.

(** What one field line does: the field is recorded under the object
    being read, which stays open. *)
Lemma schema_line_field (schema : CfgppSchema) (c : ascii) (object : string) :
  schema_line (schema, String c object) (line_of (name, ty))
  = (set_field schema (String c object) name ty, String c object).
Proof.
  unfold schema_line. cbv zeta. rewrite trim_line.
  pose proof (trimmed_find_reserved "{" eq_refl ltac:(discriminate)) as Hopen.
  pose proof (trimmed_find_reserved "}" eq_refl ltac:(discriminate)) as Hclose.
  pose proof trimmed_find_colon as Hcolon.
  pose proof trimmed_field_name as Hfield.
  pose proof trimmed_field_type as Htype.
  destruct trimmed_head as (c0 & tail & Hhead & Hc0).
  rewrite Hhead in *.
  assert (Hcomment : Ascii.eqb c0 "/" || Ascii.eqb c0 "#" = false).
  { change blanks_comment with (String " " (String "009" "/#")) in Hc0.
    unfold char_in in Hc0. cbn [list_ascii_of_string existsb] in Hc0.
    destruct (Ascii.eqb c0 " "); [discriminate Hc0|].
    destruct (Ascii.eqb c0 "009"); [discriminate Hc0|].
    destruct (Ascii.eqb c0 "/"); [discriminate Hc0|].
    destruct (Ascii.eqb c0 "#"); [discriminate Hc0|]. reflexivity. }
  rewrite Hcomment.
  assert (Henum : enum_declaration (String c0 tail) = None).
  { unfold enum_declaration. rewrite Hopen.
    destruct (find "enum " (String c0 tail)) as [[|?]|]; reflexivity. }
  rewrite Henum, Hopen, Hcolon, Hclose, Hfield, Htype. reflexivity.
Qed.

End FieldLine.

(** *** The lines of the generated text *)

Definition fields_ok (fields : list (string * string)) : Prop :=
  Forall (fun field => plain (fst field) = true /\ plain_type (snd field) = true) fields.

Lemma field_line_of (field : string * string) :
  field_line field = line_of field +:+ newline.
Proof. unfold field_line, line_of. rewrite !append_assoc. reflexivity. Qed.

Lemma line_of_find_reserved (field : string * string) (c : ascii) :
  plain (fst field) = true -> plain_type (snd field) = true ->
  char_in reserved c = true -> c <> ":"%char ->
  find_char c (line_of field) = None.
Proof.
  intros Hname Hty Hc Hcolon. unfold line_of.
  fold (trimmed (fst field) (snd field)). rewrite find_char_append.
  rewrite (trimmed_find_reserved _ _ Hname Hty c Hc Hcolon).
  assert (Hchar : forall x, char_in reserved x = false -> Ascii.eqb c x = false).
  { intros x Hx. destruct (Ascii.eqb_spec c x) as [->|]; [congruence|reflexivity]. }
  cbn [find_char]. rewrite !Hchar by reflexivity. reflexivity.
Qed.

Definition closing (fields : list (string * string)) : string :=
  List.fold_right (fun field text => field_line field +:+ text) ("}" +:+ newline) fields.

Lemma getlines_closing (fields : list (string * string)) :
  fields_ok fields ->
  getlines (closing fields) = List.map line_of fields ++ ["}"].
Proof.
  induction 1 as [|field fields [Hname Hty] _ IH]; [reflexivity|].
  cbn [closing List.fold_right List.map app]. fold (closing fields).
  rewrite field_line_of, append_assoc.
  change (newline +:+ closing fields) with (String "010" (closing fields)).
  rewrite getlines_line by (apply line_of_find_reserved; auto; discriminate).
  rewrite IH. reflexivity.
Qed.

Lemma getlines_schema_text (fields : list (string * string)) :
  fields_ok fields ->
  getlines (schema_text_of fields)
  = "// Auto-generated CFG++ schema from LabVIEW cluster"
    :: "ClusterSchema {" :: List.map line_of fields ++ ["}"].
Proof.
  intros Hok. unfold schema_text_of. fold (closing fields).
  change (newline +:+ "ClusterSchema {" +:+ newline +:+ closing fields)
    with (String "010" ("ClusterSchema {" +:+ String "010" (closing fields))).
  rewrite getlines_line by reflexivity.
  rewrite getlines_line by reflexivity.
  rewrite getlines_closing by assumption. reflexivity.
Qed.

(** The text holds no NUL character, so the copy to the caller's buffer
    is the whole text. *)
Lemma schema_text_c_str (fields : list (string * string)) :
  fields_ok fields -> Access.c_str (schema_text_of fields) = schema_text_of fields.
Proof.
  intros Hok. apply c_str_all. unfold schema_text_of. fold (closing fields).
  rewrite !find_char_append.
  assert (Hclosing : find_char "000" (closing fields) = None).
  { induction Hok as [|field fields [Hname Hty] _ IH]; [reflexivity|].
    cbn [closing List.fold_right]. fold (closing fields).
    rewrite field_line_of, !find_char_append.
    rewrite line_of_find_reserved by (auto; discriminate).
    rewrite IH. reflexivity. }
  rewrite Hclosing. reflexivity.
Qed.

(** *** The schema read from the lines *)

Definition record_field (schema : CfgppSchema) (field : string * string) : CfgppSchema :=
  set_field schema "ClusterSchema" (fst field) (snd field).

Lemma schema_lines_fields (fields : list (string * string)) (schema : CfgppSchema) :
  fields_ok fields ->
  fold_left schema_line (List.map line_of fields) (schema, "ClusterSchema")
  = (fold_left record_field fields schema, "ClusterSchema").
Proof.
  intros Hok. revert schema.
  induction Hok as [|[name ty] fields [Hname Hty] _ IH]; intros schema; [reflexivity|].
  cbn [List.map fold_left]. cbn [fst snd] in *.
  rewrite (schema_line_field name ty Hname Hty). apply IH.
Qed.

Lemma parse_schema_text (fields : list (string * string)) :
  fields_ok fields ->
  cfgpp_schema_parse_string cfgpp_schema_create (schema_text_of fields)
  = (CFGPP_SUCCESS, fold_left record_field fields cfgpp_schema_create).
Proof.
  intros Hok. unfold cfgpp_schema_parse_string.
  rewrite getlines_schema_text by assumption.
  cbn [fold_left].
  change (schema_line (cfgpp_schema_create, "")
            "// Auto-generated CFG++ schema from LabVIEW cluster")
    with (cfgpp_schema_create, "").
  change (schema_line (cfgpp_schema_create, "") "ClusterSchema {")
    with (cfgpp_schema_create, "ClusterSchema").
  rewrite fold_left_app, schema_lines_fields by assumption.
  reflexivity.
Qed.

(** *** The object schema of the result *)

Definition set_type (fields : umap string) (field : string * string) : umap string :=
  umap_set (fst field) (snd field) fields.

Lemma record_fields_schema (fields : list (string * string)) (schema : CfgppSchema)
    (known : umap string) :
  object_schemas schema = [("ClusterSchema", known)] ->
  object_schemas (fold_left record_field fields schema)
  = [("ClusterSchema", fold_left set_type fields known)].
Proof.
  revert schema known.
  induction fields as [|field fields IH]; intros schema known Hschema; [exact Hschema|].
  cbn [fold_left]. apply IH.
  unfold record_field, set_field. cbn [object_schemas]. rewrite Hschema. reflexivity.
Qed.

Lemma record_fields_first (fields : list (string * string)) :
  object_schemas (fold_left record_field fields cfgpp_schema_create)
  = match fields with
    | [] => []
    | _ => [("ClusterSchema", fold_left set_type fields [])]
    end.
Proof.
  destruct fields as [|field fields]; [reflexivity|].
  cbn [fold_left]. apply record_fields_schema. reflexivity.
Qed.

(** *** Keys of a field table *)

Lemma umap_set_in {V} (k key : string) (v value : V) (m : umap V) :
  NoDup (List.map fst m) ->
  In (key, value) (umap_set k v m) ->
  (key = k /\ value = v) \/ (key <> k /\ In (key, value) m).
Proof.
  induction m as [|[k' v'] m IH]; intros Hkeys Hin.
  - destruct Hin as [[= <- <-]|[]]. left. split; reflexivity.
  - cbn [List.map fst] in Hkeys. apply NoDup_cons in Hkeys as [Hfirst Hkeys].
    cbn [umap_set] in Hin. destruct (String.eqb_spec k k') as [<-|Hne].
    + destruct Hin as [[= <- <-]|Hin]; [left; split; reflexivity|].
      right. split; [|right; exact Hin].
      intros ->. apply Hfirst, list_elem_of_In.
      apply (List.in_map fst) in Hin. exact Hin.
    + destruct Hin as [[= <- <-]|Hin].
      * right. split; [congruence|left; reflexivity].
      * destruct (IH Hkeys Hin) as [Hnew|[Hother Hold]]; [left; exact Hnew|].
        right. split; [exact Hother|right; exact Hold].
Qed.

Lemma umap_set_keys {V} (k : string) (v : V) (m : umap V) :
  NoDup (List.map fst m) -> NoDup (List.map fst (umap_set k v m)).
Proof.
  induction m as [|[k' v'] m IH]; intros Hkeys.
  - cbn. apply NoDup_cons. split; [apply not_elem_of_nil|apply NoDup_nil_2].
  - cbn [List.map fst] in Hkeys. apply NoDup_cons in Hkeys as [Hfirst Hkeys].
    cbn [umap_set]. destruct (String.eqb_spec k k') as [<-|Hne].
    + cbn [List.map fst]. apply NoDup_cons. split; assumption.
    + cbn [List.map fst]. apply NoDup_cons. split; [|apply IH, Hkeys].
      intros Hin. apply list_elem_of_In, List.in_map_iff in Hin as [[key value] [Hkey Hin]].
      cbn [fst] in Hkey. subst key.
      assert (Hk : NoDup (List.map fst m)) by exact Hkeys.
      destruct (umap_set_in k k' v value m Hk Hin) as [[-> _]|[_ Hold]]; [congruence|].
      apply Hfirst, list_elem_of_In. apply (List.in_map fst) in Hold. exact Hold.
Qed.

(** *** The type the generator names and the value the decoder makes *)

Lemma load_bytes_drop (mem : memory) (off : Z) (n : nat) :
  (0 <= off)%Z ->
  load_bytes (skipn (Z.to_nat off) mem) 0 n = load_bytes mem off n.
Proof.
  intros Hoff. unfold load_bytes.
  destruct (Z.ltb_spec off 0) as [?|_]; [lia|]. reflexivity.
Qed.

Lemma header_type_code_drop (mem : memory) (off : Z) :
  (0 <= off)%Z ->
  header_type_code (skipn (Z.to_nat off) mem) 0 = header_type_code mem off.
Proof.
  intros Hoff. unfold header_type_code, load_unsigned.
  rewrite load_bytes_drop by assumption. reflexivity.
Qed.

(** Takes the next comparison of the type code in [H] apart. *)
Ltac by_code H :=
  match type of H with
  | context [(?c =? ?k)%Z] => destruct (c =? k)%Z eqn:?; cbn [orb negb] in H |- *
  end.

(** Both functions switch on the same codes: the type the generator
    writes for a record is the type of the value the decoder makes of it,
    and it writes unknown where the decoder refuses the record. *)
Lemma generated_type_of_decoded (variant_data : memory) (data_size : Z)
    (type_code : Z) (r : api_return) :
  (sizeof_LabViewDataHeader <= data_size)%Z ->
  header_type_code variant_data 0 = Some type_code ->
  cfgpp_from_labview_variant variant_data data_size = Returned r ->
  (cfgpp_type type_code = "unknown" /\ r = Api CFGPP_ERROR_INVALID_PARAMETER None)
  \/ (cfgpp_type type_code <> "unknown"
      /\ exists value,
           r = Api CFGPP_SUCCESS (Some value)
           /\ forall schema, validate_type schema (cfgpp_type type_code) value = true).
Proof.
  intros Hsize Hcode H. unfold cfgpp_from_labview_variant in H.
  destruct (Z.ltb_spec data_size sizeof_LabViewDataHeader) as [?|_]; [lia|].
  cbv zeta in H. rewrite Hcode in H. cbn [loading] in H. unfold cfgpp_type.
  repeat first
    [ injection H as <-;
      first [ left; split; reflexivity
            | right; split; [discriminate|]; eexists; split; [reflexivity|];
              intros schema; reflexivity ]
    | next_load H
    | by_code H ].
Qed.

(** *** The decoder and the generator on the same buffer *)

(** Every field of the table is in the Object with a value of the
    field's type. *)
Definition accepted (schema : CfgppSchema) (known : umap string)
    (map : gmap string CfgppValue) : Prop :=
  NoDup (List.map fst known)
  /\ forall key ty,
       In (key, ty) known ->
       exists value, map !! key = Some value /\ validate_type schema ty value = true.

Lemma accepted_set (schema : CfgppSchema) (known : umap string)
    (map : gmap string CfgppValue) (name ty : string) (value : CfgppValue) :
  accepted schema known map ->
  validate_type schema ty value = true ->
  accepted schema (umap_set name ty known) (<[name := value]> map).
Proof.
  intros [Hkeys Hall] Hvalue. split; [apply umap_set_keys, Hkeys|].
  intros key ty' Hin.
  destruct (umap_set_in _ _ _ _ _ Hkeys Hin) as [[-> ->]|[Hne Hold]].
  - exists value. rewrite lookup_insert_eq. split; [reflexivity|exact Hvalue].
  - destruct (Hall _ _ Hold) as (old & Hlookup & Hold_type).
    exists old. rewrite lookup_insert_ne by congruence. split; assumption.
Qed.

Lemma accepted_satisfies (schema : CfgppSchema) (known : umap string)
    (map : gmap string CfgppValue) :
  accepted schema known map -> satisfies schema map known = true.
Proof.
  intros [_ Hall]. unfold satisfies. apply forallb_forall.
  intros [key ty] Hin. destruct (Hall _ _ Hin) as (value & -> & Htype). exact Htype.
Qed.

Definition known_types (fields : list (string * string)) : Prop :=
  Forall (fun field => snd field <> "unknown") fields.

Lemma generated_fields_accepted (schema : CfgppSchema) (cluster_data : memory)
    (data_size : Z) (field_names : list string) :
  forall (offset : Z) (map0 map : gmap string CfgppValue)
         (fields : list (string * string)) (known : umap string),
    (0 <= offset < 2 ^ 64)%Z ->
    cluster_fields cluster_data data_size field_names offset map0 = Returned map ->
    schema_fields cluster_data data_size field_names offset = Returned fields ->
    known_types fields ->
    accepted schema known map0 ->
    accepted schema (fold_left set_type fields known) map.
Proof.
  induction field_names as [|name later IH];
    intros offset map0 map fields known Hoffset Hcluster Hschema Hknown Hacc.
  - injection Hcluster as <-. injection Hschema as <-. exact Hacc.
  - cbn [cluster_fields] in Hcluster. cbn [schema_fields] in Hschema.
    destruct (negb (offset <? data_size)%Z);
      [injection Hcluster as <-; injection Hschema as <-; exact Hacc|].
    destruct (size_t (offset + sizeof_LabViewDataHeader) >? data_size)%Z;
      [injection Hcluster as <-; injection Hschema as <-; exact Hacc|].
    cbv zeta in Hcluster, Hschema.
    destruct (header_type_code cluster_data offset) as [type_code|] eqn:Hcode;
      cbn [loading] in Hschema; [|discriminate Hschema].
    destruct (header_data_size cluster_data offset) as [header_size|] eqn:Hsize;
      cbn [loading] in Hschema, Hcluster; [|discriminate Hschema].
    pose proof (header_data_size_range _ _ _ Hsize) as Hrange.
    destruct (schema_fields cluster_data data_size later _) as [rest|] eqn:Hrest;
      [|discriminate Hschema].
    injection Hschema as <-.
    apply List.Forall_cons_iff in Hknown as [Hty Hknown]. cbn [snd] in Hty.
    assert (Hptr : size_t (size_t (offset + sizeof_LabViewDataHeader)
                           - sizeof_LabViewDataHeader) = offset).
    { unfold size_t, sizeof_LabViewDataHeader.
      rewrite Zminus_mod_idemp_l. replace (offset + 16 - 16)%Z with offset by lia.
      apply Z.mod_small. exact Hoffset. }
    rewrite Hptr in Hcluster.
    destruct (cfgpp_from_labview_variant _ _) as [field|] eqn:Hfield;
      [|discriminate Hcluster].
    assert (Hfit : (sizeof_LabViewDataHeader
                    <= size_t (header_size + sizeof_LabViewDataHeader))%Z).
    { unfold size_t, sizeof_LabViewDataHeader. rewrite Z.mod_small; lia. }
    rewrite <- header_type_code_drop in Hcode by lia.
    destruct (generated_type_of_decoded _ _ _ _ Hfit Hcode Hfield)
      as [[Hunknown _]|[_ (value & -> & Hvalue)]]; [contradiction|].
    cbn [api_code api_result] in Hcluster. cbn [fold_left].
    eapply IH; [|exact Hcluster|exact Hrest|exact Hknown|].
    + unfold size_t. apply Z.mod_pos_bound. lia.
    + apply accepted_set; [exact Hacc|apply Hvalue].
Qed.

Lemma schema_fields_ok (cluster_data : memory) (data_size : Z)
    (field_names : list string) :
  forall (offset : Z) (fields : list (string * string)),
    forallb plain field_names = true ->
    schema_fields cluster_data data_size field_names offset = Returned fields ->
    fields_ok fields.
Proof.
  induction field_names as [|name later IH]; intros offset fields Hplain H.
  - injection H as <-. constructor.
  - cbn [forallb] in Hplain. apply andb_prop in Hplain as [Hname Hlater].
    cbn [schema_fields] in H.
    destruct (negb (offset <? data_size)%Z); [injection H as <-; constructor|].
    destruct (size_t (offset + sizeof_LabViewDataHeader) >? data_size)%Z;
      [injection H as <-; constructor|].
    cbv zeta in H. next_load H. next_load H.
    destruct (schema_fields cluster_data data_size later _) as [rest|] eqn:Hrest;
      [|discriminate H].
    injection H as <-. constructor; [|eapply IH; eassumption].
    split; [exact Hname|apply type_names_plain, cfgpp_type_cases].
Qed.

Lemma accepted_no_errors (fields : list (string * string))
    (map : gmap string CfgppValue) :
  accepted (fold_left record_field fields cfgpp_schema_create)
    (fold_left set_type fields []) map ->
  validation_errors (fold_left record_field fields cfgpp_schema_create) (VObject map) = "".
Proof.
  intros Hacc. destruct fields as [|field fields].
  - reflexivity.
  - eapply first_schema_satisfied.
    + rewrite record_fields_first. reflexivity.
    + apply accepted_satisfies, Hacc.
Qed.

(** X22: the schema text that cfgpp_generate_schema_from_cluster writes
    for a buffer, read by cfgpp_schema_parse_string into a new schema,
    accepts the Object that cfgpp_from_labview_cluster decodes from the
    same buffer, and cfgpp_cluster_to_file_validated with that schema
    goes on to write the Object.  This holds when the field names are
    plain (no newline, NUL, colon or brace, no blank at either end, no
    comment mark in front), every record visited has a scalar type code,
    and the text fits the caller's buffer. *)
Theorem generated_schema_accepts_its_cluster (cluster_data : memory) (data_size : Z)
    (field_names : list string) (buffer_size : nat) (value : CfgppValue)
    (fields : list (string * string)) :
  forallb plain field_names = true ->
  cfgpp_from_labview_cluster cluster_data data_size field_names
  = Returned (Api CFGPP_SUCCESS (Some value)) ->
  schema_fields cluster_data data_size field_names 0 = Returned fields ->
  known_types fields ->
  String.length (schema_text_of fields) < buffer_size ->
  exists schema_text schema,
    cfgpp_generate_schema_from_cluster cluster_data data_size field_names buffer_size
    = Returned {| generated_code := CFGPP_SUCCESS;
                  actual_size := String.length schema_text;
                  schema_buffer := Some schema_text |}
    /\ cfgpp_schema_parse_string cfgpp_schema_create schema_text = (CFGPP_SUCCESS, schema)
    /\ validation_errors schema value = ""
    /\ forall serialize file_path,
         cfgpp_cluster_to_file_validated serialize cluster_data data_size field_names
           file_path schema
         = Returned (serialize value file_path).
Proof.
  intros Hplain Hcluster Hfields Hknown Hfit.
  pose proof (schema_fields_ok _ _ _ _ _ Hplain Hfields) as Hok.
  exists (schema_text_of fields), (fold_left record_field fields cfgpp_schema_create).
  assert (Herrors : validation_errors
                      (fold_left record_field fields cfgpp_schema_create) value = "").
  { unfold cfgpp_from_labview_cluster in Hcluster.
    destruct field_names as [|name later]; [discriminate Hcluster|].
    destruct (cluster_fields _ _ _ _ _) as [map|] eqn:Hmap; [|discriminate Hcluster].
    injection Hcluster as <-. apply accepted_no_errors.
    eapply generated_fields_accepted;
      [|exact Hmap|exact Hfields|exact Hknown|].
    - lia.
    - split; [apply NoDup_nil_2|]. intros key ty []. }
  split; [|split; [|split]].
  - unfold cfgpp_generate_schema_from_cluster. rewrite Hfields.
    destruct (Nat.ltb_spec buffer_size (String.length (schema_text_of fields) + 1));
      [lia|].
    rewrite schema_text_c_str by assumption. reflexivity.
  - apply parse_schema_text, Hok.
  - exact Herrors.
  - intros serialize file_path. unfold cfgpp_cluster_to_file_validated.
    rewrite Hcluster. unfold cfgpp_validate_value. rewrite Herrors. reflexivity.
Qed.

Lemma generated_schema_accepts_its_cluster_witness :
  exists schema_text schema,
    cfgpp_generate_schema_from_cluster (i32_field ++ boolean_field) 37
      ["sample_rate"; "enable_logging"] 256
    = Returned {| generated_code := CFGPP_SUCCESS;
                  actual_size := String.length schema_text;
                  schema_buffer := Some schema_text |}
    /\ cfgpp_schema_parse_string cfgpp_schema_create schema_text = (CFGPP_SUCCESS, schema)
    /\ validation_errors schema
         (VObject (<[ "sample_rate" := VInteger 1000 ]>
                     {[ "enable_logging" := VBoolean true ]})) = ""
    /\ forall serialize file_path,
         cfgpp_cluster_to_file_validated serialize (i32_field ++ boolean_field) 37
           ["sample_rate"; "enable_logging"] file_path schema
         = Returned (serialize (VObject (<[ "sample_rate" := VInteger 1000 ]>
                                           {[ "enable_logging" := VBoolean true ]}))
                       file_path).
Proof.
  apply (generated_schema_accepts_its_cluster (i32_field ++ boolean_field) 37
           ["sample_rate"; "enable_logging"] 256
           (VObject (<[ "sample_rate" := VInteger 1000 ]>
                       {[ "enable_logging" := VBoolean true ]}))
           [("sample_rate", "integer"); ("enable_logging", "boolean")]).
  - vm_compute. reflexivity.
  - vm_compute. reflexivity.
  - vm_compute. reflexivity.
  - repeat constructor; discriminate.
  - vm_compute. lia.
Defined.

End GeneratedSchema.

(** ** Schema texts, read back *)

Module SchemaText.

Import StdString Schema SchemaGen StdStringFacts SchemaFacts GeneratedSchema.

#[local] Open Scope nat_scope.

(** An object schema as a text: the name and an opening brace on one line,
    one line for each field, and the closing brace on a line. *)
Definition header (name : string) : string := name +:+ " {".

Definition object_text (object : string * umap string) : string :=
  header (fst object) +:+ newline +:+ closing (snd object).

Definition schema_text (objects : umap (umap string)) : string :=
  List.fold_right (fun object text => object_text object +:+ text) "" objects.

(** The schema that holds the object schemas [objects] and nothing else. *)
Definition schema_of (objects : umap (umap string)) : CfgppSchema :=
  {| type_definitions := ∅; enum_definitions := ∅;
     object_schemas := objects; last_error := "" |}.

(** *** The header line *)

Lemma find_enum_declaration (line : string) :
  find "enum" line = None -> enum_declaration line = None.
Proof.
  intros Hnone. unfold enum_declaration.
  destruct (find "enum " line) as [[|n]|] eqn:Hfind; try reflexivity.
  exfalso. unfold find in *.
  apply String.index_correct1 in Hfind.
  apply (String.index_correct3 0 0 "enum" line Hnone); [discriminate|lia|].
  destruct line as [|c1 [|c2 [|c3 [|c4 [|c5 line]]]]]; try discriminate Hfind.
  cbn in Hfind |- *. injection Hfind as -> -> -> -> _. reflexivity.
Qed.

Lemma not_blank (c0 : ascii) :
  char_in blanks_comment c0 = false -> char_in blanks c0 = false.
Proof.
  intros Hc0. change blanks_comment with (String " " (String "009" "/#")) in Hc0.
  unfold char_in, blanks in *. cbn [list_ascii_of_string existsb] in *.
  destruct (Ascii.eqb c0 " "); [discriminate Hc0|].
  destruct (Ascii.eqb c0 "009"); [discriminate Hc0|]. reflexivity.
Qed.

Lemma not_comment (c0 : ascii) :
  char_in blanks_comment c0 = false -> Ascii.eqb c0 "/" || Ascii.eqb c0 "#" = false.
Proof.
  intros Hc0. change blanks_comment with (String " " (String "009" "/#")) in Hc0.
  unfold char_in in Hc0. cbn [list_ascii_of_string existsb] in Hc0.
  destruct (Ascii.eqb c0 " "); [discriminate Hc0|].
  destruct (Ascii.eqb c0 "009"); [discriminate Hc0|].
  destruct (Ascii.eqb c0 "/"); [discriminate Hc0|].
  destruct (Ascii.eqb c0 "#"); [discriminate Hc0|]. reflexivity.
Qed.

Section Header.

Variable name : string.
Hypothesis Hname : plain name = true.
Hypothesis Hnot_empty : name <> "".
Hypothesis Hno_enum : find "enum" (header name) = None.

Lemma name_head :
  exists c0 tail, name = String c0 tail /\ char_in blanks_comment c0 = false.
Proof.
  pose proof Hname as H. unfold plain in H.
  destruct name as [|c0 tail] eqn:Hn; [congruence|].
  exists c0, tail. split; [reflexivity|].
  apply andb_prop in H as [_ H]. apply negb_true_iff in H. exact H.
Qed.

Lemma name_trimmed : erase_trailing blanks name = name.
Proof.
  pose proof Hname as H. unfold plain in H.
  apply andb_prop in H as [H _]. apply andb_prop in H as [_ H].
  apply String.eqb_eq in H. unfold trim in H.
  destruct name_head as (c0 & tail & Hhead & Hc0).
  rewrite Hhead in H at 1. rewrite erase_leading_stop in H by (apply not_blank, Hc0).
  rewrite <- Hhead in H. exact H.
Qed.

Lemma trim_header : trim (header name) = header name.
Proof.
  unfold trim, header. destruct name_head as (c0 & tail & Hhead & Hc0).
  rewrite Hhead at 1. rewrite append_cons, erase_leading_stop by (apply not_blank, Hc0).
  rewrite <- append_cons, <- Hhead.
  change (name +:+ " {") with (name +:+ (" " +:+ "{")). rewrite <- append_assoc.
  apply erase_trailing_stop. reflexivity.
Qed.

Lemma header_find_brace : find_char "{" (header name) = Some (S (String.length name)).
Proof.
  unfold header. rewrite find_char_append.
  rewrite (plain_find_char name "{" Hname) by reflexivity.
  cbn. f_equal. lia.
Qed.

Lemma header_find_other (c : ascii) :
  char_in reserved c = true -> c <> "{"%char -> find_char c (header name) = None.
Proof.
  intros Hc Hbrace. unfold header. rewrite find_char_append.
  rewrite (plain_find_char name c Hname Hc). cbn [find_char].
  destruct (Ascii.eqb_spec c " ") as [->|_]; [discriminate Hc|].
  destruct (Ascii.eqb_spec c "{") as [?|_]; [contradiction|]. reflexivity.
Qed.

Lemma header_object_name :
  trim (substr (header name) 0 (Some (S (String.length name)))) = name.
Proof.
  unfold substr, header.
  change (name +:+ " {") with (name +:+ (" " +:+ "{")). rewrite <- append_assoc.
  replace (S (String.length name)) with (String.length (name +:+ " "))
    by (rewrite length_append; cbn; lia).
  rewrite substring_head. unfold trim.
  destruct name_head as (c0 & tail & Hhead & Hc0).
  rewrite Hhead at 1. rewrite append_cons, erase_leading_stop by (apply not_blank, Hc0).
  rewrite <- append_cons, <- Hhead.
  rewrite erase_trailing_skip by reflexivity. apply name_trimmed.
Qed.

(** What the header line does: the object is opened, and nothing is
    recorded yet. *)
Lemma schema_line_header (schema : CfgppSchema) (current_object : string) :
  schema_line (schema, current_object) (header name) = (schema, name).
Proof.
  unfold schema_line. cbv zeta. rewrite trim_header.
  pose proof header_find_brace as Hopen.
  pose proof (header_find_other ":" eq_refl ltac:(discriminate)) as Hcolon.
  pose proof (header_find_other "}" eq_refl ltac:(discriminate)) as Hclose.
  pose proof header_object_name as Hobject.
  pose proof (find_enum_declaration _ Hno_enum) as Hdeclaration.
  pose proof Hno_enum as Hfind.
  destruct name_head as (c0 & tail & Hhead & Hc0).
  assert (Hline : header name = String c0 (tail +:+ " {"))
    by (unfold header; rewrite Hhead; reflexivity).
  rewrite Hline in *. rewrite (not_comment c0 Hc0).
  rewrite Hdeclaration, Hopen, Hfind, Hobject, Hcolon, Hclose.
  destruct name; [congruence|reflexivity].
Qed.

End Header.

Lemma schema_line_close (schema : CfgppSchema) (current_object : string) :
  schema_line (schema, current_object) "}" = (schema, "").
Proof. destruct current_object; reflexivity. Qed.

(** *** The lines of a schema text *)

Definition object_ok (object : string * umap string) : Prop :=
  plain (fst object) = true /\ fst object <> ""
  /\ find "enum" (header (fst object)) = None
  /\ fields_ok (snd object) /\ snd object <> []
  /\ List.NoDup (List.map fst (snd object)).

Definition object_lines (object : string * umap string) : list string :=
  header (fst object) :: List.map line_of (snd object) ++ ["}"].

Lemma closing_append (fields : list (string * string)) (text : string) :
  closing fields +:+ text
  = List.fold_right (fun field rest => field_line field +:+ rest)
      ("}" +:+ newline +:+ text) fields.
Proof.
  induction fields as [|field fields IH]; [reflexivity|].
  cbn [closing List.fold_right]. fold (closing fields).
  rewrite append_assoc, IH. reflexivity.
Qed.

Lemma getlines_fields_then (fields : list (string * string)) (text : string) :
  fields_ok fields ->
  getlines (closing fields +:+ text) = List.map line_of fields ++ "}" :: getlines text.
Proof.
  intros Hok. rewrite closing_append.
  induction Hok as [|field fields [Hname Hty] _ IH].
  - cbn [List.fold_right List.map app].
    change ("}" +:+ newline +:+ text) with ("}" +:+ String "010" text).
    apply getlines_line. reflexivity.
  - cbn [List.fold_right List.map app].
    rewrite field_line_of, append_assoc.
    change (newline +:+ ?rest) with (String "010" rest).
    rewrite getlines_line by (apply line_of_find_reserved; auto; discriminate).
    rewrite IH. reflexivity.
Qed.

Lemma getlines_objects (objects : umap (umap string)) :
  Forall object_ok objects ->
  getlines (schema_text objects) = List.flat_map object_lines objects.
Proof.
  induction 1 as [|[name fields] objects (Hname & _ & _ & Hfields & _) _ IH];
    [reflexivity|].
  cbn [schema_text List.fold_right flat_map]. fold (schema_text objects).
  unfold object_text, object_lines. cbn [fst snd] in *.
  rewrite !append_assoc.
  change (newline +:+ ?rest) with (String "010" rest).
  rewrite getlines_line.
  - rewrite getlines_fields_then by assumption. rewrite IH.
    cbn [app]. rewrite <- app_assoc. reflexivity.
  - unfold header. rewrite find_char_append.
    rewrite (plain_find_char name "010" Hname) by reflexivity. reflexivity.
Qed.

(** *** The schema after the lines of one object *)

Definition record_in (object : string) (schema : CfgppSchema) (field : string * string)
  : CfgppSchema :=
  set_field schema object (fst field) (snd field).

Lemma schema_lines_fields_of (object : string) (fields : list (string * string))
    (schema : CfgppSchema) :
  object <> "" ->
  fields_ok fields ->
  fold_left schema_line (List.map line_of fields) (schema, object)
  = (fold_left (record_in object) fields schema, object).
Proof.
  intros Hobject Hok. revert schema.
  induction Hok as [|[name ty] fields [Hname Hty] _ IH]; intros schema; [reflexivity|].
  cbn [List.map fold_left]. cbn [fst snd] in *.
  destruct object as [|c object]; [congruence|].
  rewrite (schema_line_field name ty Hname Hty). apply IH.
Qed.

Lemma schema_lines_object (object : string * umap string) (schema : CfgppSchema)
    (current_object : string) :
  object_ok object ->
  fold_left schema_line (object_lines object) (schema, current_object)
  = (fold_left (record_in (fst object)) (snd object) schema, "").
Proof.
  intros (Hname & Hnot_empty & Hno_enum & Hfields & _).
  unfold object_lines. cbn [fold_left].
  rewrite (schema_line_header _ Hname Hnot_empty Hno_enum).
  rewrite fold_left_app, schema_lines_fields_of by assumption.
  cbn [fold_left]. apply schema_line_close.
Qed.

(** *** The table after the fields of one object *)

Lemma umap_find_absent {V} (k : string) (m : umap V) :
  ~ In k (List.map fst m) -> umap_find k m = None.
Proof.
  induction m as [|[k' v'] m IH]; intros Hk; [reflexivity|].
  cbn [umap_find]. destruct (String.eqb_spec k k') as [->|_].
  - exfalso. apply Hk. left. reflexivity.
  - apply IH. intros Hin. apply Hk. right. exact Hin.
Qed.

Lemma umap_set_absent {V} (k : string) (v : V) (m : umap V) :
  ~ In k (List.map fst m) -> umap_set k v m = m ++ [(k, v)].
Proof.
  induction m as [|[k' v'] m IH]; intros Hk; [reflexivity|].
  cbn [umap_set]. destruct (String.eqb_spec k k') as [->|_].
  - exfalso. apply Hk. left. reflexivity.
  - cbn [app]. f_equal. apply IH. intros Hin. apply Hk. right. exact Hin.
Qed.

Lemma umap_find_last {V} (k : string) (v : V) (m : umap V) :
  ~ In k (List.map fst m) -> umap_find k (m ++ [(k, v)]) = Some v.
Proof.
  induction m as [|[k' v'] m IH]; intros Hk.
  - cbn. rewrite String.eqb_refl. reflexivity.
  - cbn [app umap_find]. destruct (String.eqb_spec k k') as [->|_].
    + exfalso. apply Hk. left. reflexivity.
    + apply IH. intros Hin. apply Hk. right. exact Hin.
Qed.

Lemma umap_set_last {V} (k : string) (v v' : V) (m : umap V) :
  ~ In k (List.map fst m) -> umap_set k v' (m ++ [(k, v)]) = m ++ [(k, v')].
Proof.
  induction m as [|[k' w] m IH]; intros Hk.
  - cbn. rewrite String.eqb_refl. reflexivity.
  - cbn [app umap_set]. destruct (String.eqb_spec k k') as [->|_].
    + exfalso. apply Hk. left. reflexivity.
    + f_equal. apply IH. intros Hin. apply Hk. right. exact Hin.
Qed.

Lemma record_later_fields (object : string) (done : umap (umap string))
    (later : list (string * string)) :
  ~ In object (List.map fst done) ->
  forall known : umap string,
    List.NoDup (List.map fst later) ->
    (forall field, In field later -> ~ In (fst field) (List.map fst known)) ->
    fold_left (record_in object) later (schema_of (done ++ [(object, known)]))
    = schema_of (done ++ [(object, known ++ later)]).
Proof.
  intros Hobject.
  induction later as [|[name ty] later IH]; intros known Hkeys Hnew.
  - rewrite app_nil_r. reflexivity.
  - cbn [fold_left]. cbn [List.map fst] in Hkeys.
    apply List.NoDup_cons_iff in Hkeys as [Hname Hkeys].
    assert (Hstep : record_in object (schema_of (done ++ [(object, known)])) (name, ty)
                    = schema_of (done ++ [(object, known ++ [(name, ty)])])).
    { unfold record_in, set_field, schema_of. cbn [object_schemas fst snd].
      rewrite umap_find_last by assumption. cbn [from_option id].
      rewrite (umap_set_absent name ty known)
        by (apply (Hnew (name, ty)); left; reflexivity).
      rewrite umap_set_last by assumption. reflexivity. }
    rewrite Hstep, IH; [rewrite <- app_assoc; reflexivity|exact Hkeys|].
    intros field Hin Hknown. rewrite List.map_app, in_app_iff in Hknown.
    destruct Hknown as [Hknown|[Heq|[]]].
    + apply (Hnew field); [right; exact Hin|exact Hknown].
    + cbn [fst] in Heq. apply Hname. rewrite Heq. apply List.in_map, Hin.
Qed.

Lemma record_object (object : string * umap string) (done : umap (umap string)) :
  object_ok object ->
  ~ In (fst object) (List.map fst done) ->
  fold_left (record_in (fst object)) (snd object) (schema_of done)
  = schema_of (done ++ [object]).
Proof.
  intros (_ & _ & _ & _ & Hfields & Hkeys) Hnew.
  destruct object as [name [|[field ty] later]]; [cbn in Hfields; congruence|].
  cbn [fst snd] in *. cbn [fold_left].
  assert (Hfirst : record_in name (schema_of done) (field, ty)
                   = schema_of (done ++ [(name, [(field, ty)])])).
  { unfold record_in, set_field, schema_of. cbn [object_schemas fst snd].
    rewrite umap_find_absent by assumption. cbn [from_option id umap_set].
    rewrite umap_set_absent by assumption. reflexivity. }
  rewrite Hfirst. cbn [List.map fst] in Hkeys.
  apply List.NoDup_cons_iff in Hkeys as [Hfield Hkeys].
  rewrite record_later_fields; [reflexivity|assumption..|].
  intros other Hin [Heq|[]]. cbn [fst] in Heq. apply Hfield. rewrite Heq.
  apply List.in_map, Hin.
Qed.

Lemma schema_lines_objects (objects : umap (umap string)) :
  Forall object_ok objects ->
  forall done : umap (umap string),
    List.NoDup (List.map fst (done ++ objects)) ->
    fold_left schema_line (List.flat_map object_lines objects) (schema_of done, "")
    = (schema_of (done ++ objects), "").
Proof.
  induction 1 as [|object objects Hobject _ IH]; intros done Hkeys.
  - rewrite app_nil_r. reflexivity.
  - cbn [flat_map]. rewrite fold_left_app, schema_lines_object by assumption.
    rewrite record_object.
    + rewrite IH by (rewrite <- app_assoc; exact Hkeys).
      rewrite <- app_assoc. reflexivity.
    + exact Hobject.
    + rewrite List.map_app in Hkeys. cbn [List.map] in Hkeys.
      apply List.NoDup_remove_2 in Hkeys. intros Hin. apply Hkeys.
      apply in_or_app. left. exact Hin.
Qed.

(** In the order of the model, in which a new key goes behind the others,
    the object schemas are those of the text. *)
Lemma parse_schema_text_objects (objects : umap (umap string)) :
  Forall object_ok objects ->
  List.NoDup (List.map fst objects) ->
  cfgpp_schema_parse_string cfgpp_schema_create (schema_text objects)
  = (CFGPP_SUCCESS, schema_of objects).
Proof.
  intros Hobjects Hkeys. unfold cfgpp_schema_parse_string.
  rewrite getlines_objects by assumption.
  change cfgpp_schema_create with (schema_of []).
  rewrite (schema_lines_objects objects Hobjects []) by exact Hkeys.
  reflexivity.
Qed.

(** What a table holds, whatever the order it is gone through in: two
    tables of fields hold the same when they have as many entries and
    every name is found with the same type in both; a schema holds the
    object schemas [objects] when it has as many and every name is found
    in both or in neither, with the same fields. *)
Definition same_fields (found fields : umap string) : Prop :=
  List.length found = List.length fields
  /\ forall field_name, umap_find field_name found = umap_find field_name fields.

Definition holds_objects (schema : CfgppSchema) (objects : umap (umap string)) : Prop :=
  List.length (object_schemas schema) = List.length objects
  /\ forall name,
       match umap_find name (object_schemas schema), umap_find name objects with
       | Some found, Some fields => same_fields found fields
       | None, None => True
       | _, _ => False
       end.

Lemma holds_objects_refl (objects : umap (umap string)) :
  holds_objects (schema_of objects) objects.
Proof.
  split; [reflexivity|]. intros name. cbn [schema_of object_schemas].
  destruct (umap_find name objects); [|exact I]. split; reflexivity.
Qed.

(** X23: a schema text that holds, for each object schema, the name and
    an opening brace on one line, one line for each field with its name,
    a colon, its type and a semicolon, and the closing brace on a line of
    its own, is read by cfgpp_schema_parse_string into these object
    schemas and nothing else: the call returns CFGPP_SUCCESS, the schema
    has as many object schemas as the text, every object name of the text
    is found in it with as many fields as the text gives it, each under
    its name with its type, no other name is found, and no type or enum
    is defined.  Nothing is said of the order in which the schema is gone
    through.  This holds when the names and types are plain, no object
    name holds the word enum, every object has a field, and no name is
    given twice. *)
Theorem schema_text_is_read_back (objects : umap (umap string)) :
  Forall object_ok objects ->
  List.NoDup (List.map fst objects) ->
  exists schema,
    cfgpp_schema_parse_string cfgpp_schema_create (schema_text objects)
    = (CFGPP_SUCCESS, schema)
    /\ holds_objects schema objects
    /\ type_definitions schema = ∅
    /\ enum_definitions schema = ∅.
Proof.
  intros Hobjects Hkeys. exists (schema_of objects).
  split; [apply parse_schema_text_objects; assumption|].
  split; [apply holds_objects_refl|]. split; reflexivity.
Qed.

(** Two object schemas, the second field of the first one of an enum
    type. *)
Definition sample_objects : umap (umap string) :=
  [("Cfg", [("x", "integer"); ("mode", "Color")]); ("Net", [("port", "integer")])].

Lemma schema_text_is_read_back_witness :
  exists schema,
    cfgpp_schema_parse_string cfgpp_schema_create (schema_text sample_objects)
    = (CFGPP_SUCCESS, schema)
    /\ holds_objects schema sample_objects
    /\ type_definitions schema = ∅
    /\ enum_definitions schema = ∅.
Proof.
  apply (schema_text_is_read_back sample_objects).
  - repeat (apply List.Forall_cons;
            [split; [vm_compute; reflexivity|]; split; [discriminate|];
             split; [vm_compute; reflexivity|];
             split; [repeat (apply List.Forall_cons;
                             [split; vm_compute; reflexivity|]);
                     apply List.Forall_nil|];
             split; [discriminate|];
             repeat (apply List.NoDup_cons;
                     [cbn; intros H;
                      repeat (destruct H as [H|H]; [discriminate H|]); exact H|]);
             apply List.NoDup_nil|]).
    apply List.Forall_nil.
  - repeat (apply List.NoDup_cons;
            [cbn; intros H; repeat (destruct H as [H|H]; [discriminate H|]); exact H|]).
    apply List.NoDup_nil.
Defined.

(** The conditions are needed: an object whose name holds the word enum
    is not opened, so its fields are recorded nowhere; and a field on the
    line of the opening brace is recorded under a name that holds the
    object's name and the brace. *)
Example schema_texts_not_read_back :
  cfgpp_schema_parse_string cfgpp_schema_create
    (schema_text [("renumber", [("x", "integer")])])
  = (CFGPP_SUCCESS, schema_of [])
  /\ cfgpp_schema_parse_string cfgpp_schema_create "Cfg { x: integer; }"
     = (CFGPP_SUCCESS, schema_of [("Cfg", [("Cfg { x", "integer; }")])]).
Proof. split; vm_compute; reflexivity. Qed.

End SchemaText.

(** ** Validation *)

Module ValidationFacts.

Import LabView StdString Schema SchemaGen Access StdStringFacts LabViewFacts SchemaFacts
  DecoderFacts.

#[local] Open Scope nat_scope.

(** The loop over the fields of one schema: [matches] stays true exactly
    when every field is satisfied, and the error text only grows, and
    grows when a field is not satisfied. *)
Lemma validate_fields_spec (schema : CfgppSchema) (map : gmap string CfgppValue)
    (schema_fields : umap string) :
  forall (errors : string) (matches : bool),
    snd (validate_fields schema map schema_fields errors matches)
    = matches && satisfies schema map schema_fields
    /\ String.length errors
       <= String.length (fst (validate_fields schema map schema_fields errors matches))
    /\ (satisfies schema map schema_fields = false ->
        String.length errors
        < String.length (fst (validate_fields schema map schema_fields errors matches))).
Proof.
  induction schema_fields as [|[field_name field_type] rest IH]; intros errors matches.
  - cbn. rewrite andb_true_r. split; [reflexivity|]. split; [lia|discriminate].
  - cbn [validate_fields satisfies forallb]. fold (satisfies schema map rest).
    destruct (map !! field_name) as [field_value|].
    + destruct (validate_type schema field_type field_value).
      * cbn [andb]. apply IH.
      * destruct (IH (errors +:+ "Field '" +:+ field_name
                        +:+ "' has wrong type, expected " +:+ field_type +:+ "; ") false)
          as (Hmatches & Hgrow & _).
        rewrite Hmatches, !length_append in *. cbn [andb String.length] in *.
        rewrite andb_false_r. split; [reflexivity|]. split; [lia|]. intros _. lia.
    + destruct (IH (errors +:+ "Missing required field: " +:+ field_name +:+ "; ") false)
        as (Hmatches & Hgrow & _).
      rewrite Hmatches, !length_append in *. cbn [andb String.length] in *.
      rewrite andb_false_r. split; [reflexivity|]. split; [lia|]. intros _. lia.
Qed.

(** The loop over the schemas never shortens the error text. *)
Lemma validate_schemas_grows (schema : CfgppSchema) (map : gmap string CfgppValue)
    (schemas : umap (umap string)) :
  forall errors : string,
    String.length errors <= String.length (validate_schemas schema map schemas errors).
Proof.
  induction schemas as [|[schema_name schema_fields] rest IH]; intros errors; [cbn; lia|].
  cbn [validate_schemas].
  destruct (validate_fields schema map schema_fields errors true) as [errors' matches] eqn:Hv.
  pose proof (validate_fields_spec schema map schema_fields errors true) as (_ & Hgrow & _).
  rewrite Hv in Hgrow. cbn [fst] in Hgrow.
  destruct matches; [exact Hgrow|]. specialize (IH errors'). lia.
Qed.

Lemma length_zero (s : string) : String.length s = 0 -> s = "".
Proof. destruct s; [reflexivity|discriminate]. Qed.

(** X24: cfgpp_validate_value finds an Object free of violations exactly
    when the schema has no object schema at all or the Object satisfies
    the object schema the iteration visits first.  A violation of the
    first schema is never withdrawn: satisfying a later schema does not
    help. *)
Theorem first_schema_decides (schema : CfgppSchema) (map : gmap string CfgppValue) :
  validation_errors schema (VObject map) = ""
  <-> match object_schemas schema with
      | [] => True
      | (schema_name, schema_fields) :: later => satisfies schema map schema_fields = true
      end.
Proof.
  unfold validation_errors.
  destruct (object_schemas schema) as [|[schema_name schema_fields] later];
    [split; reflexivity|].
  cbn [validate_schemas].
  pose proof (validate_fields_spec schema map schema_fields "" true)
    as (Hmatches & _ & Hstrict).
  destruct (validate_fields schema map schema_fields "" true) as [errors matches] eqn:Hv.
  cbn [fst snd andb] in *. subst matches.
  destruct (satisfies schema map schema_fields) eqn:Hsat.
  - split; [reflexivity|]. intros _.
    assert (H : validate_fields schema map schema_fields "" true = ("", true)).
    { clear -Hsat. generalize "". generalize true.
      induction schema_fields as [|[field_name field_type] rest IH];
        intros matches errors; [reflexivity|].
      cbn [satisfies forallb] in Hsat. apply andb_prop in Hsat as [Hfield Hrest].
      cbn [validate_fields].
      destruct (map !! field_name) as [field_value|]; [|discriminate].
      rewrite Hfield. apply IH, Hrest. }
    rewrite H in Hv. congruence.
  - split; [|discriminate]. intros Hempty.
    pose proof (validate_schemas_grows schema map later errors) as Hgrow.
    rewrite Hempty in Hgrow. specialize (Hstrict eq_refl). cbn in *. lia.
Qed.

(** X25: validation has nothing to say about a value that is not an
    Object, and the variant decoder never makes an Object: whatever the
    schema, cfgpp_variant_to_file_validated does what
    cfgpp_variant_to_file does. *)
Theorem variant_validation_is_vacuous
    (serialize : CfgppValue -> string -> CfgppResult)
    (variant_data : memory) (data_size : Z) (file_path : string) (schema : CfgppSchema) :
  cfgpp_variant_to_file_validated serialize variant_data data_size file_path schema
  = cfgpp_variant_to_file serialize variant_data data_size file_path.
Proof.
  unfold cfgpp_variant_to_file_validated, cfgpp_variant_to_file.
  destruct (cfgpp_from_labview_variant variant_data data_size) as [r|] eqn:Hr;
    [|reflexivity].
  destruct (variant_returns_scalar _ _ _ Hr) as [->|(value & -> & Hscalar & _)];
    [reflexivity|].
  destruct value; try discriminate Hscalar; reflexivity.
Qed.

(** *** Reading a string out *)

Lemma c_str_spec (s : string) :
  find_char "000" (c_str s) = None
  /\ String.length (c_str s) <= String.length s
  /\ exists rest, s = c_str s +:+ rest.
Proof.
  induction s as [|c s (Hnul & Hlen & rest & Hrest)].
  - repeat split; [cbn; lia|exists ""; reflexivity].
  - cbn [c_str]. destruct (Ascii.eqb_spec c "000") as [->|Hc].
    + repeat split; [cbn; lia|]. exists (String "000" s). reflexivity.
    + cbn [find_char String.length].
      destruct (Ascii.eqb_spec "000" c) as [?|_]; [congruence|].
      rewrite Hnul. repeat split; [lia|].
      exists rest. rewrite append_cons. f_equal. exact Hrest.
Qed.

(** X26: for a String or Enum value, cfgpp_value_get_string with a buffer
    too small for the text and its terminator returns
    CFGPP_ERROR_BUFFER_TOO_SMALL, and with a larger buffer CFGPP_SUCCESS;
    both report the length of the text.  What is copied is the text up to
    its first NUL character, so it is the whole text exactly when the text
    holds no NUL; otherwise the reported length is more than what the
    buffer holds. *)
Theorem get_string_copies_up_to_nul (str : string) (buffer_size : nat) :
  (buffer_size <= String.length str ->
   cfgpp_value_get_string (VString str) buffer_size
   = {| access_code := CFGPP_ERROR_BUFFER_TOO_SMALL;
        actual_length := Some (String.length str); buffer := None |})
  /\ (String.length str < buffer_size ->
      exists copied rest,
        cfgpp_value_get_string (VString str) buffer_size
        = {| access_code := CFGPP_SUCCESS;
             actual_length := Some (String.length str); buffer := Some copied |}
        /\ str = copied +:+ rest
        /\ find_char "000" copied = None
        /\ (find_char "000" str = None <-> copied = str)
        /\ (find_char "000" str <> None <-> String.length copied < String.length str))
  /\ cfgpp_value_get_string (VEnum str) buffer_size
     = cfgpp_value_get_string (VString str) buffer_size.
Proof.
  split; [|split; [|reflexivity]].
  - intros Hsmall. unfold cfgpp_value_get_string.
    destruct (Nat.ltb_spec buffer_size (String.length str + 1)); [reflexivity|lia].
  - intros Hfit. unfold cfgpp_value_get_string.
    destruct (Nat.ltb_spec buffer_size (String.length str + 1)); [lia|].
    destruct (c_str_spec str) as (Hnul & Hlen & rest & Hrest).
    exists (c_str str), rest. split; [reflexivity|]. split; [exact Hrest|].
    split; [exact Hnul|].
    assert (Hiff : find_char "000" str = None <-> c_str str = str).
    { split; [apply c_str_all|]. intros <-. exact Hnul. }
    split; [exact Hiff|].
    split.
    + intros Hsome. destruct (Nat.eq_dec (String.length (c_str str)) (String.length str))
        as [Heq|]; [|lia].
      exfalso. apply Hsome, Hiff.
      rewrite Hrest in Heq at 2. rewrite length_append in Heq.
      assert (Hr : rest = "") by (apply length_zero; lia).
      rewrite Hr in Hrest. rewrite Hrest at 2.
      clear. induction (c_str str) as [|c s IH]; [reflexivity|].
      rewrite append_cons. f_equal. exact IH.
    + intros Hshort Hnone. apply Hiff in Hnone. rewrite Hnone in Hshort. lia.
Qed.

End ValidationFacts.
